(** * Recipes book: the persistence schema, the serializers and the views

    A shallow embedding of the Django application under [backend/]:
    - [users/models.py] and [api/models.py]: the tables and their
      uniqueness constraints;
    - [api/serializers.py]: field resolution, the [validate_*] methods,
      [RecipeSerializer.create] and [RecipeSerializer.update];
    - [api/views.py]: the membership toggles, the subscription toggle and
      the shopping-list aggregation;
    - [api/management/commands]: the two reference-data loaders.

    Python code that touches the database is written in a state monad
    with exceptions: a raised exception leaves the writes made so far in
    place, and [atomic] (the decorator [@transaction.atomic]) undoes
    them. *)

From Stdlib Require Import ZArith Lia.
From stdpp Require Import base list gmap strings pretty.

Open Scope Z_scope.

(** ** users/models.py and api/models.py *)

Module CustomUser.
Record t := mk {
  id : Z;
  email : string;
  username : string;
  first_name : string;
  last_name : string;
  is_subscribed : bool
}.
#[global] Instance eq_dec : EqDecision t.
Proof. solve_decision. Defined.
End CustomUser.

Module Tag.
Record t := mk {
  id : Z;
  name : string;
  color : option string;
  slug : option string
}.
#[global] Instance eq_dec : EqDecision t.
Proof. solve_decision. Defined.
End Tag.

Module Ingredient.
Record t := mk {
  id : Z;
  name : string;
  measurement_unit : string
}.
#[global] Instance eq_dec : EqDecision t.
Proof. solve_decision. Defined.
End Ingredient.

Module Recipe.
Record t := mk {
  id : Z;
  name : string;
  image : string;
  text : string;
  cooking_time : Z;
  author : option Z
}.
#[global] Instance eq_dec : EqDecision t.
Proof. solve_decision. Defined.
End Recipe.

Module IngredientRecipe.
Record t := mk {
  recipe : Z;
  ingredient : Z;
  amount : Z
}.
#[global] Instance eq_dec : EqDecision t.
Proof. solve_decision. Defined.
(** The columns of [unique_ingredientrecipe]. *)
Definition key (row : t) : Z * Z := (recipe row, ingredient row).
End IngredientRecipe.

(** [Favorite] and [ShoppingCart] have the same two foreign keys, and the
    views take the model class as an argument: one row type, two tables. *)
Module Membership.
Record t := mk {
  recipe : Z;
  user : Z
}.
#[global] Instance eq_dec : EqDecision t.
Proof. solve_decision. Defined.
End Membership.

Module Subscribe.
Record t := mk {
  author : Z;
  follower : Z
}.
#[global] Instance eq_dec : EqDecision t.
Proof. solve_decision. Defined.
End Subscribe.

(** The database.  [recipe_tags] is the implicit through table of
    [Recipe.tags].  The join and membership rows carry no primary key
    here: no code path reads it, and a row is only ever deleted after
    [get] found it to be the single match. *)
Record DB := mkDB {
  users : list CustomUser.t;
  tags : list Tag.t;
  ingredients : list Ingredient.t;
  recipes : list Recipe.t;
  recipe_tags : gset (Z * Z);
  ingredientrecipes : list IngredientRecipe.t;
  favorites : list Membership.t;
  shopping_carts : list Membership.t;
  subscribes : list Subscribe.t
}.

Definition set_tags (f : list Tag.t → list Tag.t) (db : DB) : DB :=
  mkDB (users db) (f (tags db)) (ingredients db) (recipes db)
       (recipe_tags db) (ingredientrecipes db) (favorites db)
       (shopping_carts db) (subscribes db).

Definition set_ingredients (f : list Ingredient.t → list Ingredient.t)
    (db : DB) : DB :=
  mkDB (users db) (tags db) (f (ingredients db)) (recipes db)
       (recipe_tags db) (ingredientrecipes db) (favorites db)
       (shopping_carts db) (subscribes db).

Definition set_recipes (f : list Recipe.t → list Recipe.t) (db : DB) : DB :=
  mkDB (users db) (tags db) (ingredients db) (f (recipes db))
       (recipe_tags db) (ingredientrecipes db) (favorites db)
       (shopping_carts db) (subscribes db).

Definition set_recipe_tags (f : gset (Z * Z) → gset (Z * Z)) (db : DB) : DB :=
  mkDB (users db) (tags db) (ingredients db) (recipes db)
       (f (recipe_tags db)) (ingredientrecipes db) (favorites db)
       (shopping_carts db) (subscribes db).

Definition set_ingredientrecipes
    (f : list IngredientRecipe.t → list IngredientRecipe.t) (db : DB) : DB :=
  mkDB (users db) (tags db) (ingredients db) (recipes db)
       (recipe_tags db) (f (ingredientrecipes db)) (favorites db)
       (shopping_carts db) (subscribes db).

Definition set_favorites (f : list Membership.t → list Membership.t)
    (db : DB) : DB :=
  mkDB (users db) (tags db) (ingredients db) (recipes db)
       (recipe_tags db) (ingredientrecipes db) (f (favorites db))
       (shopping_carts db) (subscribes db).

Definition set_shopping_carts (f : list Membership.t → list Membership.t)
    (db : DB) : DB :=
  mkDB (users db) (tags db) (ingredients db) (recipes db)
       (recipe_tags db) (ingredientrecipes db) (favorites db)
       (f (shopping_carts db)) (subscribes db).

Definition set_subscribes (f : list Subscribe.t → list Subscribe.t)
    (db : DB) : DB :=
  mkDB (users db) (tags db) (ingredients db) (recipes db)
       (recipe_tags db) (ingredientrecipes db) (favorites db)
       (shopping_carts db) (f (subscribes db)).

(** ** Exceptions and the database monad *)

Inductive exn :=
  | ValidationError (detail : list string)
  | IntegrityError
  | DoesNotExist
  | MultipleObjectsReturned
  | ValueError
  | TypeError
  | NotAuthenticated
  | MethodNotAllowed
  | Http404.

#[global] Instance exn_eq_dec : EqDecision exn.
Proof. solve_decision. Defined.

Inductive result (A : Type) :=
  | Return (a : A)
  | Raise (e : exn).
Arguments Return {A} a.
Arguments Raise {A} e.

Definition M (A : Type) : Type := DB → DB * result A.

#[global] Instance M_ret : MRet M := λ A a db, (db, Return a).

#[global] Instance M_bind : MBind M := λ A B f m db,
  match m db with
  | (db', Return a) => f a db'
  | (db', Raise e) => (db', Raise e)
  end.

(** Code that only reads the database ([filter], [exists], [get], and
    all of validation) lives in the query monad [Q]; [query] runs it
    inside [M]. *)
Definition Q (A : Type) : Type := DB → result A.

#[global] Instance Q_ret : MRet Q := λ A a db, Return a.

#[global] Instance Q_bind : MBind Q := λ A B f q db,
  match q db with
  | Return a => f a db
  | Raise e => Raise e
  end.

Definition raise {A} (e : exn) : Q A := λ db, Raise e.

(** A computation that may raise and does not look at the database. *)
Definition pure {A} (r : result A) : Q A := λ db, r.

Definition query {A} (q : Q A) : M A := λ db, (db, q db).

Definition write (f : DB → DB) : M () := λ db, (f db, Return ()).

(** [try: q except e: h] for the handlers of this code base, which catch
    one exception class around one query. *)
Definition try_except {A} (q : Q A) (e : exn) (h : Q A) : Q A := λ db,
  match q db with
  | Raise e' => if decide (e' = e) then h db else Raise e'
  | r => r
  end.

(** [@transaction.atomic]: when the body raises, the writes it made are
    rolled back and the exception goes on. *)
Definition atomic {A} (m : M A) : M A := λ db,
  match m db with
  | (db', Return a) => (db', Return a)
  | (_, Raise e) => (db, Raise e)
  end.

(** ** The object manager

    [filter(...).exists()], [get(...)], and the primary key given to a
    new row: the model takes the one above every key of the table.  A
    database sequence may skip keys; what the results rely on is that no
    row of the table has the key ([next_id_fresh]). *)

Definition exists_ {A} (P : A → Prop) `{∀ x, Decision (P x)}
    (rows : list A) : bool :=
  bool_decide (filter P rows ≠ []).

Definition get {A} (P : A → Prop) `{∀ x, Decision (P x)}
    (table : DB → list A) : Q A := λ db,
  match filter P (table db) with
  | [] => Raise DoesNotExist
  | [x] => Return x
  | _ => Raise MultipleObjectsReturned
  end.

Definition next_id (ids : list Z) : Z := 1 + foldr Z.max 0 ids.

Definition get_object_or_404 {A} (P : A → Prop) `{∀ x, Decision (P x)}
    (table : DB → list A) : Q A :=
  try_except (get P table) DoesNotExist (raise Http404).


(** [Model.objects.create(...)] for each table the views write to, with
    the [unique=True] columns and the [UniqueConstraint]s of models.py
    checked by the storage layer. *)

Definition Ingredient_objects_create (name measurement_unit : string)
    : M Ingredient.t := λ db,
  if exists_ (λ i, Ingredient.name i = name) (ingredients db)
  then (db, Raise IntegrityError)
  else
    let obj := Ingredient.mk (next_id (Ingredient.id <$> ingredients db))
                 name measurement_unit in
    (set_ingredients (λ rows, rows ++ [obj]) db, Return obj).

(** A NULL slug conflicts with nothing. *)
Definition Tag_objects_create (name : string) (color slug : option string)
    : M Tag.t := λ db,
  if bool_decide (is_Some slug)
     && exists_ (λ t, Tag.slug t = slug) (tags db)
  then (db, Raise IntegrityError)
  else
    let obj := Tag.mk (next_id (Tag.id <$> tags db)) name color slug in
    (set_tags (λ rows, rows ++ [obj]) db, Return obj).

Definition Recipe_objects_create (author : option Z)
    (name image text : string) (cooking_time : Z) : M Recipe.t := λ db,
  if exists_ (λ r, Recipe.name r = name) (recipes db)
  then (db, Raise IntegrityError)
  else
    let obj := Recipe.mk (next_id (Recipe.id <$> recipes db))
                 name image text cooking_time author in
    (set_recipes (λ rows, rows ++ [obj]) db, Return obj).

(** [instance.save()] of an existing recipe: the row with its primary key
    is replaced; the name must stay unique among the other rows. *)
Definition Recipe_save (obj : Recipe.t) : M () := λ db,
  if exists_ (λ r, Recipe.name r = Recipe.name obj
                   ∧ Recipe.id r ≠ Recipe.id obj) (recipes db)
  then (db, Raise IntegrityError)
  else
    (set_recipes
       (fmap (λ r, if decide (Recipe.id r = Recipe.id obj) then obj else r))
       db,
     Return ()).

Definition IngredientRecipe_insert (row : IngredientRecipe.t) : M () := λ db,
  if decide (IngredientRecipe.key row
             ∈ IngredientRecipe.key <$> ingredientrecipes db)
  then (db, Raise IntegrityError)
  else (set_ingredientrecipes (λ rows, rows ++ [row]) db, Return ()).

Fixpoint insert_all (objs : list IngredientRecipe.t) : M () :=
  match objs with
  | [] => mret ()
  | obj :: rest => IngredientRecipe_insert obj ;; insert_all rest
  end.

(** [bulk_create] sends one INSERT and runs it in its own atomic block. *)
Definition IngredientRecipe_objects_bulk_create
    (objs : list IngredientRecipe.t) : M () :=
  atomic (insert_all objs).

(** The two membership models, [Favorite] and [ShoppingCart]. *)
Inductive MembershipModel := Favorite | ShoppingCart.

Definition objects (model : MembershipModel) (db : DB) : list Membership.t :=
  match model with
  | Favorite => favorites db
  | ShoppingCart => shopping_carts db
  end.

Definition set_objects (model : MembershipModel)
    (f : list Membership.t → list Membership.t) : DB → DB :=
  match model with
  | Favorite => set_favorites f
  | ShoppingCart => set_shopping_carts f
  end.

Definition Membership_objects_create (model : MembershipModel)
    (recipe user : Z) : M Membership.t := λ db,
  let obj := Membership.mk recipe user in
  if decide (obj ∈ objects model db)
  then (db, Raise IntegrityError)
  else (set_objects model (λ rows, rows ++ [obj]) db, Return obj).

(** [obj.delete()]: the row goes (with any copy of it: there is no key to
    tell copies apart, and under the constraint there is none). *)
Definition Membership_delete (model : MembershipModel) (obj : Membership.t)
    : M () :=
  write (set_objects model (filter (λ row, row ≠ obj))).

Definition Subscribe_objects_create (author follower : Z)
    : M Subscribe.t := λ db,
  let obj := Subscribe.mk author follower in
  if decide (obj ∈ subscribes db)
  then (db, Raise IntegrityError)
  else (set_subscribes (λ rows, rows ++ [obj]) db, Return obj).

Definition Subscribe_delete (obj : Subscribe.t) : M () :=
  write (set_subscribes (filter (λ row, row ≠ obj))).

(** The related manager [recipe.tags]: [clear()] drops every link of the
    recipe; [set(objs)] drops the links whose tag is not among [objs] and
    adds the missing ones. *)
Definition tags_clear (recipe : Recipe.t) : M () :=
  write (set_recipe_tags (filter (λ link, link.1 ≠ Recipe.id recipe))).

Definition tags_set (recipe : Recipe.t) (objs : list Tag.t) : M () :=
  let new_ids : gset Z := list_to_set (Tag.id <$> objs) in
  write (set_recipe_tags (λ links,
    filter (λ link, link.1 ≠ Recipe.id recipe ∨ link.2 ∈ new_ids) links
    ∪ set_map (λ tag_id, (Recipe.id recipe, tag_id)) new_ids)).

(** [recipe.ingredients.clear()]: every join row of the recipe goes. *)
Definition ingredients_clear (recipe : Recipe.t) : M () :=
  write (set_ingredientrecipes
           (filter (λ row, IngredientRecipe.recipe row ≠ Recipe.id recipe))).

(** ** The request *)

Inductive method := GET | POST | PUT | PATCH | DELETE.

#[global] Instance method_eq_dec : EqDecision method.
Proof. solve_decision. Defined.

(** [request.user] is a [CustomUser], or [None] for [AnonymousUser];
    [request.GET] holds the parameters of the query string. *)
Record Request := mkRequest {
  request_method : method;
  request_user : option CustomUser.t;
  request_GET : gmap string string
}.

(** ** What the model takes as given

    A [string] stands for a Python [str].  The functions of Python and of
    the framework that work on the characters of a string are not
    written out; the model takes them as given:
    - [int s] is [int(s)], [None] where it raises [ValueError];
    - [strip s] is [s.strip()], [len s] is [len(s)], [repr s] is
      [repr(s)];
    - [character_errors s] are the messages of the validators the
      framework adds to every character field (null characters, and
      surrogates in later versions), none for a string they accept;
    - [base64_image s] is the file [Base64ImageField] makes of a base64
      string, given by the name under which it is then stored (a name the
      library generates, under the [upload_to] directory of the model
      field), [None] when the string is not a base64 image. *)
Record Platform := mkPlatform {
  int : string → option Z;
  strip : string → string;
  len : string → Z;
  repr : string → string;
  character_errors : string → list string;
  base64_image : string → option string
}.

(** ** api/serializers.py: the fields *)

Definition quote : string := String (Ascii.ascii_of_nat 34) "".

(** [to_internal_value] keeps the detail of every field that raised
    [ValidationError] and raises once at the end. *)
Definition collect {A} (q : Q A) : Q (list string + A) := λ db,
  match q db with
  | Return a => Return (inr a)
  | Raise (ValidationError detail) => Return (inl detail)
  | Raise e => Raise e
  end.

Definition errors {A} (r : list string + A) : list string :=
  match r with
  | inl detail => detail
  | inr _ => []
  end.

(** [PrimaryKeyRelatedField(queryset=...)]: the key is looked up, and a
    key without a row is the field's [does_not_exist] error. *)
Definition PrimaryKeyRelatedField {A} (pk : A → Z) (queryset : DB → list A)
    (data : Z) : Q A :=
  try_except (get (λ row, pk row = data) queryset) DoesNotExist
    (raise (ValidationError
       ["Invalid pk " +:+ quote +:+ pretty data +:+ quote
        +:+ " - object does not exist."])).

Definition MinValueValidator (limit_value value : Z) : Q Z :=
  if decide (value < limit_value)
  then raise (ValidationError
         ["Ensure this value is greater than or equal to "
          +:+ pretty limit_value +:+ "."])
  else mret value.

(** [many=True] on a related field: a list comprehension over the keys. *)
Fixpoint ManyRelatedField {A} (child_relation : Z → Q A) (data : list Z)
    : Q (list A) :=
  match data with
  | [] => mret []
  | item :: rest =>
      obj ← child_relation item;
      objs ← ManyRelatedField child_relation rest;
      mret (obj :: objs)
  end.

(** [many=True] on a serializer: every item is validated, the errors of
    all of them are kept. *)
Fixpoint ListSerializer {A B} (child : A → Q B) (data : list A)
    : Q (list B) :=
  match data with
  | [] => mret []
  | item :: rest =>
      validated ← collect (child item);
      others ← collect (ListSerializer child rest);
      match validated, others with
      | inr v, inr vs => mret (v :: vs)
      | _, _ => raise (ValidationError (errors validated ++ errors others))
      end
  end.

(** One entry of the [ingredients] list of a payload. *)
Module IngredientItem.
Record t := mk {
  id : Z;
  amount : Z
}.
End IngredientItem.

(** The same entry once validated: the [OrderedDict] with the keys
    ['ingredient'] and ['amount']. *)
Module IngredientData.
Record t := mk {
  ingredient : Ingredient.t;
  amount : Z
}.
End IngredientData.

Definition IngredientRecipeSerializer (data : IngredientItem.t)
    : Q IngredientData.t :=
  id ← collect (PrimaryKeyRelatedField Ingredient.id ingredients
                  (IngredientItem.id data));
  amount ← collect (MinValueValidator 1 (IngredientItem.amount data));
  match id, amount with
  | inr ingredient, inr amount => mret (IngredientData.mk ingredient amount)
  | _, _ => raise (ValidationError (errors id ++ errors amount))
  end.

(** ** CustomUserSerializer *)

Module UserRepresentation.
Record t := mk {
  email : string;
  id : Z;
  username : string;
  first_name : string;
  last_name : string;
  is_subscribed : bool
}.
End UserRepresentation.

Definition get_is_subscribed (db : DB) (request : Request)
    (obj : CustomUser.t) : bool :=
  match request_user request with
  | Some follower =>
      exists_ (λ row, Subscribe.author row = CustomUser.id obj
                      ∧ Subscribe.follower row = CustomUser.id follower)
        (subscribes db)
  | None => false
  end.

Definition CustomUserSerializer (db : DB) (request : Request)
    (obj : CustomUser.t) : UserRepresentation.t :=
  UserRepresentation.mk (CustomUser.email obj) (CustomUser.id obj)
    (CustomUser.username obj) (CustomUser.first_name obj)
    (CustomUser.last_name obj) (get_is_subscribed db request obj).

(** ** RecipeSerializer *)

Definition MIN_COOKING_TIME : Z := 1.

Definition get_is_favorited (db : DB) (request : Request) (obj : Recipe.t)
    : bool :=
  match request_user request with
  | Some user =>
      exists_ (λ row, Membership.user row = CustomUser.id user)
        (filter (λ row, Membership.recipe row = Recipe.id obj)
           (favorites db))
  | None => false
  end.

Definition get_is_in_shopping_cart (db : DB) (request : Request)
    (obj : Recipe.t) : bool :=
  match request_user request with
  | Some user =>
      exists_ (λ row, Membership.user row = CustomUser.id user)
        (filter (λ row, Membership.recipe row = Recipe.id obj)
           (shopping_carts db))
  | None => false
  end.

(** The methods of this file raise [ValidationError] on a set of one
    string: the detail is the text of that set, the string as [repr]
    writes it, between braces.  For a string without quote or backslash
    that is the string between single quotes. *)

(** The set [existing_datas] holds tags; they hash and compare by primary
    key.  [str(tag)] is its name. *)
Fixpoint validate_tags_loop (platform : Platform) (tags_data : list Tag.t)
    (existing_datas : gset Z) : result () :=
  match tags_data with
  | [] => Return ()
  | field_data :: rest =>
      if decide (Tag.id field_data ∈ existing_datas)
      then Raise (ValidationError
             ["{" +:+ repr platform (Tag.name field_data +:+ " дублируется.")
              +:+ "}"])
      else validate_tags_loop platform rest
             ({[Tag.id field_data]} ∪ existing_datas)
  end.

Definition validate_tags (platform : Platform) (value : list Tag.t)
    : result (list Tag.t) :=
  match value with
  | [] => Raise (ValidationError ["{'Поле Tags пустое.'}"])
  | _ =>
      match validate_tags_loop platform value ∅ with
      | Return _ => Return value
      | Raise e => Raise e
      end
  end.

Definition validate_image (value : option string) : result string :=
  match value with
  | None => Raise (ValidationError ["{'Поле Image пустое.'}"])
  | Some image => Return image
  end.

Definition validate_cooking_time (value : Z) : result Z :=
  if decide (value < MIN_COOKING_TIME)
  then Raise (ValidationError ["{'Поле Cooking_time меньше 1.'}"])
  else Return value.

Definition nonexistent_ingredient (ingredient_id : Z) : exn :=
  ValidationError
    ["{'Несуществующий ингредиент с id " +:+ pretty ingredient_id +:+ "'}"].

Definition duplicate_ingredient (ingredient_id : Z) : exn :=
  ValidationError
    ["{'Ингредиент с id " +:+ pretty ingredient_id +:+ " дублируется.'}"].

Fixpoint validate_ingredients_loop (ingredients_data : list IngredientData.t)
    (existing_ingredients_id : gset Z)
    (ingredient_list : list IngredientData.t) : Q (list IngredientData.t) :=
  match ingredients_data with
  | [] => mret ingredient_list
  | ingredient_data :: rest =>
      let ingredient_id :=
        Ingredient.id (IngredientData.ingredient ingredient_data) in
      let amount := IngredientData.amount ingredient_data in
      ingredient ←
        try_except
          (get (λ row, Ingredient.id row = ingredient_id) ingredients)
          DoesNotExist
          (raise (nonexistent_ingredient ingredient_id));
      if decide (ingredient_id ∈ existing_ingredients_id)
      then raise (duplicate_ingredient ingredient_id)
      else if decide (amount < 1)
      then raise (ValidationError ["{'Поле amount меньше 1.'}"])
      else
        validate_ingredients_loop rest
          ({[ingredient_id]} ∪ existing_ingredients_id)
          (ingredient_list ++ [IngredientData.mk ingredient amount])
  end.

Definition validate_ingredients (value : list IngredientData.t)
    : Q (list IngredientData.t) :=
  match value with
  | [] => raise (ValidationError ["{'Поле Ingredients пустое.'}"])
  | _ => validate_ingredients_loop value ∅ []
  end.

(** The payload of a recipe write, and what validation makes of it.  The
    image of a payload is a string, or [None] for null; the image of the
    validated data is the uploaded file, given by the name under which it
    is stored. *)
Module RecipePayload.
Record t := mk {
  tags : list Z;
  ingredients : list IngredientItem.t;
  name : string;
  image : option string;
  text : string;
  cooking_time : Z
}.
End RecipePayload.

Module ValidatedData.
Record t := mk {
  tags : list Tag.t;
  ingredientrecipe_set : list IngredientData.t;
  name : string;
  image : string;
  text : string;
  cooking_time : Z
}.
End ValidatedData.

(** A validator of a field gives the messages of its failure, none when
    the value passes; several validators of a field all run, their
    messages are kept in order. *)
Fixpoint validator_messages {A} (validators : list (A → Q (list string)))
    (value : A) : Q (list string) :=
  match validators with
  | [] => mret []
  | validator :: rest =>
      messages ← validator value;
      others ← validator_messages rest value;
      mret (messages ++ others)
  end.

Definition run_validators {A} (validators : list (A → Q (list string)))
    (value : A) : Q A :=
  detail ← validator_messages validators value;
  match detail with
  | [] => mret value
  | _ => raise (ValidationError detail)
  end.

(** [Recipe.name] is declared [unique=True]: the model serializer checks
    the value against the other recipes. *)
Definition UniqueValidator (instance : option Recipe.t) (value : string)
    : Q (list string) := λ db,
  let queryset :=
    match instance with
    | Some obj => filter (λ r, Recipe.id r ≠ Recipe.id obj) (recipes db)
    | None => recipes db
    end in
  if exists_ (λ r, Recipe.name r = value) queryset
  then Return ["recipe with this name already exists."]
  else Return [].

Definition MaxLengthValidator (platform : Platform) (limit_value : Z)
    (value : string) : Q (list string) :=
  if decide (limit_value < len platform value)
  then mret ["Ensure this field has no more than " +:+ pretty limit_value
             +:+ " characters."]
  else mret [].

(** The validators the framework adds to every character field. *)
Definition character_validators (platform : Platform) (value : string)
    : Q (list string) :=
  mret (character_errors platform value).

(** [CharField]: a string that is empty, or empty once stripped, is
    refused as blank; the stripped string goes through the validators and
    is the value of the field. *)
Definition CharField (platform : Platform)
    (validators : list (string → Q (list string))) (data : string)
    : Q string :=
  if decide (data = "" ∨ strip platform data = "")
  then raise (ValidationError ["This field may not be blank."])
  else run_validators validators (strip platform data).

(** The field the model serializer builds for [Recipe.name]
    ([max_length=200], [unique=True]) and for [Recipe.text]. *)
Definition name_field (platform : Platform) (instance : option Recipe.t)
    : string → Q string :=
  CharField platform
    [UniqueValidator instance; MaxLengthValidator platform 200;
     character_validators platform].

Definition text_field (platform : Platform) : string → Q string :=
  CharField platform [character_validators platform].

(** [Base64ImageField]: null is refused, an empty string is no file, and
    any other string has to be a base64 image.  The three messages of the
    library for a string that is not one are not told apart. *)
Definition Base64ImageField (platform : Platform) (data : option string)
    : Q (option string) :=
  match data with
  | None => raise (ValidationError ["This field may not be null."])
  | Some base64_data =>
      if decide (base64_data = "")
      then mret None
      else
        match base64_image platform base64_data with
        | Some file => mret (Some file)
        | None => raise (ValidationError ["Please upload a valid file."])
        end
  end.

(** A writable field is converted, then handed to its [validate_<field>]
    method. *)
Definition tags_field (platform : Platform) (data : list Z)
    : Q (list Tag.t) :=
  value ← ManyRelatedField (PrimaryKeyRelatedField Tag.id tags) data;
  pure (validate_tags platform value).

Definition ingredients_field (data : list IngredientItem.t)
    : Q (list IngredientData.t) :=
  value ← ListSerializer IngredientRecipeSerializer data;
  validate_ingredients value.

Definition image_field (platform : Platform) (data : option string)
    : Q string :=
  value ← Base64ImageField platform data;
  pure (validate_image value).

Definition cooking_time_field (data : Z) : Q Z :=
  pure (validate_cooking_time data).

(** [is_valid]: every writable field is run, in the order of
    [Meta.fields], and the errors of all of them are gathered.  The
    validators that the database backend adds to an integer column (the
    range of the column) are left out. *)
Definition RecipeSerializer_run_validation (platform : Platform)
    (instance : option Recipe.t) (data : RecipePayload.t)
    : Q ValidatedData.t :=
  tags ← collect (tags_field platform (RecipePayload.tags data));
  ingredients ← collect (ingredients_field (RecipePayload.ingredients data));
  name ← collect (name_field platform instance (RecipePayload.name data));
  image ← collect (image_field platform (RecipePayload.image data));
  text ← collect (text_field platform (RecipePayload.text data));
  cooking_time ←
    collect (cooking_time_field (RecipePayload.cooking_time data));
  match tags, ingredients, name, image, text, cooking_time with
  | inr tags, inr ingredients, inr name, inr image, inr text,
    inr cooking_time =>
      mret (ValidatedData.mk tags ingredients name image text cooking_time)
  | _, _, _, _, _, _ =>
      raise (ValidationError (errors tags ++ errors ingredients
                              ++ errors name ++ errors image
                              ++ errors text ++ errors cooking_time))
  end.

(** The rows [ingredient_recipe_list] builds, one per validated entry,
    and the method itself, which hands them to [bulk_create]. *)
Definition ingredient_recipe_rows (ingredients_data : list IngredientData.t)
    (recipe : Recipe.t) : list IngredientRecipe.t :=
  (λ ingredient_data,
     IngredientRecipe.mk (Recipe.id recipe)
       (Ingredient.id (IngredientData.ingredient ingredient_data))
       (IngredientData.amount ingredient_data))
  <$> ingredients_data.

Definition ingredient_recipe_list (ingredients_data : list IngredientData.t)
    (recipe : Recipe.t) : M () :=
  IngredientRecipe_objects_bulk_create
    (ingredient_recipe_rows ingredients_data recipe).

(** The body of [create].  The author is the user of the request when the
    context has one; a recipe row cannot take [AnonymousUser]. *)
Definition create_body (request : option Request)
    (validated_data : ValidatedData.t) : M Recipe.t :=
  let tags_data := ValidatedData.tags validated_data in
  let ingredients_data := ValidatedData.ingredientrecipe_set validated_data in
  author_data ←
    match request with
    | None => mret None
    | Some request =>
        match request_user request with
        | Some user => mret (Some (CustomUser.id user))
        | None => query (raise ValueError)
        end
    end;
  recipe ← Recipe_objects_create author_data
             (ValidatedData.name validated_data)
             (ValidatedData.image validated_data)
             (ValidatedData.text validated_data)
             (ValidatedData.cooking_time validated_data);
  tags_set recipe tags_data;;
  ingredient_recipe_list ingredients_data recipe;;
  mret recipe.

Definition RecipeSerializer_create (request : option Request)
    (validated_data : ValidatedData.t) : M Recipe.t :=
  atomic (create_body request validated_data).

(** The body of [update]; [super().update] sets the plain columns on the
    instance and saves it. *)
Definition update_body (instance : Recipe.t)
    (validated_data : ValidatedData.t) : M Recipe.t :=
  let tags_data := ValidatedData.tags validated_data in
  let ingredients_data := ValidatedData.ingredientrecipe_set validated_data in
  let updated_recipe :=
    Recipe.mk (Recipe.id instance)
      (ValidatedData.name validated_data)
      (ValidatedData.image validated_data)
      (ValidatedData.text validated_data)
      (ValidatedData.cooking_time validated_data)
      (Recipe.author instance) in
  Recipe_save updated_recipe;;
  tags_clear updated_recipe;;
  tags_set updated_recipe tags_data;;
  ingredients_clear updated_recipe;;
  ingredient_recipe_list ingredients_data updated_recipe;;
  mret updated_recipe.

Definition RecipeSerializer_update (instance : Recipe.t)
    (validated_data : ValidatedData.t) : M Recipe.t :=
  atomic (update_body instance validated_data).

(** ** RecipeMinifiedSerializer and SubscribeSerializer *)

Definition membership_of (recipe : Recipe.t) (user : CustomUser.t)
    (row : Membership.t) : Prop :=
  Membership.recipe row = Recipe.id recipe
  ∧ Membership.user row = CustomUser.id user.

#[global] Instance membership_of_dec recipe user row :
  Decision (membership_of recipe user row).
Proof. unfold membership_of. apply _. Defined.

Definition subscription_of (author follower : CustomUser.t)
    (row : Subscribe.t) : Prop :=
  Subscribe.author row = CustomUser.id author
  ∧ Subscribe.follower row = CustomUser.id follower.

#[global] Instance subscription_of_dec author follower row :
  Decision (subscription_of author follower row).
Proof. unfold subscription_of. apply _. Defined.

Definition already_member : exn :=
  ValidationError ["{'Рецепт уже в корзине/избранном.'}"].

Definition not_a_member : exn :=
  ValidationError ["{'Такого рецепта нет в корзине/избранном.'}"].

Definition RecipeMinifiedSerializer_validate (request : Request)
    (recipe : Recipe.t) (user : CustomUser.t) (model : MembershipModel)
    : Q () :=
  if decide (request_method request = POST)
  then
    λ db, if exists_ (membership_of recipe user) (objects model db)
          then Raise already_member
          else Return ()
  else
    try_except
      (get (membership_of recipe user) (objects model);; mret ())
      DoesNotExist
      (raise not_a_member).

Definition already_subscribed : exn :=
  ValidationError ["{'Вы уже подписаны.'}"].

Definition self_subscription : exn :=
  ValidationError ["{'Нельзя подписаться на себя.'}"].

Definition no_subscription : exn :=
  ValidationError ["{'Несуществующая подписка.'}"].

(** Two model instances are equal when their primary keys are. *)
Definition SubscribeSerializer_validate (request : Request)
    (author follower : CustomUser.t) : Q () :=
  if decide (request_method request = POST)
  then
    λ db, if exists_ (subscription_of author follower) (subscribes db)
          then Raise already_subscribed
          else if decide (CustomUser.id author = CustomUser.id follower)
          then Raise self_subscription
          else Return ()
  else
    try_except
      (get (subscription_of author follower) subscribes;; mret ())
      DoesNotExist
      (raise no_subscription).

(** ** The read side of [RecipeMinifiedSerializer] and [SubscribeSerializer] *)

(** What a file field shows: null for a column without a file, else the
    URL the storage gives to the stored name ([value.url]), made absolute
    with [request.build_absolute_uri] when the serializer has the request
    in its context.  The URL depends on the storage and on the host; it is
    kept symbolic. *)
Inductive FileRepresentation :=
  | url (name : string)
  | build_absolute_uri (name : string).

Definition FileField_to_representation (request : option Request)
    (value : string) : option FileRepresentation :=
  if decide (value = "") then None
  else
    match request with
    | Some _ => Some (build_absolute_uri value)
    | None => Some (url value)
    end.

(** What [RecipeMinifiedSerializer] shows of a recipe; [request] is the
    one of its context, if it has one. *)
Module MinifiedRepresentation.
Record t := mk {
  id : Z;
  image : option FileRepresentation;
  name : string;
  cooking_time : Z
}.
End MinifiedRepresentation.

Definition RecipeMinifiedSerializer (request : option Request)
    (obj : Recipe.t) : MinifiedRepresentation.t :=
  MinifiedRepresentation.mk (Recipe.id obj)
    (FileField_to_representation request (Recipe.image obj))
    (Recipe.name obj) (Recipe.cooking_time obj).

(** [obj.recipe_set]: the recipes whose author is the user. *)
Definition recipe_set (db : DB) (obj : CustomUser.t) : list Recipe.t :=
  filter (λ r, Recipe.author r = Some (CustomUser.id obj)) (recipes db).

Definition get_recipes_count (db : DB) (obj : CustomUser.t) : nat :=
  length (recipe_set db obj).

(** [get_recipes].  [recipes_limit] is the query parameter, a string or
    [None]; an empty string counts as absent.  Python's [int] is taken as
    a parameter ([None] where it raises [ValueError]); a query set refuses
    a negative bound.  The nested serializer is built without a context. *)
Definition get_recipes (int : string → option Z) (db : DB)
    (recipes_limit : option string) (obj : CustomUser.t)
    : result (list MinifiedRepresentation.t) :=
  let queryset := recipe_set db obj in
  match recipes_limit with
  | None => Return (RecipeMinifiedSerializer None <$> queryset)
  | Some limit =>
      if decide (limit = "")
      then Return (RecipeMinifiedSerializer None <$> queryset)
      else
        match int limit with
        | None => Raise ValueError
        | Some n =>
            if decide (n < 0)
            then Raise ValueError
            else Return (RecipeMinifiedSerializer None
                         <$> take (Z.to_nat n) queryset)
        end
  end.

Module SubscribeRepresentation.
Record t := mk {
  email : string;
  id : Z;
  username : string;
  first_name : string;
  last_name : string;
  is_subscribed : bool;
  recipes : list MinifiedRepresentation.t;
  recipes_count : nat
}.
End SubscribeRepresentation.

(** [SubscribeSerializer(obj).data], the read side of the serializer. *)
Definition SubscribeSerializer (int : string → option Z) (db : DB)
    (request : Request) (recipes_limit : option string) (obj : CustomUser.t)
    : result SubscribeRepresentation.t :=
  match get_recipes int db recipes_limit obj with
  | Return recipes =>
      Return (SubscribeRepresentation.mk (CustomUser.email obj)
                (CustomUser.id obj) (CustomUser.username obj)
                (CustomUser.first_name obj) (CustomUser.last_name obj)
                (get_is_subscribed db request obj) recipes
                (get_recipes_count db obj))
  | Raise e => Raise e
  end.

(** ** api/views.py

    An action answers with a status code.  The permission classes of
    [RecipeViewSet] (api/permissions.py) run before its actions and are
    not part of them: what update and destroy answer is stated for the
    requests of the author of the recipe, whom they let through. *)

(** [serializer.data] of the [SubscribeSerializer] of an author, as the
    response of a POST reads it once the row is written. *)
Definition serializer_data (platform : Platform) (request : Request)
    (recipes_limit : option string) (author : CustomUser.t)
    : Q SubscribeRepresentation.t := λ db,
  SubscribeSerializer (int platform) db request recipes_limit author.

(** [CustomUserViewSet.subscribe], an action for POST and DELETE behind
    [IsAuthenticated]. *)
Definition subscribe (platform : Platform) (request : Request) (id : Z)
    : M Z :=
  if decide (request_method request ≠ POST ∧ request_method request ≠ DELETE)
  then query (raise MethodNotAllowed)
  else
    match request_user request with
    | None => query (raise NotAuthenticated)
    | Some follower =>
        author ← query (get_object_or_404 (λ u, CustomUser.id u = id) users);
        let recipes_limit := request_GET request !! "recipes_limit" in
        query (SubscribeSerializer_validate request author follower);;
        if decide (request_method request = POST)
        then
          Subscribe_objects_create (CustomUser.id author)
            (CustomUser.id follower);;
          query (serializer_data platform request recipes_limit author);;
          mret 201
        else
          subscription ←
            query (get (subscription_of author follower) subscribes);
          Subscribe_delete subscription;;
          mret 204
    end.

Definition add_obj (model : MembershipModel) (recipe : Recipe.t)
    (user : CustomUser.t) : M () :=
  Membership_objects_create model (Recipe.id recipe) (CustomUser.id user);;
  mret ().

Definition del_obj (model : MembershipModel) (recipe : Recipe.t)
    (user : CustomUser.t) : M () :=
  obj ← query (get (membership_of recipe user) (objects model));
  Membership_delete model obj.

(** The lookup of a membership for [AnonymousUser] is a [TypeError]. *)
Definition serialize_obj (model : MembershipModel) (request : Request)
    (pk : Z) : M (Recipe.t * CustomUser.t) :=
  recipe ← query (get_object_or_404 (λ r, Recipe.id r = pk) recipes);
  match request_user request with
  | None => query (raise TypeError)
  | Some user =>
      query (RecipeMinifiedSerializer_validate request recipe user model);;
      mret (recipe, user)
  end.

(** [shopping_cart] and [favorite] are the same action on two models. *)
Definition membership_action (model : MembershipModel) (request : Request)
    (pk : Z) : M Z :=
  if decide (request_method request ≠ POST ∧ request_method request ≠ DELETE)
  then query (raise MethodNotAllowed)
  else
    '(recipe, user) ← serialize_obj model request pk;
    if decide (request_method request = POST)
    then add_obj model recipe user;; mret 201
    else del_obj model recipe user;; mret 204.

Definition shopping_cart : Request → Z → M Z := membership_action ShoppingCart.

Definition favorite : Request → Z → M Z := membership_action Favorite.

(** The create and update actions of the model view set: validate, then
    save. *)
Definition RecipeViewSet_create (platform : Platform) (request : Request)
    (data : RecipePayload.t) : M Z :=
  validated_data ← query (RecipeSerializer_run_validation platform None data);
  RecipeSerializer_create (Some request) validated_data;;
  mret 201.

Definition RecipeViewSet_update (platform : Platform) (request : Request)
    (pk : Z) (data : RecipePayload.t) : M Z :=
  instance ← query (get_object_or_404 (λ r, Recipe.id r = pk) recipes);
  validated_data ←
    query (RecipeSerializer_run_validation platform (Some instance) data);
  RecipeSerializer_update instance validated_data;;
  mret 200.

(** Deleting a recipe takes along every row that points at it
    ([on_delete=CASCADE]). *)
Definition Recipe_delete (obj : Recipe.t) : M () :=
  let pk := Recipe.id obj in
  write (λ db,
    mkDB (users db) (tags db) (ingredients db)
      (filter (λ r, Recipe.id r ≠ pk) (recipes db))
      (filter (λ link, link.1 ≠ pk) (recipe_tags db))
      (filter (λ row, IngredientRecipe.recipe row ≠ pk)
         (ingredientrecipes db))
      (filter (λ row, Membership.recipe row ≠ pk) (favorites db))
      (filter (λ row, Membership.recipe row ≠ pk) (shopping_carts db))
      (subscribes db)).

Definition RecipeViewSet_destroy (request : Request) (pk : Z) : M Z :=
  instance ← query (get_object_or_404 (λ r, Recipe.id r = pk) recipes);
  Recipe_delete instance;;
  mret 204.

(** What the client sees: the status of the response, or the one the
    exception handler gives to the exception. *)
Definition status_of (e : exn) : Z :=
  match e with
  | ValidationError _ => 400
  | NotAuthenticated => 401
  | Http404 => 404
  | MethodNotAllowed => 405
  | _ => 500
  end.

Definition respond (action : M Z) (db : DB) : DB * Z :=
  match action db with
  | (db', Return status) => (db', status)
  | (db', Raise e) => (db', status_of e)
  end.

(** *** The shopping list *)

(** One row of [.values('ingredient__name',
    'ingredient__measurement_unit').annotate(total_amount=Sum('amount'))]. *)
Module CartLine.
Record t := mk {
  ingredient__name : string;
  ingredient__measurement_unit : string;
  total_amount : Z
}.
#[global] Instance eq_dec : EqDecision t.
Proof. solve_decision. Defined.
Definition key (line : t) : string * string :=
  (ingredient__name line, ingredient__measurement_unit line).
End CartLine.

(** The rows the query joins before it groups them: a join row, a cart
    row of the user for the same recipe, and the ingredient of the join
    row; each carries the two grouping columns and the amount. *)
Definition joined_rows (db : DB) (user : CustomUser.t) : list CartLine.t :=
  row ← ingredientrecipes db;
  cart ← filter (λ cart, Membership.recipe cart = IngredientRecipe.recipe row
                         ∧ Membership.user cart = CustomUser.id user)
           (shopping_carts db);
  ingredient ← filter (λ i, Ingredient.id i = IngredientRecipe.ingredient row)
                 (ingredients db);
  [CartLine.mk (Ingredient.name ingredient)
     (Ingredient.measurement_unit ingredient)
     (IngredientRecipe.amount row)].

(** GROUP BY with SUM: the groups with their sums, before the engine
    puts them in the order in which it returns them. *)
Fixpoint add_to_group (row : CartLine.t) (groups : list CartLine.t)
    : list CartLine.t :=
  match groups with
  | [] => [row]
  | group :: rest =>
      if decide (CartLine.key group = CartLine.key row)
      then CartLine.mk (CartLine.ingredient__name group)
             (CartLine.ingredient__measurement_unit group)
             (CartLine.total_amount group + CartLine.total_amount row)
           :: rest
      else group :: add_to_group row rest
  end.

Definition group_by_sum (rows : list CartLine.t) : list CartLine.t :=
  foldl (λ groups row, add_to_group row groups) [] rows.

(** The query has no ORDER BY: the order in which the groups come back
    is the database engine's.  It is taken as given; all that is known of
    it is that the engine returns the groups, each once. *)
Record Engine := mkEngine {
  group_order : list CartLine.t → list CartLine.t;
  group_order_permutes : ∀ groups, group_order groups ≡ₚ groups
}.

Definition ingredients_queryset (engine : Engine) (db : DB)
    (user : CustomUser.t) : list CartLine.t :=
  group_order engine (group_by_sum (joined_rows db user)).

Definition newline : string := String (Ascii.ascii_of_nat 10) "".

Definition shopping_cart_line (index : nat) (ingredient : CartLine.t)
    : string :=
  pretty (Z.of_nat index + 1) +:+ ". "
  +:+ CartLine.ingredient__name ingredient +:+ ":"
  +:+ " " +:+ pretty (CartLine.total_amount ingredient)
  +:+ " " +:+ CartLine.ingredient__measurement_unit ingredient.

Definition shopping_cart_header : string :=
  "Список покупок: " +:+ newline +:+ newline.

Definition generate_shopping_cart (engine : Engine) (db : DB)
    (user : CustomUser.t) : string :=
  shopping_cart_header
  +:+ String.concat newline
        (imap shopping_cart_line (ingredients_queryset engine db user)).

(** ** api/management/commands *)

Module IngredientRecord.
Record t := mk {
  name : string;
  measurement_unit : string
}.
End IngredientRecord.

Module TagRecord.
Record t := mk {
  name : string;
  color : option string;
  slug : option string
}.
End TagRecord.

(** [str(None)] is [None]. *)
Definition str_option (value : option string) : string :=
  match value with
  | Some s => s
  | None => "None"
  end.

(** The two lines load_ingredients.py writes to [stdout]. *)
Definition ingredient_added (name : string) : string :=
  "Ингредиент " +:+ quote +:+ name +:+ quote +:+ " успешно добавлен!".

Definition ingredient_skipped (name : string) : string :=
  "Ингредиент " +:+ quote +:+ name +:+ quote
  +:+ " уже был добавлен ранее." +:+ "Пропуск.".

(** load_ingredients.py: one turn of the loop, with what it writes. *)
Definition load_ingredient (ingredient_data : IngredientRecord.t)
    : M string :=
  let name := IngredientRecord.name ingredient_data in
  found ← query (λ db,
    Return (exists_ (λ i, Ingredient.name i = name) (ingredients db)));
  if negb found
  then
    Ingredient_objects_create name
      (IngredientRecord.measurement_unit ingredient_data);;
    mret (ingredient_added name)
  else
    mret (ingredient_skipped name).

(** The two lines load_tags.py writes to [stdout]. *)
Definition tag_added (slug : option string) : string :=
  "Тег " +:+ quote +:+ str_option slug +:+ quote +:+ " успешно добавлен!".

Definition tag_skipped (slug : option string) : string :=
  "Тег " +:+ quote +:+ str_option slug +:+ quote
  +:+ " уже был добавлен ранее. Пропуск.".

(** load_tags.py: one turn of the loop.  [filter(slug=None)] asks for the
    rows whose slug is NULL. *)
Definition load_tag (tag_data : TagRecord.t) : M string :=
  let slug := TagRecord.slug tag_data in
  found ← query (λ db,
    Return (exists_ (λ t, Tag.slug t = slug) (tags db)));
  if negb found
  then
    Tag_objects_create (TagRecord.name tag_data) (TagRecord.color tag_data)
      slug;;
    mret (tag_added slug)
  else
    mret (tag_skipped slug).

(** The loop of a [handle] and its last line. *)
Fixpoint for_each {A} (body : A → M string) (items : list A)
    : M (list string) :=
  match items with
  | [] => mret []
  | item :: rest =>
      line ← body item;
      lines ← for_each body rest;
      mret (line :: lines)
  end.

Definition handle {A} (body : A → M string) (data : list A)
    : M (list string) :=
  lines ← for_each body data;
  mret (lines ++ ["Загрузка выполнена!"]).

Definition load_ingredients_handle
    : list IngredientRecord.t → M (list string) :=
  handle load_ingredient.

Definition load_tags_handle : list TagRecord.t → M (list string) :=
  handle load_tag.

(** ** The constraints of models.py and the reachable states *)

Record unique_constraints (db : DB) : Prop := {
  unique_ingredientrecipe :
    NoDup (IngredientRecipe.key <$> ingredientrecipes db);
  unique_favorite : NoDup (favorites db);
  unique_shoping_cart : NoDup (shopping_carts db);
  unique_subscribe : NoDup (subscribes db)
}.

(** Everything that writes to the database. *)
Inductive Operation :=
  | CreateRecipe (request : Request) (data : RecipePayload.t)
  | UpdateRecipe (request : Request) (pk : Z) (data : RecipePayload.t)
  | DestroyRecipe (request : Request) (pk : Z)
  | ToggleShoppingCart (request : Request) (pk : Z)
  | ToggleFavorite (request : Request) (pk : Z)
  | ToggleSubscribe (request : Request) (id : Z)
  | LoadIngredients (data : list IngredientRecord.t)
  | LoadTags (data : list TagRecord.t).

Definition run (platform : Platform) (op : Operation) (db : DB) : DB :=
  match op with
  | CreateRecipe request data =>
      (RecipeViewSet_create platform request data db).1
  | UpdateRecipe request pk data =>
      (RecipeViewSet_update platform request pk data db).1
  | DestroyRecipe request pk => (RecipeViewSet_destroy request pk db).1
  | ToggleShoppingCart request pk => (shopping_cart request pk db).1
  | ToggleFavorite request pk => (favorite request pk db).1
  | ToggleSubscribe request id => (subscribe platform request id db).1
  | LoadIngredients data => (load_ingredients_handle data db).1
  | LoadTags data => (load_tags_handle data db).1
  end.

(** A state to start from has users and reference data, and no join,
    membership or subscription row yet. *)
Definition initial (db : DB) : Prop :=
  ingredientrecipes db = [] ∧ favorites db = []
  ∧ shopping_carts db = [] ∧ subscribes db = [].

Inductive reachable (platform : Platform) : DB → Prop :=
  | reachable_initial db : initial db → reachable platform db
  | reachable_run op db :
      reachable platform db → reachable platform (run platform op db).

(** ** The listing of subscriptions and [me] *)

(** [CustomUser.objects.filter(authors__follower=user)]: the users joined
    with the subscriptions in which they are the author and [user] the
    follower. *)
Definition subscriptions_queryset (db : DB) (user : CustomUser.t)
    : list CustomUser.t :=
  author ← users db;
  _ ← filter (subscription_of author user) (subscribes db);
  [author].

(** [CustomUserViewSet.me], behind [IsAuthenticated]. *)
Definition me (request : Request) : Q UserRepresentation.t := λ db,
  match request_user request with
  | None => Raise NotAuthenticated
  | Some user => Return (CustomUserSerializer db request user)
  end.

(** ** The read side of [RecipeSerializer] *)

Module TagRepresentation.
Record t := mk {
  id : Z;
  name : string;
  color : option string;
  slug : option string
}.
End TagRepresentation.

Definition TagSerializer (obj : Tag.t) : TagRepresentation.t :=
  TagRepresentation.mk (Tag.id obj) (Tag.name obj) (Tag.color obj)
    (Tag.slug obj).

(** A field whose source goes through a foreign key ([ingredient.name],
    [author]) is shown as null when the row it points at is missing: the
    framework catches [DoesNotExist] while it reads the attribute. *)
Definition get_attribute {A} (P : A → Prop) `{∀ x, Decision (P x)}
    (table : DB → list A) : Q (option A) :=
  try_except (obj ← get P table; mret (Some obj)) DoesNotExist (mret None).

(** [IngredientRecipeSerializer] on a join row: [id] is the key stored in
    the row, [name] and [measurement_unit] are read through it. *)
Module IngredientRecipeRepresentation.
Record t := mk {
  id : Z;
  name : option string;
  measurement_unit : option string;
  amount : Z
}.
End IngredientRecipeRepresentation.

Definition IngredientRecipeSerializer_to_representation
    (instance : IngredientRecipe.t) : Q IngredientRecipeRepresentation.t :=
  ingredient ←
    get_attribute
      (λ row, Ingredient.id row = IngredientRecipe.ingredient instance)
      ingredients;
  mret (IngredientRecipeRepresentation.mk
          (IngredientRecipe.ingredient instance)
          (Ingredient.name <$> ingredient)
          (Ingredient.measurement_unit <$> ingredient)
          (IngredientRecipe.amount instance)).

(** A serializer with [many=True] on the read side. *)
Fixpoint to_representation_many {A B} (child : A → Q B) (data : list A)
    : Q (list B) :=
  match data with
  | [] => mret []
  | item :: data =>
      representation ← child item;
      others ← to_representation_many child data;
      mret (representation :: others)
  end.

Module RecipeRepresentation.
Record t := mk {
  id : Z;
  tags : list TagRepresentation.t;
  author : option UserRepresentation.t;
  ingredients : list IngredientRecipeRepresentation.t;
  is_favorited : bool;
  is_in_shopping_cart : bool;
  name : string;
  image : option FileRepresentation;
  text : string;
  cooking_time : Z
}.
End RecipeRepresentation.

(** [instance.tags.all()] and [instance.ingredientrecipe_set.all()]. *)
Definition tags_all (db : DB) (instance : Recipe.t) : list Tag.t :=
  filter (λ tag, (Recipe.id instance, Tag.id tag) ∈ recipe_tags db) (tags db).

Definition ingredientrecipe_set (db : DB) (instance : Recipe.t)
    : list IngredientRecipe.t :=
  filter (λ row, IngredientRecipe.recipe row = Recipe.id instance)
    (ingredientrecipes db).

(** [instance.author] as the [author] field reads it; the column is
    nullable. *)
Definition Recipe_author (instance : Recipe.t) : Q (option CustomUser.t) :=
  match Recipe.author instance with
  | None => mret None
  | Some pk => get_attribute (λ u, CustomUser.id u = pk) users
  end.

(** [RecipeSerializer.to_representation]: the fields in the order of
    [Meta.fields], with [tags] then replaced by the serialized tags.  The
    view puts the request into the context of the serializer. *)
Definition RecipeSerializer_to_representation (request : Request)
    (instance : Recipe.t) : Q RecipeRepresentation.t := λ db,
  match Recipe_author instance db with
  | Raise e => Raise e
  | Return author =>
      match to_representation_many
              IngredientRecipeSerializer_to_representation
              (ingredientrecipe_set db instance) db with
      | Raise e => Raise e
      | Return ingredients =>
          Return (RecipeRepresentation.mk (Recipe.id instance)
                    (TagSerializer <$> tags_all db instance)
                    (CustomUserSerializer db request <$> author)
                    ingredients
                    (get_is_favorited db request instance)
                    (get_is_in_shopping_cart db request instance)
                    (Recipe.name instance)
                    (FileField_to_representation (Some request)
                       (Recipe.image instance))
                    (Recipe.text instance) (Recipe.cooking_time instance))
      end
  end.

(** The retrieve action of the model view set. *)
Definition RecipeViewSet_retrieve (request : Request) (pk : Z)
    : Q RecipeRepresentation.t :=
  instance ← get_object_or_404 (λ r, Recipe.id r = pk) recipes;
  RecipeSerializer_to_representation request instance.

(** ** Notions used in the statements *)

(** A user row with the stored [is_subscribed] column blanked: two rows
    with the same image differ in that column at most. *)
Definition forget_is_subscribed (u : CustomUser.t) : CustomUser.t :=
  CustomUser.mk (CustomUser.id u) (CustomUser.email u)
    (CustomUser.username u) (CustomUser.first_name u)
    (CustomUser.last_name u) false.

(** The lookup in the [try] block of [validate_ingredients] finds the
    ingredient of the entry. *)
Definition resolved (db : DB) (d : IngredientData.t) : Prop :=
  get (λ row, Ingredient.id row
              = Ingredient.id (IngredientData.ingredient d)) ingredients db
    = Return (IngredientData.ingredient d).

(** The tables a recipe write does not touch are the same in both
    states. *)
Definition same_elsewhere (db db' : DB) : Prop :=
  users db' = users db ∧ tags db' = tags db
  ∧ ingredients db' = ingredients db ∧ favorites db' = favorites db
  ∧ shopping_carts db' = shopping_carts db ∧ subscribes db' = subscribes db.

(** In [db'] the recipe is linked to exactly the given tags, and the links
    of the other recipes are those of [db]. *)
Definition tags_replaced (db db' : DB) (recipe : Recipe.t)
    (tags_data : list Tag.t) : Prop :=
  (∀ tag_id, (Recipe.id recipe, tag_id) ∈ recipe_tags db'
             ↔ tag_id ∈ Tag.id <$> tags_data)
  ∧ (∀ recipe_id tag_id, recipe_id ≠ Recipe.id recipe →
       ((recipe_id, tag_id) ∈ recipe_tags db'
        ↔ (recipe_id, tag_id) ∈ recipe_tags db)).

(** What a successful [create] has committed. *)
Definition created (db db' : DB) (recipe : Recipe.t)
    (validated_data : ValidatedData.t) : Prop :=
  recipes db' = recipes db ++ [recipe]
  ∧ Recipe.name recipe = ValidatedData.name validated_data
  ∧ tags_replaced db db' recipe (ValidatedData.tags validated_data)
  ∧ ingredientrecipes db'
    = ingredientrecipes db
      ++ ingredient_recipe_rows
           (ValidatedData.ingredientrecipe_set validated_data) recipe
  ∧ same_elsewhere db db'.

(** What a successful [update] has committed. *)
Definition updated (db db' : DB) (recipe : Recipe.t)
    (validated_data : ValidatedData.t) : Prop :=
  recipes db'
    = (λ r, if decide (Recipe.id r = Recipe.id recipe) then recipe else r)
      <$> recipes db
  ∧ Recipe.name recipe = ValidatedData.name validated_data
  ∧ tags_replaced db db' recipe (ValidatedData.tags validated_data)
  ∧ ingredientrecipes db'
    = filter (λ row, IngredientRecipe.recipe row ≠ Recipe.id recipe)
        (ingredientrecipes db)
      ++ ingredient_recipe_rows
           (ValidatedData.ingredientrecipe_set validated_data) recipe
  ∧ same_elsewhere db db'.

(** Whatever way the code ends, the constraints hold in the state it
    leaves. *)
Definition preserves {A} (m : M A) : Prop :=
  ∀ db, unique_constraints db → unique_constraints (m db).1.

(** The join rows of the recipes in the cart of the user, each taken
    once, with the name and unit of its ingredient. *)
Definition cart_rows (db : DB) (user : CustomUser.t) : list CartLine.t :=
  row ← filter (λ row, Membership.mk (IngredientRecipe.recipe row)
                         (CustomUser.id user) ∈ shopping_carts db)
          (ingredientrecipes db);
  ingredient ← filter (λ i, Ingredient.id i = IngredientRecipe.ingredient row)
                 (ingredients db);
  [CartLine.mk (Ingredient.name ingredient)
     (Ingredient.measurement_unit ingredient)
     (IngredientRecipe.amount row)].

Definition sum_amounts (rows : list CartLine.t) : Z :=
  foldr (λ row total, CartLine.total_amount row + total) 0 rows.

(** The sum of the amounts of the rows of one group. *)
Definition total_for (key : string * string) (rows : list CartLine.t) : Z :=
  sum_amounts (filter (λ row, CartLine.key row = key) rows).

(** Primary keys are unique in the two tables validation looks into. *)
Definition primary_keys (db : DB) : Prop :=
  NoDup (Tag.id <$> tags db) ∧ NoDup (Ingredient.id <$> ingredients db).

(** A computation that returns or raises [ValidationError], nothing
    else. *)
Definition validates {A} (q : Q A) (db : DB) : Prop :=
  match q db with
  | Return _ => True
  | Raise (ValidationError _) => True
  | Raise _ => False
  end.

Definition rejects {A} (q : Q A) (db : DB) : Prop :=
  ∃ detail, q db = Raise (ValidationError detail).

(** The payloads of claim C2. *)
Definition bad_tags (data : RecipePayload.t) : Prop :=
  RecipePayload.tags data = [] ∨ ¬ NoDup (RecipePayload.tags data).

Definition bad_ingredients (db : DB) (data : RecipePayload.t) : Prop :=
  RecipePayload.ingredients data = []
  ∨ (∃ item, item ∈ RecipePayload.ingredients data
       ∧ ∀ row, row ∈ ingredients db
           → Ingredient.id row ≠ IngredientItem.id item)
  ∨ ¬ NoDup (IngredientItem.id <$> RecipePayload.ingredients data)
  ∨ (∃ item, item ∈ RecipePayload.ingredients data
       ∧ IngredientItem.amount item < 1).

(** A character field accepts the string: it is not blank, and once
    stripped it passes the character validators. *)
Definition good_text (platform : Platform) (data : string) : Prop :=
  data ≠ ""
  ∧ strip platform data ≠ ""
  ∧ character_errors platform (strip platform data) = [].

(** A payload that passes validation: tags and ingredients non-empty,
    without repeats and all in their tables, amounts at least 1; a name
    that is good text, of at most 200 characters once stripped, which no
    other recipe has; an image that is a base64 image; a text that is
    good text; a cooking time of at least 1. *)
Definition good_payload (platform : Platform) (instance : option Recipe.t)
    (db : DB) (data : RecipePayload.t) : Prop :=
  (RecipePayload.tags data ≠ []
   ∧ NoDup (RecipePayload.tags data)
   ∧ ∀ tag_id, tag_id ∈ RecipePayload.tags data →
       tag_id ∈ Tag.id <$> tags db)
  ∧ (RecipePayload.ingredients data ≠ []
     ∧ NoDup (IngredientItem.id <$> RecipePayload.ingredients data)
     ∧ ∀ item, item ∈ RecipePayload.ingredients data →
         IngredientItem.id item ∈ Ingredient.id <$> ingredients db
         ∧ 1 ≤ IngredientItem.amount item)
  ∧ (good_text platform (RecipePayload.name data)
     ∧ len platform (strip platform (RecipePayload.name data)) ≤ 200
     ∧ ∀ r, r ∈ recipes db →
         Recipe.name r = strip platform (RecipePayload.name data) →
         ∃ obj, instance = Some obj ∧ Recipe.id r = Recipe.id obj)
  ∧ (∃ base64_data file,
       RecipePayload.image data = Some base64_data
       ∧ base64_data ≠ ""
       ∧ base64_image platform base64_data = Some file)
  ∧ good_text platform (RecipePayload.text data)
  ∧ 1 ≤ RecipePayload.cooking_time data.

(** The validated data is the payload with its keys resolved to rows, its
    name and text stripped, and its image turned into a file. *)
Definition resolves (platform : Platform) (db : DB) (data : RecipePayload.t)
    (validated_data : ValidatedData.t) : Prop :=
  Tag.id <$> ValidatedData.tags validated_data = RecipePayload.tags data
  ∧ (∀ tag, tag ∈ ValidatedData.tags validated_data → tag ∈ tags db)
  ∧ Forall2
      (λ item d,
         IngredientData.ingredient d ∈ ingredients db
         ∧ Ingredient.id (IngredientData.ingredient d) = IngredientItem.id item
         ∧ IngredientData.amount d = IngredientItem.amount item)
      (RecipePayload.ingredients data)
      (ValidatedData.ingredientrecipe_set validated_data)
  ∧ ValidatedData.name validated_data
    = strip platform (RecipePayload.name data)
  ∧ RecipePayload.image data ≫= base64_image platform
    = Some (ValidatedData.image validated_data)
  ∧ ValidatedData.text validated_data
    = strip platform (RecipePayload.text data)
  ∧ ValidatedData.cooking_time validated_data
    = RecipePayload.cooking_time data.

(** The integers of a payload fit the columns of any database backend:
    keys and cooking time those of a 32-bit column, amounts those of a
    16-bit one.  Outside of them the validators and the inserts of the
    backends differ. *)
Definition fits_columns (data : RecipePayload.t) : Prop :=
  Forall (λ tag_id, -2147483648 ≤ tag_id ≤ 2147483647)
    (RecipePayload.tags data)
  ∧ Forall (λ item, -2147483648 ≤ IngredientItem.id item ≤ 2147483647
                    ∧ IngredientItem.amount item ≤ 32767)
      (RecipePayload.ingredients data)
  ∧ RecipePayload.cooking_time data ≤ 2147483647.

(** The requester is the author of the recipe, one of those whom the
    permission classes of [RecipeViewSet] let write to it. *)
Definition is_author (request : Request) (instance : Recipe.t) : Prop :=
  ∃ user, request_user request = Some user
          ∧ Recipe.author instance = Some (CustomUser.id user).


(** The elementary changes the operations make to the database, each
    with what the code has checked before making it. *)
Inductive change : DB → DB → Prop :=
  | recipe_created db db' recipe validated_data :
      created db db' recipe validated_data →
      Recipe.id recipe = next_id (Recipe.id <$> recipes db) →
      Recipe.name recipe ∉ Recipe.name <$> recipes db →
      change db db'
  | recipe_updated db db' instance recipe validated_data :
      instance ∈ recipes db →
      Recipe.id recipe = Recipe.id instance →
      updated db db' recipe validated_data →
      (∀ r, r ∈ recipes db → Recipe.name r = Recipe.name recipe →
            Recipe.id r = Recipe.id recipe) →
      change db db'
  | recipe_deleted db instance :
      instance ∈ recipes db →
      change db (Recipe_delete instance db).1
  | membership_added db model recipe user_id :
      recipe ∈ recipes db →
      Membership.mk (Recipe.id recipe) user_id ∉ objects model db →
      change db
        (set_objects model
           (λ rows, rows ++ [Membership.mk (Recipe.id recipe) user_id]) db)
  | membership_removed db model obj :
      change db (set_objects model (filter (λ row, row ≠ obj)) db)
  | subscribed db author_id follower_id :
      author_id ≠ follower_id →
      Subscribe.mk author_id follower_id ∉ subscribes db →
      change db
        (set_subscribes
           (λ rows, rows ++ [Subscribe.mk author_id follower_id]) db)
  | unsubscribed db obj :
      change db (set_subscribes (filter (λ row, row ≠ obj)) db)
  | ingredient_loaded db name measurement_unit :
      name ∉ Ingredient.name <$> ingredients db →
      change db
        (set_ingredients
           (λ rows, rows ++ [Ingredient.mk
                               (next_id (Ingredient.id <$> ingredients db))
                               name measurement_unit]) db)
  | tag_loaded db name color slug :
      slug ∉ Tag.slug <$> tags db →
      change db
        (set_tags
           (λ rows, rows ++ [Tag.mk (next_id (Tag.id <$> tags db))
                               name color slug]) db).

(** No subscription row has the same user on both sides. *)
Definition no_self_subscription (db : DB) : Prop :=
  ∀ row, row ∈ subscribes db → Subscribe.author row ≠ Subscribe.follower row.

(** Every row that points at a recipe points at a row of the recipe
    table. *)
Record references_hold (db : DB) : Prop := {
  join_rows_reference :
    ∀ row, row ∈ ingredientrecipes db →
           IngredientRecipe.recipe row ∈ Recipe.id <$> recipes db;
  favorites_reference :
    ∀ row, row ∈ favorites db →
           Membership.recipe row ∈ Recipe.id <$> recipes db;
  shopping_carts_reference :
    ∀ row, row ∈ shopping_carts db →
           Membership.recipe row ∈ Recipe.id <$> recipes db;
  tag_links_reference :
    ∀ link, link ∈ recipe_tags db → link.1 ∈ Recipe.id <$> recipes db
}.

(** Primary keys and the columns declared [unique=True] have no repeats
    (a NULL slug repeats nothing). *)
Record keys_unique (db : DB) : Prop := {
  recipe_ids_unique : NoDup (Recipe.id <$> recipes db);
  recipe_names_unique : NoDup (Recipe.name <$> recipes db);
  ingredient_ids_unique : NoDup (Ingredient.id <$> ingredients db);
  ingredient_names_unique : NoDup (Ingredient.name <$> ingredients db);
  tag_ids_unique : NoDup (Tag.id <$> tags db);
  tag_slugs_unique : NoDup (omap Tag.slug (tags db))
}.

(** What the serializer shows of a join row made from a validated
    entry. *)
Definition shown (d : IngredientData.t) : IngredientRecipeRepresentation.t :=
  IngredientRecipeRepresentation.mk
    (Ingredient.id (IngredientData.ingredient d))
    (Some (Ingredient.name (IngredientData.ingredient d)))
    (Some (Ingredient.measurement_unit (IngredientData.ingredient d)))
    (IngredientData.amount d).



(** The join rows of one recipe, with the name and unit of their
    ingredients. *)
Definition recipe_lines (db : DB) (recipe : Recipe.t) : list CartLine.t :=
  row ← filter (λ row, IngredientRecipe.recipe row = Recipe.id recipe)
          (ingredientrecipes db);
  ingredient ← filter (λ i, Ingredient.id i = IngredientRecipe.ingredient row)
                 (ingredients db);
  [CartLine.mk (Ingredient.name ingredient)
     (Ingredient.measurement_unit ingredient)
     (IngredientRecipe.amount row)].

(** ** Sample data *)

Definition alice : CustomUser.t :=
  CustomUser.mk 1 "alice@example.org" "alice" "Alice" "A" false.

Definition bob : CustomUser.t :=
  CustomUser.mk 2 "bob@example.org" "bob" "Bob" "B" false.

Definition salt : Ingredient.t := Ingredient.mk 1 "Salt" "g".

Definition pepper : Ingredient.t := Ingredient.mk 2 "Pepper" "g".

(** Two users, Bob follows Alice. *)
Definition two_users_db : DB :=
  mkDB [alice; bob] [] [] [] ∅ [] [] [] [Subscribe.mk 1 2].

(** The same state with Alice's stored column flipped. *)
Definition two_users_db' : DB :=
  mkDB [CustomUser.mk 1 "alice@example.org" "alice" "Alice" "A" true; bob]
    [] [] [] ∅ [] [] [] [Subscribe.mk 1 2].

(** One tag, and two records for the tag loader: the first repeats the
    name of the tag under a new slug, the second has a new name under the
    slug of the tag. *)
Definition breakfast_db : DB :=
  mkDB [] [Tag.mk 1 "Breakfast" (Some "#E26C2D") (Some "breakfast")]
    [] [] ∅ [] [] [] [].

Definition same_name_record : TagRecord.t :=
  TagRecord.mk "Breakfast" None (Some "morning").

Definition same_slug_record : TagRecord.t :=
  TagRecord.mk "Brunch" None (Some "breakfast").

(** A pantry with salt and pepper, and no recipe yet. *)
Definition pantry_db : DB :=
  mkDB [alice; bob] [Tag.mk 1 "Breakfast" None (Some "breakfast")]
    [salt; pepper] [] ∅ [] [] [] [].

(** A recipe in place, and validated data that names salt twice: the
    body of [update] fails at [bulk_create], after its other writes. *)
Definition soup : Recipe.t := Recipe.mk 1 "Soup" "soup.png" "Boil." 10 (Some 1).

Definition kitchen_db : DB :=
  mkDB
    [CustomUser.mk 1 "alice@example.org" "alice" "Alice" "A" false]
    [Tag.mk 1 "Breakfast" None (Some "breakfast")]
    [Ingredient.mk 1 "Salt" "g"; Ingredient.mk 2 "Pepper" "g"]
    [soup] {[ (1, 1) ]} [IngredientRecipe.mk 1 1 2] [] [] [].

Definition salt_twice : ValidatedData.t :=
  ValidatedData.mk [Tag.mk 1 "Breakfast" None (Some "breakfast")]
    [IngredientData.mk (Ingredient.mk 1 "Salt" "g") 2;
     IngredientData.mk (Ingredient.mk 1 "Salt" "g") 3]
    "Stew" "stew.png" "Simmer." 30.

Definition salt_and_pepper : ValidatedData.t :=
  ValidatedData.mk [Tag.mk 1 "Breakfast" None (Some "breakfast")]
    [IngredientData.mk (Ingredient.mk 1 "Salt" "g") 2;
     IngredientData.mk (Ingredient.mk 2 "Pepper" "g") 1]
    "Stew" "stew.png" "Simmer." 30.

(** A platform for the examples: [int] reads the numerals 0, 1 and 2,
    strings have nothing to strip and no character the framework refuses,
    and every string but one is a base64 image, stored under media/ by
    its own text. *)
Definition sample_platform : Platform :=
  mkPlatform
    (λ s, if decide (s = "0") then Some 0
          else if decide (s = "1") then Some 1
          else if decide (s = "2") then Some 2
          else None)
    (λ s, s)
    (λ s, Z.of_nat (String.length s))
    (λ s, "'" +:+ s +:+ "'")
    (λ _, [])
    (λ s, if decide (s = "not an image") then None else Some ("media/" +:+ s)).

(** Two engines: one returns the groups as they were formed, the other
    returns the group formed last first. *)
Definition first_formed_first : Engine :=
  mkEngine (λ groups, groups) (λ groups, Permutation_refl groups).

Definition last_formed_first : Engine :=
  mkEngine reverse reverse_Permutation.

(** Alice has recipe 1 (salt 2, pepper 1) and recipe 2 (salt 3) in her
    cart; Bob has recipe 2 in his. *)
Definition cart_db : DB :=
  mkDB [alice; bob] [] [salt; pepper]
    [Recipe.mk 1 "A" "a.png" "Mix." 5 (Some 2);
     Recipe.mk 2 "B" "b.png" "Stir." 7 (Some 2)]
    ∅
    [IngredientRecipe.mk 1 1 2; IngredientRecipe.mk 1 2 1;
     IngredientRecipe.mk 2 1 3]
    []
    [Membership.mk 1 1; Membership.mk 2 2; Membership.mk 2 1]
    [].

(** ** Lemmas on the object manager *)

Section manager.
Context {A : Type} (P : A → Prop) `{∀ x, Decision (P x)}.

Lemma exists_true (rows : list A) :
  exists_ P rows = true ↔ ∃ x, x ∈ rows ∧ P x.
Proof.
  unfold exists_. rewrite bool_decide_eq_true. split.
  - intros Hne. destruct (filter P rows) as [|x l] eqn:E; [done|].
    exists x. assert (x ∈ filter P rows) as Hx by (rewrite E; left).
    apply list_elem_of_filter in Hx. tauto.
  - intros (x & Hin & HP) E.
    assert (x ∈ filter P rows) as Hx by (apply list_elem_of_filter; done).
    rewrite E in Hx. by apply elem_of_nil in Hx.
Qed.

Lemma exists_false (rows : list A) :
  exists_ P rows = false ↔ ∀ x, x ∈ rows → ¬ P x.
Proof.
  rewrite <- not_true_iff_false, exists_true. split.
  - intros Hn x Hx HP. apply Hn. eauto.
  - intros Hn (x & Hx & HP). by apply (Hn x).
Qed.

Lemma exists_false_filter (rows : list A) :
  exists_ P rows = false ↔ filter P rows = [].
Proof.
  unfold exists_. rewrite bool_decide_eq_false. split.
  - intros Hn. destruct (filter P rows); [done|]. by destruct Hn.
  - intros -> Hn. by apply Hn.
Qed.

Lemma get_Return (table : DB → list A) (db : DB) (x : A) :
  get P table db = Return x ↔ filter P (table db) = [x].
Proof.
  unfold get. destruct (filter P (table db)) as [|y [|z l]];
    split; congruence.
Qed.

Lemma get_Return_elem (table : DB → list A) (db : DB) (x : A) :
  get P table db = Return x → x ∈ table db ∧ P x.
Proof.
  rewrite get_Return. intros E.
  assert (x ∈ filter P (table db)) as Hx by (rewrite E; left).
  apply list_elem_of_filter in Hx. tauto.
Qed.

Lemma filter_none (rows : list A) :
  filter P rows = [] ↔ ∀ x, x ∈ rows → ¬ P x.
Proof.
  rewrite <- exists_false_filter. apply exists_false.
Qed.

(** When at most one row can match, a row that matches is the one found. *)
Lemma filter_single_match (rows : list A) (x : A) :
  NoDup rows → x ∈ rows → P x → (∀ y, y ∈ rows → P y → y = x) →
  filter P rows = [x].
Proof.
  induction 1 as [|y l Hy Hl IH]; intros Hin HP Huniq.
  - by apply elem_of_nil in Hin.
  - rewrite filter_cons. destruct (decide (P y)) as [HPy|HPy].
    + assert (y = x) as -> by (apply Huniq; [left|done]).
      f_equal. apply filter_none. intros z Hz HPz.
      assert (z = x) as -> by (apply Huniq; [by right|done]). done.
    + apply IH; [|done|].
      * apply elem_of_cons in Hin as [->|]; done.
      * intros z Hz. apply Huniq. by right.
Qed.

End manager.

(** ** The serialized [is_subscribed] *)

Lemma get_is_subscribed_spec (db : DB) (request : Request)
    (obj : CustomUser.t) :
  get_is_subscribed db request obj =
    match request_user request with
    | Some follower =>
        bool_decide (Subscribe.mk (CustomUser.id obj) (CustomUser.id follower)
                     ∈ subscribes db)
    | None => false
    end.
Proof.
  unfold get_is_subscribed. destruct (request_user request) as [follower|];
    [|done].
  apply eq_true_iff_eq. rewrite exists_true, bool_decide_eq_true. split.
  - intros ([a f] & Hin & Ha & Hf). simpl in *. by subst.
  - intros Hin. eexists. split; [exact Hin|]. done.
Qed.

(** C10.  The serialized [is_subscribed] does not depend on the stored
    column: in two states with the same subscriptions whose user rows
    (and requesting user) differ in that column at most, the users are
    serialized alike; the [is_subscribed] of what [CustomUserSerializer]
    returns says whether a [Subscribe] row exists for (user as author,
    requester as follower), and is false for an anonymous requester; it
    is the value of the method field. *)
Theorem is_subscribed_ignores_stored_column (db db' : DB)
    (request request' : Request) :
  subscribes db = subscribes db' →
  forget_is_subscribed <$> users db = forget_is_subscribed <$> users db' →
  forget_is_subscribed <$> request_user request
    = forget_is_subscribed <$> request_user request' →
  CustomUserSerializer db request <$> users db
    = CustomUserSerializer db' request' <$> users db'
  ∧ (∀ obj,
       UserRepresentation.is_subscribed (CustomUserSerializer db request obj)
       = match request_user request with
         | Some follower =>
             bool_decide
               (Subscribe.mk (CustomUser.id obj) (CustomUser.id follower)
                ∈ subscribes db)
         | None => false
         end)
  ∧ (∀ obj, get_is_subscribed db request obj =
       match request_user request with
       | Some follower =>
           bool_decide
             (Subscribe.mk (CustomUser.id obj) (CustomUser.id follower)
              ∈ subscribes db)
       | None => false
       end).
Proof.
  intros Hsub Husers Hreq.
  split; [|split; intros obj; apply get_is_subscribed_spec].
  rewrite list_eq_Forall2, Forall2_fmap.
  rewrite list_eq_Forall2, Forall2_fmap in Husers.
  eapply Forall2_impl; [exact Husers|]. intros u u' Hu. simpl in Hu.
  unfold CustomUserSerializer. rewrite !get_is_subscribed_spec, <- Hsub.
  assert (CustomUser.id u = CustomUser.id u'
          ∧ CustomUser.email u = CustomUser.email u'
          ∧ CustomUser.username u = CustomUser.username u'
          ∧ CustomUser.first_name u = CustomUser.first_name u'
          ∧ CustomUser.last_name u = CustomUser.last_name u')
    as (-> & -> & -> & -> & ->).
  { unfold forget_is_subscribed in Hu. by injection Hu. }
  f_equal.
  destruct (request_user request) as [f|], (request_user request') as [f'|];
    simpl in Hreq; try done.
  injection Hreq as Hid _. by rewrite Hid.
Qed.

Lemma is_subscribed_ignores_stored_column_witness :
  CustomUserSerializer two_users_db (mkRequest GET (Some bob) ∅)
    <$> users two_users_db
  = CustomUserSerializer two_users_db' (mkRequest GET (Some bob) ∅)
      <$> users two_users_db'
  ∧ UserRepresentation.is_subscribed
      (CustomUserSerializer two_users_db' (mkRequest GET (Some bob) ∅) alice)
    = true.
Proof.
  destruct (is_subscribed_ignores_stored_column two_users_db two_users_db'
              (mkRequest GET (Some bob) ∅) (mkRequest GET (Some bob) ∅))
    as [Hsame _]; [reflexivity..|].
  destruct (is_subscribed_ignores_stored_column two_users_db' two_users_db
              (mkRequest GET (Some bob) ∅) (mkRequest GET (Some bob) ∅))
    as (_ & Hvalue & _); [reflexivity..|].
  split; [exact Hsame|]. by rewrite Hvalue.
Defined.

(** ** Running monadic code in proofs *)

#[local] Arguments get : simpl never.
#[local] Arguments exists_ : simpl never.

Ltac run :=
  unfold get_object_or_404;
  unfold mbind, mret, M_bind, Q_bind, M_ret, Q_ret, query, raise, pure,
    write, try_except;
  simpl.

Lemma subscription_exists (db : DB) (author follower : CustomUser.t) :
  exists_ (subscription_of author follower) (subscribes db) = true
  ↔ Subscribe.mk (CustomUser.id author) (CustomUser.id follower)
    ∈ subscribes db.
Proof.
  rewrite exists_true. split.
  - intros ([a f] & Hin & Ha & Hf). simpl in *. by subst.
  - intros Hin. eexists. split; [exact Hin|]. done.
Qed.

Lemma subscription_absent (db : DB) (author follower : CustomUser.t) :
  Subscribe.mk (CustomUser.id author) (CustomUser.id follower)
    ∉ subscribes db →
  filter (subscription_of author follower) (subscribes db) = [].
Proof.
  intros Hnot. apply filter_none. intros [a f] Hin [Ha Hf].
  simpl in *. by subst.
Qed.

(** ** The subscription toggle *)

(** C5.  For an author found by the view and any follower: subscribing
    when the subscription row exists, unsubscribing when it does not, and
    subscribing to oneself are each answered 400 with the database
    untouched, the three messages are pairwise different, and a POST on
    one's own id never succeeds, whatever rows exist. *)
Theorem subscription_toggle_rejections (platform : Platform) (db : DB)
    (author follower : CustomUser.t) (query_params : gmap string string) :
  filter (λ u, CustomUser.id u = CustomUser.id author) (users db)
    = [author] →
  let row := Subscribe.mk (CustomUser.id author) (CustomUser.id follower) in
  let post := mkRequest POST (Some follower) query_params in
  let delete := mkRequest DELETE (Some follower) query_params in
  (row ∈ subscribes db →
     SubscribeSerializer_validate post author follower db
       = Raise already_subscribed
     ∧ respond (subscribe platform post (CustomUser.id author)) db
       = (db, 400))
  ∧ (row ∉ subscribes db →
     SubscribeSerializer_validate delete author follower db
       = Raise no_subscription
     ∧ respond (subscribe platform delete (CustomUser.id author)) db
       = (db, 400))
  ∧ (CustomUser.id author = CustomUser.id follower →
     (row ∉ subscribes db →
        SubscribeSerializer_validate post author follower db
          = Raise self_subscription)
     ∧ (∃ detail, SubscribeSerializer_validate post author follower db
                    = Raise (ValidationError detail))
     ∧ respond (subscribe platform post (CustomUser.id author)) db
       = (db, 400))
  ∧ already_subscribed ≠ self_subscription
  ∧ already_subscribed ≠ no_subscription
  ∧ self_subscription ≠ no_subscription.
Proof.
  intros Hauthor row post delete.
  assert (get (λ u, CustomUser.id u = CustomUser.id author) users db
          = Return author) as Hget by (by apply get_Return).
  split_and!; try discriminate.
  - intros Hin. apply subscription_exists in Hin. split.
    + unfold SubscribeSerializer_validate. simpl. by rewrite Hin.
    + unfold respond, subscribe, SubscribeSerializer_validate. run.
      by rewrite Hget, Hin.
  - intros Hnot. apply subscription_absent in Hnot. split.
    + unfold SubscribeSerializer_validate. run. unfold get.
      by rewrite Hnot.
    + unfold respond, subscribe, SubscribeSerializer_validate. run.
      rewrite Hget. unfold get. by rewrite Hnot.
  - intros Hid. split_and!.
    + intros Hnot. unfold SubscribeSerializer_validate. simpl.
      destruct (exists_ _ _) eqn:E.
      * apply subscription_exists in E. done.
      * by rewrite decide_True.
    + unfold SubscribeSerializer_validate. simpl.
      destruct (exists_ _ _); [by eexists|].
      rewrite decide_True by done. by eexists.
    + unfold respond, subscribe, SubscribeSerializer_validate. run.
      rewrite Hget. destruct (exists_ _ _); [done|].
      by rewrite decide_True.
Qed.

Lemma subscription_toggle_rejections_witness :
  respond (subscribe sample_platform (mkRequest POST (Some bob) ∅) 1)
    two_users_db
    = (two_users_db, 400)
  ∧ already_subscribed ≠ self_subscription.
Proof.
  pose proof (subscription_toggle_rejections sample_platform two_users_db
                alice bob ∅ eq_refl) as (Hdup & _ & _ & Hne & _).
  split; [|exact Hne]. apply Hdup. vm_compute. left.
Defined.

(** ** The favorite and shopping-cart toggles *)

Lemma objects_set_objects (model : MembershipModel)
    (f : list Membership.t → list Membership.t) (db : DB) :
  objects model (set_objects model f db) = f (objects model db).
Proof. by destruct model. Qed.

Lemma recipes_set_objects (model : MembershipModel)
    (f : list Membership.t → list Membership.t) (db : DB) :
  recipes (set_objects model f db) = recipes db.
Proof. by destruct model. Qed.

Lemma membership_of_row (recipe : Recipe.t) (user : CustomUser.t)
    (row : Membership.t) :
  membership_of recipe user row
  ↔ row = Membership.mk (Recipe.id recipe) (CustomUser.id user).
Proof.
  destruct row as [r u]. unfold membership_of. simpl. split.
  - by intros [-> ->].
  - intros E. by injection E.
Qed.

Lemma membership_exists (rows : list Membership.t) (recipe : Recipe.t)
    (user : CustomUser.t) :
  exists_ (membership_of recipe user) rows = true
  ↔ Membership.mk (Recipe.id recipe) (CustomUser.id user) ∈ rows.
Proof.
  rewrite exists_true. split.
  - intros (row & Hin & Hrow). rewrite membership_of_row in Hrow.
    by rewrite <- Hrow.
  - intros Hin. eexists. split; [exact Hin|]. by rewrite membership_of_row.
Qed.

Lemma membership_absent (rows : list Membership.t) (recipe : Recipe.t)
    (user : CustomUser.t) :
  Membership.mk (Recipe.id recipe) (CustomUser.id user) ∉ rows →
  filter (membership_of recipe user) rows = []
  ∧ exists_ (membership_of recipe user) rows = false.
Proof.
  intros Hnot. rewrite exists_false_filter.
  cut (filter (membership_of recipe user) rows = []); [done|].
  apply filter_none. intros row Hin Hrow.
  rewrite membership_of_row in Hrow. by rewrite Hrow in Hin.
Qed.

Lemma membership_single (rows : list Membership.t) (recipe : Recipe.t)
    (user : CustomUser.t) :
  NoDup rows →
  Membership.mk (Recipe.id recipe) (CustomUser.id user) ∈ rows →
  filter (membership_of recipe user) rows
    = [Membership.mk (Recipe.id recipe) (CustomUser.id user)].
Proof.
  intros Hnd Hin. apply filter_single_match; [done|done| |].
  - by rewrite membership_of_row.
  - intros y _ Hy. by rewrite membership_of_row in Hy.
Qed.

(** C4.  For a recipe found by the view and a user, on either model: a
    POST is answered 400 (nothing written) when the row exists and 201
    (the row added) when it does not; a DELETE is answered 400 when the
    row does not exist and 204 (the row removed) when it does; after a
    successful add, a second add is answered 400 and the table holds
    exactly one row for the pair. *)
Theorem membership_toggle (model : MembershipModel) (db : DB)
    (recipe : Recipe.t) (user : CustomUser.t)
    (query_params : gmap string string) :
  filter (λ r, Recipe.id r = Recipe.id recipe) (recipes db) = [recipe] →
  NoDup (objects model db) →
  let row := Membership.mk (Recipe.id recipe) (CustomUser.id user) in
  let post := mkRequest POST (Some user) query_params in
  let delete := mkRequest DELETE (Some user) query_params in
  let pk := Recipe.id recipe in
  let added := set_objects model (λ rows, rows ++ [row]) db in
  (row ∈ objects model db →
     respond (membership_action model post pk) db = (db, 400)
     ∧ respond (membership_action model delete pk) db
       = (set_objects model (filter (λ r, r ≠ row)) db, 204))
  ∧ (row ∉ objects model db →
     respond (membership_action model post pk) db = (added, 201)
     ∧ respond (membership_action model delete pk) db = (db, 400)
     ∧ respond (membership_action model post pk) added = (added, 400)
     ∧ length (filter (λ r, r = row) (objects model added)) = 1%nat).
Proof.
  intros Hrecipe Hnd row post delete pk added.
  assert (∀ db', recipes db' = recipes db →
            get (λ r, Recipe.id r = pk) recipes db' = Return recipe)
    as Hget by (intros db' E; apply get_Return; by rewrite E).
  split.
  - intros Hin. split.
    + unfold respond, membership_action, serialize_obj,
        RecipeMinifiedSerializer_validate. run.
      rewrite (Hget db eq_refl).
      apply membership_exists in Hin. by rewrite Hin.
    + unfold respond, membership_action, serialize_obj, del_obj,
        RecipeMinifiedSerializer_validate, Membership_delete. run.
      rewrite (Hget db eq_refl). unfold get.
      rewrite (membership_single _ _ _ Hnd Hin). simpl. unfold get.
      rewrite (membership_single _ _ _ Hnd Hin). done.
  - intros Hnot. destruct (membership_absent _ recipe user Hnot) as [Hf He].
    split_and!.
    + unfold respond, membership_action, serialize_obj, add_obj,
        RecipeMinifiedSerializer_validate, Membership_objects_create. run.
      rewrite (Hget db eq_refl), He. simpl. by rewrite decide_False.
    + unfold respond, membership_action, serialize_obj,
        RecipeMinifiedSerializer_validate. run.
      rewrite (Hget db eq_refl). unfold get. by rewrite Hf.
    + unfold respond, membership_action, serialize_obj,
        RecipeMinifiedSerializer_validate. run.
      rewrite (Hget added) by apply recipes_set_objects.
      assert (exists_ (membership_of recipe user) (objects model added)
              = true) as ->; [|done].
      apply membership_exists. unfold added.
      rewrite objects_set_objects. apply elem_of_app. right. left.
    + unfold added. rewrite objects_set_objects, filter_app.
      rewrite (proj2 (filter_none (λ r, r = row) (objects model db))).
      * by rewrite filter_cons_True.
      * intros r Hr ->. done.
Qed.

Lemma membership_toggle_witness :
  respond (favorite (mkRequest POST (Some alice) ∅) 1)
    (set_recipes (λ _, [Recipe.mk 1 "Soup" "soup.png" "Boil." 10 (Some 2)])
       two_users_db)
  = (set_favorites (λ rows, rows ++ [Membership.mk 1 1])
       (set_recipes (λ _, [Recipe.mk 1 "Soup" "soup.png" "Boil." 10 (Some 2)])
          two_users_db),
     201).
Proof.
  refine (proj1 (proj2 (membership_toggle Favorite
            (set_recipes
               (λ _, [Recipe.mk 1 "Soup" "soup.png" "Boil." 10 (Some 2)])
               two_users_db)
            (Recipe.mk 1 "Soup" "soup.png" "Boil." 10 (Some 2)) alice ∅
            eq_refl _) _)).
  - apply NoDup_nil_2.
  - apply not_elem_of_nil.
Defined.

(** ** The reference-data loaders *)

(** The loop of a loader that never raises runs its body on each record
    in turn and writes one line per record. *)
Lemma for_each_total {A} (body : A → M string) (data : list A) (db : DB) :
  (∀ item db, ∃ line, (body item db).2 = Return line) →
  ∃ lines,
    for_each body data db
      = (foldl (λ db item, (body item db).1) db data, Return lines)
    ∧ length lines = length data.
Proof.
  intros Hbody. revert db. induction data as [|item rest IH]; intros db.
  - by exists [].
  - destruct (Hbody item db) as [line Hline].
    destruct (IH (body item db).1) as (lines & Hrest & Hlen).
    exists (line :: lines). simpl. run.
    destruct (body item db) as [db1 r]. simpl in *. subst r.
    rewrite Hrest. simpl. by rewrite Hlen.
Qed.

Lemma load_ingredient_spec (record : IngredientRecord.t) (db : DB) :
  let name := IngredientRecord.name record in
  ((∃ row, row ∈ ingredients db ∧ Ingredient.name row = name) →
     load_ingredient record db = (db, Return (ingredient_skipped name)))
  ∧ ((¬ ∃ row, row ∈ ingredients db ∧ Ingredient.name row = name) →
     load_ingredient record db
       = (set_ingredients
            (λ rows, rows ++ [Ingredient.mk
                                (next_id (Ingredient.id <$> ingredients db))
                                name
                                (IngredientRecord.measurement_unit record)])
            db,
          Return (ingredient_added name))).
Proof.
  intros name. subst name.
  unfold load_ingredient, Ingredient_objects_create. run.
  split; intros Hex.
  - apply (exists_true (λ i, Ingredient.name i = _)) in Hex.
    by rewrite Hex.
  - destruct (exists_ _ _) eqn:E; simpl; [|by rewrite E].
    apply exists_true in E. done.
Qed.

Lemma load_tag_spec (record : TagRecord.t) (db : DB) :
  let slug := TagRecord.slug record in
  ((∃ row, row ∈ tags db ∧ Tag.slug row = slug) →
     load_tag record db = (db, Return (tag_skipped slug)))
  ∧ ((¬ ∃ row, row ∈ tags db ∧ Tag.slug row = slug) →
     load_tag record db
       = (set_tags
            (λ rows, rows ++ [Tag.mk (next_id (Tag.id <$> tags db))
                                (TagRecord.name record)
                                (TagRecord.color record) slug])
            db,
          Return (tag_added slug))).
Proof.
  intros slug. subst slug. unfold load_tag, Tag_objects_create. run.
  split; intros Hex.
  - apply (exists_true (λ t, Tag.slug t = _)) in Hex.
    by rewrite Hex.
  - destruct (exists_ _ _) eqn:E; simpl.
    + apply exists_true in E. done.
    + by rewrite E, andb_false_r.
Qed.

(** C7, as the code has it.  The ingredient loader skips (and logs) a
    record whose name is in the table and inserts any other; the tag
    loader does the same by slug, not by name; each loader runs this step
    on every record in order, never raises, and writes a line per record
    and a last one. *)
Theorem loaders_insert_or_skip :
  (∀ (record : IngredientRecord.t) (db : DB),
     let name := IngredientRecord.name record in
     ((∃ row, row ∈ ingredients db ∧ Ingredient.name row = name) →
        load_ingredient record db = (db, Return (ingredient_skipped name)))
     ∧ ((¬ ∃ row, row ∈ ingredients db ∧ Ingredient.name row = name) →
        load_ingredient record db
          = (set_ingredients
               (λ rows,
                  rows ++ [Ingredient.mk
                             (next_id (Ingredient.id <$> ingredients db))
                             name
                             (IngredientRecord.measurement_unit record)])
               db,
             Return (ingredient_added name))))
  ∧ (∀ (record : TagRecord.t) (db : DB),
     let slug := TagRecord.slug record in
     ((∃ row, row ∈ tags db ∧ Tag.slug row = slug) →
        load_tag record db = (db, Return (tag_skipped slug)))
     ∧ ((¬ ∃ row, row ∈ tags db ∧ Tag.slug row = slug) →
        load_tag record db
          = (set_tags
               (λ rows, rows ++ [Tag.mk (next_id (Tag.id <$> tags db))
                                   (TagRecord.name record)
                                   (TagRecord.color record) slug])
               db,
             Return (tag_added slug))))
  ∧ (∀ (data : list IngredientRecord.t) (db : DB),
     ∃ lines,
       load_ingredients_handle data db
         = (foldl (λ db record, (load_ingredient record db).1) db data,
            Return (lines ++ ["Загрузка выполнена!"]))
       ∧ length lines = length data)
  ∧ (∀ (data : list TagRecord.t) (db : DB),
     ∃ lines,
       load_tags_handle data db
         = (foldl (λ db record, (load_tag record db).1) db data,
            Return (lines ++ ["Загрузка выполнена!"]))
       ∧ length lines = length data).
Proof.
  split_and!.
  - apply load_ingredient_spec.
  - apply load_tag_spec.
  - intros data db.
    destruct (for_each_total load_ingredient data db) as (lines & E & Hlen).
    { intros record db'.
      destruct (load_ingredient_spec record db') as [Hskip Hadd].
      destruct (exists_ (λ row, Ingredient.name row
                                = IngredientRecord.name record)
                  (ingredients db')) eqn:E.
      - apply exists_true in E. rewrite (Hskip E). by eexists.
      - rewrite Hadd; [by eexists|]. intros Hex.
        apply (exists_true (λ row, Ingredient.name row = _)) in Hex.
        congruence. }
    exists lines. split; [|done].
    unfold load_ingredients_handle, handle. run. by rewrite E.
  - intros data db.
    destruct (for_each_total load_tag data db) as (lines & E & Hlen).
    { intros record db'.
      destruct (load_tag_spec record db') as [Hskip Hadd].
      destruct (exists_ (λ row, Tag.slug row = TagRecord.slug record)
                  (tags db')) eqn:E.
      - apply exists_true in E. rewrite (Hskip E). by eexists.
      - rewrite Hadd; [by eexists|]. intros Hex.
        apply (exists_true (λ row, Tag.slug row = _)) in Hex.
        congruence. }
    exists lines. split; [|done].
    unfold load_tags_handle, handle. run. by rewrite E.
Qed.

Lemma loaders_insert_or_skip_witness :
  load_tag same_slug_record breakfast_db
  = (breakfast_db, Return (tag_skipped (Some "breakfast"))).
Proof.
  apply (proj1 (proj1 (proj2 loaders_insert_or_skip)
                  same_slug_record breakfast_db)).
  eexists. split; [left|done].
Defined.

(** C7 as stated fails for the tag loader: a record whose name is in the
    table is inserted when its slug is new, and a record whose name is
    new is skipped when its slug is in the table. *)
Lemma load_tags_by_name_counterexample :
  (∃ row, row ∈ tags breakfast_db
          ∧ Tag.name row = TagRecord.name same_name_record)
  ∧ tags (load_tags_handle [same_name_record] breakfast_db).1
    = tags breakfast_db ++ [Tag.mk 2 "Breakfast" None (Some "morning")]
  ∧ (¬ ∃ row, row ∈ tags breakfast_db
              ∧ Tag.name row = TagRecord.name same_slug_record)
  ∧ tags (load_tags_handle [same_slug_record] breakfast_db).1
    = tags breakfast_db.
Proof.
  split_and!.
  - eexists. split; [left|done].
  - reflexivity.
  - intros (row & Hin & Hname). apply list_elem_of_singleton in Hin.
    subst row. discriminate.
  - reflexivity.
Qed.

(** ** Field resolution and the ingredient checks *)

(** What a validated entry says about the payload entry it came from. *)
Lemma IngredientRecipeSerializer_Return (item : IngredientItem.t) (db : DB)
    (v : IngredientData.t) :
  IngredientRecipeSerializer item db = Return v →
  get (λ row, Ingredient.id row = IngredientItem.id item) ingredients db
    = Return (IngredientData.ingredient v)
  ∧ Ingredient.id (IngredientData.ingredient v) = IngredientItem.id item
  ∧ IngredientData.amount v = IngredientItem.amount item
  ∧ 1 ≤ IngredientItem.amount item.
Proof.
  unfold IngredientRecipeSerializer, PrimaryKeyRelatedField,
    MinValueValidator, collect.
  run.
  destruct (get _ ingredients db) as [i|e] eqn:Hget.
  - destruct (decide (IngredientItem.amount item < 1)); simpl;
      intros E; simplify_eq.
    simpl. split_and!; try done; [|lia].
    by destruct (get_Return_elem _ _ _ _ Hget).
  - destruct (decide (e = DoesNotExist)); simpl.
    + destruct (decide (IngredientItem.amount item < 1)); simpl;
        intros E; simplify_eq.
    + destruct e; try done; destruct (decide (IngredientItem.amount item < 1));
        simpl; intros E; simplify_eq.
Qed.

Lemma ListSerializer_Return {A B} (child : A → Q B) (data : list A)
    (db : DB) (value : list B) :
  ListSerializer child data db = Return value →
  Forall2 (λ item v, child item db = Return v) data value.
Proof.
  revert value. induction data as [|item rest IH]; intros value.
  - simpl. run. intros E. simplify_eq. constructor.
  - simpl. unfold collect. run.
    destruct (child item db) as [v|e] eqn:Hv.
    + destruct (ListSerializer child rest db) as [vs|e'] eqn:Hvs.
      * simpl. intros E. simplify_eq. constructor; [done|]. by apply IH.
      * destruct e'; simpl; intros E; simplify_eq.
    + destruct e; simpl; try (intros E; by simplify_eq).
      destruct (ListSerializer child rest db) as [vs|e'] eqn:Hvs.
      * simpl. intros E. simplify_eq.
      * destruct e'; simpl; intros E; simplify_eq.
Qed.

Lemma validate_ingredients_loop_resolved (db : DB)
    (value : list IngredientData.t) :
  Forall (resolved db) value →
  ∀ (seen : gset Z) (acc : list IngredientData.t) (id : Z),
    validate_ingredients_loop value seen acc db
      ≠ Raise (nonexistent_ingredient id).
Proof.
  induction 1 as [|d rest Hd Hrest IH]; intros seen acc id.
  - done.
  - simpl. run. unfold resolved in Hd. rewrite Hd.
    destruct (decide (_ ∈ seen)); [discriminate|].
    destruct (decide (IngredientData.amount d < 1)); [discriminate|].
    apply IH.
Qed.

(** C9.  A value that reaches [validate_ingredients] came out of the
    nested serializer, whose primary-key field found every ingredient:
    the lookup in the [try] block returns that ingredient for every
    entry, and [validate_ingredients] never raises the error of the
    [Ingredient.DoesNotExist] handler. *)
Theorem nonexistent_ingredient_unreachable (db : DB)
    (data : list IngredientItem.t) (value : list IngredientData.t) :
  ListSerializer IngredientRecipeSerializer data db = Return value →
  Forall (λ d,
            get (λ row, Ingredient.id row
                        = Ingredient.id (IngredientData.ingredient d))
              ingredients db
            = Return (IngredientData.ingredient d)) value
  ∧ ∀ id, validate_ingredients value db ≠ Raise (nonexistent_ingredient id).
Proof.
  intros Hlist. apply ListSerializer_Return in Hlist.
  assert (Forall (resolved db) value) as Hres.
  { induction Hlist as [|item v data value Hv _ IH]; constructor; [|done].
    apply IngredientRecipeSerializer_Return in Hv as (Hget & Hid & _).
    unfold resolved. by rewrite Hid. }
  split; [exact Hres|]. intros id.
  unfold validate_ingredients. destruct value as [|d rest]; [discriminate|].
  by apply validate_ingredients_loop_resolved.
Qed.

Lemma nonexistent_ingredient_unreachable_witness :
  ListSerializer IngredientRecipeSerializer
    [IngredientItem.mk 1 2; IngredientItem.mk 2 1] pantry_db
  = Return [IngredientData.mk salt 2; IngredientData.mk pepper 1]
  ∧ validate_ingredients
      [IngredientData.mk salt 2; IngredientData.mk pepper 1] pantry_db
    ≠ Raise (nonexistent_ingredient 3).
Proof.
  split; [reflexivity|].
  apply (nonexistent_ingredient_unreachable pantry_db
           [IngredientItem.mk 1 2; IngredientItem.mk 2 1]).
  reflexivity.
Defined.

(** ** Validation of a recipe payload *)

Lemma filter_by_key_length {A} (pk : A → Z) (rows : list A) (x : Z) :
  NoDup (pk <$> rows) →
  (length (filter (λ row, pk row = x) rows) ≤ 1)%nat.
Proof.
  induction rows as [|a rows IH]; simpl; [lia|].
  rewrite NoDup_cons. intros [Ha Hnd]. rewrite filter_cons.
  destruct (decide (pk a = x)) as [E|E]; [|by apply IH].
  rewrite (proj2 (filter_none (λ row, pk row = x) rows)); [simpl; lia|].
  intros r Hr Hx. apply Ha. rewrite E, <- Hx.
  by apply list_elem_of_fmap_2.
Qed.

Lemma get_by_key {A} (pk : A → Z) (table : DB → list A) (db : DB) (x : Z) :
  NoDup (pk <$> table db) →
  get (λ row, pk row = x) table db ≠ Raise MultipleObjectsReturned.
Proof.
  intros Hnd. pose proof (filter_by_key_length pk (table db) x Hnd) as Hlen.
  unfold get. destruct (filter _ (table db)) as [|y [|z l]]; try done.
  simpl in Hlen. lia.
Qed.

Lemma validates_bind {A B} (q : Q A) (f : A → Q B) (db : DB) :
  validates q db →
  (∀ a, q db = Return a → validates (f a) db) →
  validates (q ≫= f) db.
Proof.
  unfold validates. run. destruct (q db) as [a|e]; [|done].
  intros _ Hf. by apply Hf.
Qed.

Lemma rejects_bind {A B} (q : Q A) (f : A → Q B) (db : DB) :
  validates q db →
  (∀ a, q db = Return a → rejects (f a) db) →
  rejects (q ≫= f) db.
Proof.
  unfold validates, rejects. run. destruct (q db) as [a|e].
  - intros _ Hf. by apply Hf.
  - destruct e; try done. intros _ _. by eexists.
Qed.

Lemma PrimaryKeyRelatedField_validates {A} (pk : A → Z)
    (queryset : DB → list A) (db : DB) (x : Z) :
  NoDup (pk <$> queryset db) →
  validates (PrimaryKeyRelatedField pk queryset x) db.
Proof.
  intros Hnd. pose proof (get_by_key pk queryset db x Hnd) as Hget.
  unfold validates, PrimaryKeyRelatedField. run.
  unfold get in *. by destruct (filter _ (queryset db)) as [|y [|z l]].
Qed.

Lemma PrimaryKeyRelatedField_Return {A} (pk : A → Z)
    (queryset : DB → list A) (db : DB) (x : Z) (obj : A) :
  PrimaryKeyRelatedField pk queryset x db = Return obj →
  obj ∈ queryset db ∧ pk obj = x.
Proof.
  unfold PrimaryKeyRelatedField. run.
  destruct (get _ queryset db) as [o|e] eqn:Hget.
  - intros E. simplify_eq. by apply get_Return_elem in Hget.
  - by destruct (decide (e = DoesNotExist)).
Qed.

Lemma ManyRelatedField_validates {A} (child : Z → Q A) (data : list Z)
    (db : DB) :
  (∀ x, validates (child x) db) →
  validates (ManyRelatedField child data) db.
Proof.
  intros Hchild. induction data as [|x rest IH]; [done|].
  simpl. apply validates_bind; [done|]. intros obj _.
  apply validates_bind; [done|]. by intros objs _.
Qed.

Lemma ManyRelatedField_Return {A} (pk : A → Z) (queryset : DB → list A)
    (data : list Z) (db : DB) (objs : list A) :
  ManyRelatedField (PrimaryKeyRelatedField pk queryset) data db
    = Return objs →
  pk <$> objs = data.
Proof.
  revert objs. induction data as [|x rest IH]; intros objs.
  - simpl. run. intros E. by simplify_eq.
  - simpl. run.
    destruct (PrimaryKeyRelatedField pk queryset x db) as [obj|] eqn:Hobj;
      [|done].
    destruct (ManyRelatedField _ rest db) as [objs'|] eqn:Hobjs; [|done].
    intros E. simplify_eq. simpl.
    apply PrimaryKeyRelatedField_Return in Hobj as [_ ->].
    f_equal. by apply IH.
Qed.

Lemma validate_tags_loop_cases (platform : Platform)
    (tags_data : list Tag.t) (seen : gset Z) :
  (validate_tags_loop platform tags_data seen = Return ()
   ∧ NoDup (Tag.id <$> tags_data)
   ∧ ∀ x, x ∈ Tag.id <$> tags_data → x ∉ seen)
  ∨ ∃ detail, validate_tags_loop platform tags_data seen
                = Raise (ValidationError detail).
Proof.
  revert seen. induction tags_data as [|tag rest IH]; intros seen; simpl.
  - left. split_and!; [done|constructor|]. intros x Hx.
    by apply elem_of_nil in Hx.
  - destruct (decide (Tag.id tag ∈ seen)) as [Hin|Hnot]; [right; by eexists|].
    destruct (IH ({[Tag.id tag]} ∪ seen)) as [(E & Hnd & Hseen)|Hraise];
      [left|by right].
    split_and!; [done| |].
    + constructor; [|done]. intros Hin. apply Hseen in Hin. set_solver.
    + intros x Hx. apply elem_of_cons in Hx as [->|Hx]; [done|].
      apply Hseen in Hx. set_solver.
Qed.

Lemma tags_field_validates (platform : Platform) (data : list Z) (db : DB) :
  primary_keys db → validates (tags_field platform data) db.
Proof.
  intros [Htags _]. unfold tags_field. apply validates_bind.
  - apply ManyRelatedField_validates. intros x.
    by apply PrimaryKeyRelatedField_validates.
  - intros value _. unfold validates, pure, validate_tags.
    destruct value as [|tag rest]; [done|].
    by destruct (validate_tags_loop_cases platform (tag :: rest) ∅)
      as [(-> & _)|[detail ->]].
Qed.

Lemma tags_field_rejects (platform : Platform) (data : list Z) (db : DB) :
  primary_keys db →
  data = [] ∨ ¬ NoDup data →
  rejects (tags_field platform data) db.
Proof.
  intros Hpk Hbad. unfold tags_field. apply rejects_bind.
  - apply ManyRelatedField_validates. intros x.
    apply PrimaryKeyRelatedField_validates, Hpk.
  - intros value Hvalue. apply ManyRelatedField_Return in Hvalue.
    unfold rejects, pure, validate_tags.
    destruct value as [|tag rest]; [by eexists|].
    destruct (validate_tags_loop_cases platform (tag :: rest) ∅)
      as [(_ & Hnd & _)|[detail ->]]; [|by eexists].
    rewrite Hvalue in Hnd. destruct Hbad as [->|Hdup]; done.
Qed.

Lemma IngredientRecipeSerializer_validates (item : IngredientItem.t)
    (db : DB) :
  primary_keys db → validates (IngredientRecipeSerializer item) db.
Proof.
  intros [_ Hpk].
  pose proof (PrimaryKeyRelatedField_validates Ingredient.id ingredients db
                (IngredientItem.id item) Hpk) as Hid.
  unfold validates, IngredientRecipeSerializer, MinValueValidator, collect
    in *.
  run.
  destruct (PrimaryKeyRelatedField _ _ _ db) as [i|[]]; try done; simpl;
    by destruct (decide (IngredientItem.amount item < 1)).
Qed.

Lemma ListSerializer_validates {A B} (child : A → Q B) (data : list A)
    (db : DB) :
  (∀ item, validates (child item) db) →
  validates (ListSerializer child data) db.
Proof.
  intros Hchild. induction data as [|item rest IH]; [done|].
  specialize (Hchild item). unfold validates in *. simpl. run.
  unfold collect.
  destruct (child item db) as [v|[]]; try done;
    by destruct (ListSerializer child rest db) as [vs|[]].
Qed.

Lemma lookup_validates (db : DB) (ingredient_id : Z) :
  primary_keys db →
  validates
    (try_except (get (λ row, Ingredient.id row = ingredient_id) ingredients)
       DoesNotExist (raise (nonexistent_ingredient ingredient_id))) db.
Proof.
  intros [_ Hpk].
  pose proof (get_by_key Ingredient.id ingredients db ingredient_id Hpk).
  unfold validates. run. unfold get in *.
  by destruct (filter _ (ingredients db)) as [|y [|z l]].
Qed.

Lemma validate_ingredients_loop_cases (db : DB)
    (value : list IngredientData.t) (seen : gset Z)
    (acc : list IngredientData.t) :
  primary_keys db →
  (∃ r, validate_ingredients_loop value seen acc db = Return r
        ∧ NoDup (Ingredient.id ∘ IngredientData.ingredient <$> value))
  ∨ rejects (validate_ingredients_loop value seen acc) db.
Proof.
  intros Hpk. revert seen acc.
  cut (∀ seen acc,
         (∃ r, validate_ingredients_loop value seen acc db = Return r
               ∧ NoDup (Ingredient.id ∘ IngredientData.ingredient <$> value)
               ∧ ∀ x, x ∈ (Ingredient.id ∘ IngredientData.ingredient
                           <$> value) → x ∉ seen)
         ∨ rejects (validate_ingredients_loop value seen acc) db).
  { intros Hcut seen acc.
    destruct (Hcut seen acc) as [(r & E & Hnd & _)|Hr]; [left|by right].
    by exists r. }
  induction value as [|d rest IH]; intros seen acc.
  - left. exists acc. split_and!; [done|constructor|].
    intros x Hx. by apply elem_of_nil in Hx.
  - pose proof (lookup_validates db
                  (Ingredient.id (IngredientData.ingredient d)) Hpk) as Hlook.
    unfold validates in Hlook. unfold rejects in *. simpl.
    unfold mbind, Q_bind.
    destruct (try_except _ _ _ db) as [i|[]]; try done;
      [|right; by eexists].
    unfold raise.
    destruct (decide (_ ∈ seen)) as [Hin|Hnot]; [right; by eexists|].
    destruct (decide (IngredientData.amount d < 1)); [right; by eexists|].
    destruct (IH ({[Ingredient.id (IngredientData.ingredient d)]} ∪ seen)
                (acc ++ [IngredientData.mk i (IngredientData.amount d)]))
      as [(r & E & Hnd & Hseen)|Hr]; [left|by right].
    exists r. split_and!; [done| |].
    + constructor; [|done]. intros Hin. apply Hseen in Hin. set_solver.
    + intros x Hx. apply elem_of_cons in Hx as [->|Hx]; [done|].
      apply Hseen in Hx. set_solver.
Qed.

Lemma validate_ingredients_validates (db : DB)
    (value : list IngredientData.t) :
  primary_keys db → validates (validate_ingredients value) db.
Proof.
  intros Hpk. unfold validate_ingredients. destruct value as [|d rest];
    [done|].
  unfold validates.
  by destruct (validate_ingredients_loop_cases db (d :: rest) ∅ [] Hpk)
    as [(r & -> & _)|[detail ->]].
Qed.

Lemma ingredients_field_validates (data : list IngredientItem.t) (db : DB) :
  primary_keys db → validates (ingredients_field data) db.
Proof.
  intros Hpk. unfold ingredients_field. apply validates_bind.
  - apply ListSerializer_validates. intros item.
    by apply IngredientRecipeSerializer_validates.
  - intros value _. by apply validate_ingredients_validates.
Qed.

Lemma ingredients_field_rejects (data : RecipePayload.t) (db : DB) :
  primary_keys db →
  bad_ingredients db data →
  rejects (ingredients_field (RecipePayload.ingredients data)) db.
Proof.
  intros Hpk Hbad. unfold ingredients_field. apply rejects_bind.
  { apply ListSerializer_validates. intros item.
    by apply IngredientRecipeSerializer_validates. }
  intros value Hvalue. apply ListSerializer_Return in Hvalue.
  assert (∀ item, item ∈ RecipePayload.ingredients data →
            (∃ row, row ∈ ingredients db
                    ∧ Ingredient.id row = IngredientItem.id item)
            ∧ 1 ≤ IngredientItem.amount item) as Hitems.
  { intros item Hin.
    destruct (proj1 (list_elem_of_lookup _ _) Hin) as [k Hk].
    destruct (Forall2_lookup_l _ _ _ _ _ Hvalue Hk) as (v & _ & Hv).
    apply IngredientRecipeSerializer_Return in Hv as (Hget & Hid & _ & Hamt).
    split; [|done]. apply get_Return_elem in Hget as [Hrow _]. eauto. }
  assert (Ingredient.id ∘ IngredientData.ingredient <$> value
          = IngredientItem.id <$> RecipePayload.ingredients data) as Hids.
  { clear Hbad Hitems.
    induction Hvalue as [|item v items vs Hv _ IH]; [done|].
    apply IngredientRecipeSerializer_Return in Hv as (_ & Hid & _).
    rewrite !fmap_cons, IH. simpl. by rewrite Hid. }
  destruct Hbad as [Hempty|[(item & Hin & Hno)|[Hdup|(item & Hin & Hamt)]]].
  - rewrite Hempty in Hvalue. apply Forall2_nil_inv_l in Hvalue as ->.
    unfold rejects, validate_ingredients. by eexists.
  - destruct (Hitems item Hin) as [(row & Hrow & Hid) _]. by destruct (Hno row).
  - unfold validate_ingredients. destruct value as [|d rest].
    { unfold rejects. by eexists. }
    destruct (validate_ingredients_loop_cases db (d :: rest) ∅ [] Hpk)
      as [(r & _ & Hnd)|Hr]; [|done].
    rewrite Hids in Hnd. done.
  - destruct (Hitems item Hin) as [_ Hge]. lia.
Qed.

Lemma collect_validates {A} (q : Q A) (db : DB) :
  validates q db →
  ∃ r, collect q db = Return r ∧ (rejects q db → ∃ detail, r = inl detail).
Proof.
  unfold validates, rejects, collect. destruct (q db) as [a|[]]; try done.
  - intros _. eexists. split; [done|]. by intros [d Hd].
  - intros _. eexists. split; [done|]. by eexists.
Qed.

Lemma validator_messages_Return {A} (validators : list (A → Q (list string)))
    (value : A) (db : DB) :
  Forall (λ validator, ∃ messages, validator value db = Return messages)
    validators →
  ∃ detail,
    validator_messages validators value db = Return detail
    ∧ (detail = []
       ↔ Forall (λ validator, validator value db = Return []) validators).
Proof.
  induction 1 as [|validator rest [messages Hm] _ (detail & E & Hd)]; simpl.
  - exists []. split; [done|]. split; constructor.
  - exists (messages ++ detail). split.
    { unfold mbind, Q_bind. by rewrite Hm, E. }
    split.
    + intros Happ. apply app_eq_nil in Happ as [-> ->].
      constructor; [done|by apply Hd].
    + intros Hall. apply Forall_cons in Hall as [E1 Hall].
      rewrite Hm in E1. injection E1 as ->. by rewrite (proj2 Hd Hall).
Qed.

(** Validators that return their messages make a field that returns its
    value when all of them pass, and raises [ValidationError] if not. *)
Lemma run_validators_cases {A} (validators : list (A → Q (list string)))
    (value : A) (db : DB) :
  Forall (λ validator, ∃ messages, validator value db = Return messages)
    validators →
  (run_validators validators value db = Return value
   ∧ Forall (λ validator, validator value db = Return []) validators)
  ∨ ((∃ detail, run_validators validators value db
                = Raise (ValidationError detail))
     ∧ ¬ Forall (λ validator, validator value db = Return []) validators).
Proof.
  intros Hall.
  destruct (validator_messages_Return validators value db Hall)
    as (detail & E & Hd).
  unfold run_validators, mbind, Q_bind. rewrite E.
  destruct detail as [|message detail].
  - left. split; [done|]. by apply Hd.
  - right. split; [by eexists|]. intros Hpass. by apply Hd in Hpass.
Qed.

Lemma name_validators_return (platform : Platform)
    (instance : option Recipe.t) (value : string) (db : DB) :
  Forall (λ validator, ∃ messages, validator value db = Return messages)
    [UniqueValidator instance; MaxLengthValidator platform 200;
     character_validators platform].
Proof.
  repeat constructor.
  - unfold UniqueValidator. destruct (exists_ _ _); by eexists.
  - unfold MaxLengthValidator. destruct (decide _); by eexists.
  - by eexists.
Qed.

Lemma name_field_validates (platform : Platform)
    (instance : option Recipe.t) (data : string) (db : DB) :
  validates (name_field platform instance data) db.
Proof.
  unfold validates, name_field, CharField.
  destruct (decide (_ ∨ _)); [done|].
  by destruct (run_validators_cases _ (strip platform data) db
                 (name_validators_return platform instance _ db))
    as [[-> _]|[[detail ->] _]].
Qed.

Lemma text_validators_return (platform : Platform) (value : string)
    (db : DB) :
  Forall (λ validator, ∃ messages, validator value db = Return messages)
    [character_validators platform].
Proof. repeat constructor. by eexists. Qed.

Lemma text_field_validates (platform : Platform) (data : string) (db : DB) :
  validates (text_field platform data) db.
Proof.
  unfold validates, text_field, CharField.
  destruct (decide (_ ∨ _)); [done|].
  by destruct (run_validators_cases _ (strip platform data) db
                 (text_validators_return platform _ db))
    as [[-> _]|[[detail ->] _]].
Qed.

Lemma image_field_validates (platform : Platform) (data : option string)
    (db : DB) :
  validates (image_field platform data) db.
Proof.
  unfold validates, image_field, Base64ImageField. run.
  destruct data as [base64_data|]; [|done].
  destruct (decide (base64_data = "")); [done|].
  by destruct (base64_image platform base64_data).
Qed.

Lemma cooking_time_field_validates (data : Z) (db : DB) :
  validates (cooking_time_field data) db.
Proof.
  unfold validates, cooking_time_field, pure, validate_cooking_time.
  by destruct (decide _).
Qed.

Lemma run_validation_rejects (platform : Platform)
    (instance : option Recipe.t) (data : RecipePayload.t) (db : DB) :
  validates (tags_field platform (RecipePayload.tags data)) db →
  validates (ingredients_field (RecipePayload.ingredients data)) db →
  rejects (tags_field platform (RecipePayload.tags data)) db
  ∨ rejects (ingredients_field (RecipePayload.ingredients data)) db →
  rejects (RecipeSerializer_run_validation platform instance data) db.
Proof.
  intros Ht Hi Hbad.
  destruct (collect_validates _ db Ht) as (rt & Et & Hrt).
  destruct (collect_validates _ db Hi) as (ri & Ei & Hri).
  destruct (collect_validates _ db
              (name_field_validates platform instance
                 (RecipePayload.name data) db)) as (rn & En & _).
  destruct (collect_validates _ db
              (image_field_validates platform (RecipePayload.image data) db))
    as (rm & Em & _).
  destruct (collect_validates _ db
              (text_field_validates platform (RecipePayload.text data) db))
    as (rx & Ex & _).
  destruct (collect_validates _ db
              (cooking_time_field_validates
                 (RecipePayload.cooking_time data) db)) as (rc & Ec & _).
  unfold rejects, RecipeSerializer_run_validation, mbind, Q_bind.
  rewrite Et, Ei, En, Em, Ex, Ec. unfold raise.
  destruct rt as [dt|t]; [by destruct ri, rn, rm, rx, rc; eexists|].
  destruct ri as [di|i]; [by destruct rn, rm, rx, rc; eexists|].
  destruct Hbad as [Hb|Hb]; [apply Hrt in Hb|apply Hri in Hb];
    by destruct Hb.
Qed.

(** C2.  With primary keys unique, a payload whose tag list is empty or
    repeats a tag id, or whose ingredient list is empty, names an
    ingredient id without a row, repeats an ingredient id or has an
    amount below 1, is rejected by validation with a [ValidationError];
    the create action and the update action answer 400 and leave the
    database as it was. *)
Theorem recipe_validation_rejects (platform : Platform) (db : DB)
    (request : Request) (instance : option Recipe.t)
    (data : RecipePayload.t) :
  primary_keys db →
  bad_tags data ∨ bad_ingredients db data →
  (∃ detail, RecipeSerializer_run_validation platform instance data db
               = Raise (ValidationError detail))
  ∧ respond (RecipeViewSet_create platform request data) db = (db, 400)
  ∧ ∀ pk obj,
      get (λ r, Recipe.id r = pk) recipes db = Return obj →
      respond (RecipeViewSet_update platform request pk data) db = (db, 400).
Proof.
  intros Hpk Hbad.
  assert (∀ instance,
            rejects (RecipeSerializer_run_validation platform instance data) db)
    as Hrej.
  { intros i. apply run_validation_rejects.
    - by apply tags_field_validates.
    - by apply ingredients_field_validates.
    - destruct Hbad as [Ht|Hi].
      + left. by apply tags_field_rejects.
      + right. by apply ingredients_field_rejects. }
  split_and!.
  - apply Hrej.
  - destruct (Hrej None) as [detail E].
    unfold respond, RecipeViewSet_create. run. by rewrite E.
  - intros pk obj Hget. destruct (Hrej (Some obj)) as [detail E].
    unfold respond, RecipeViewSet_update. run. by rewrite Hget, E.
Qed.

Lemma recipe_validation_rejects_witness :
  respond
    (RecipeViewSet_create sample_platform (mkRequest POST (Some alice) ∅)
       (RecipePayload.mk [1; 1] [IngredientItem.mk 1 0] "Soup"
          (Some "soup.png") "Boil." 10))
    pantry_db
  = (pantry_db, 400).
Proof.
  apply (recipe_validation_rejects sample_platform pantry_db
           (mkRequest POST (Some alice) ∅) None
           (RecipePayload.mk [1; 1] [IngredientItem.mk 1 0] "Soup"
              (Some "soup.png") "Boil." 10)).
  - split; simpl.
    + apply NoDup_singleton.
    + apply NoDup_cons. split; [|apply NoDup_singleton].
      intros Hin. apply list_elem_of_singleton in Hin. discriminate.
  - left. right. simpl. intros Hnd. apply NoDup_cons in Hnd as [Hnot _].
    apply Hnot. left.
Defined.

(** ** Recipe writes are all-or-nothing *)

Lemma atomic_Raise {A} (m : M A) (db db' : DB) (e : exn) :
  atomic m db = (db', Raise e) → db' = db.
Proof.
  unfold atomic. destruct (m db) as [db1 [a|e']]; intros E; by simplify_eq.
Qed.

Lemma atomic_Return {A} (m : M A) (db db' : DB) (a : A) :
  atomic m db = (db', Return a) → m db = (db', Return a).
Proof.
  unfold atomic. destruct (m db) as [db1 [a'|e']]; intros E; by simplify_eq.
Qed.

Lemma insert_all_cases (objs : list IngredientRecipe.t) (db : DB) :
  insert_all objs db
    = (set_ingredientrecipes (λ rows, rows ++ objs) db, Return ())
  ∨ ∃ db', insert_all objs db = (db', Raise IntegrityError).
Proof.
  revert db. induction objs as [|obj rest IH]; intros db.
  - left. simpl. run. destruct db. unfold set_ingredientrecipes. simpl.
    by rewrite app_nil_r.
  - simpl. unfold IngredientRecipe_insert. run.
    destruct (decide (_ ∈ _)); [right; by eexists|].
    destruct (IH (set_ingredientrecipes (λ rows, rows ++ [obj]) db))
      as [E|[db' E]]; rewrite E; [left|right; by eexists].
    unfold set_ingredientrecipes. simpl. by rewrite <- app_assoc.
Qed.

Lemma bulk_create_cases (objs : list IngredientRecipe.t) (db : DB) :
  IngredientRecipe_objects_bulk_create objs db
    = (set_ingredientrecipes (λ rows, rows ++ objs) db, Return ())
  ∨ IngredientRecipe_objects_bulk_create objs db = (db, Raise IntegrityError).
Proof.
  unfold IngredientRecipe_objects_bulk_create, atomic.
  destruct (insert_all_cases objs db) as [E|[db' E]]; rewrite E; eauto.
Qed.

Lemma bind_Return {A B} (m : M A) (f : A → M B) (db db' : DB) (b : B) :
  (m ≫= f) db = (db', Return b) →
  ∃ db1 a, m db = (db1, Return a) ∧ f a db1 = (db', Return b).
Proof.
  unfold mbind, M_bind. destruct (m db) as [db1 [a|e]]; [|done].
  intros E. by exists db1, a.
Qed.

Lemma Recipe_objects_create_Return (author : option Z)
    (name image text : string) (cooking_time : Z) (db db' : DB)
    (recipe : Recipe.t) :
  Recipe_objects_create author name image text cooking_time db
    = (db', Return recipe) →
  db' = set_recipes (λ rows, rows ++ [recipe]) db
  ∧ Recipe.name recipe = name.
Proof.
  unfold Recipe_objects_create. destruct (exists_ _ _); [done|].
  intros E. by simplify_eq.
Qed.

Lemma Recipe_save_Return (obj : Recipe.t) (db db' : DB) :
  Recipe_save obj db = (db', Return ()) →
  db' = set_recipes
          (fmap (λ r, if decide (Recipe.id r = Recipe.id obj)
                      then obj else r)) db.
Proof.
  unfold Recipe_save. destruct (exists_ _ _); [done|].
  intros E. by simplify_eq.
Qed.

Lemma ingredient_recipe_list_Return (ingredients_data : list IngredientData.t)
    (recipe : Recipe.t) (db db' : DB) :
  ingredient_recipe_list ingredients_data recipe db = (db', Return ()) →
  db' = set_ingredientrecipes
          (λ rows, rows ++ ingredient_recipe_rows ingredients_data recipe) db.
Proof.
  unfold ingredient_recipe_list.
  destruct (bulk_create_cases
              (ingredient_recipe_rows ingredients_data recipe) db)
    as [E|E]; rewrite E; intros H; by simplify_eq.
Qed.

Lemma tags_set_replaced (db db' : DB) (links : gset (Z * Z))
    (recipe : Recipe.t) (tags_data : list Tag.t) :
  recipe_tags db'
    = filter (λ link, link.1 ≠ Recipe.id recipe
                      ∨ link.2 ∈ (list_to_set (Tag.id <$> tags_data)
                                  : gset Z)) links
      ∪ set_map (λ tag_id, (Recipe.id recipe, tag_id))
          (list_to_set (Tag.id <$> tags_data) : gset Z) →
  (∀ recipe_id tag_id, recipe_id ≠ Recipe.id recipe →
     ((recipe_id, tag_id) ∈ links ↔ (recipe_id, tag_id) ∈ recipe_tags db)) →
  tags_replaced db db' recipe tags_data.
Proof.
  intros E Hother. unfold tags_replaced. rewrite E. split.
  - intros tag_id. rewrite elem_of_union, elem_of_filter, elem_of_map.
    setoid_rewrite elem_of_list_to_set. simpl. split.
    + intros [[[?|?] _]|(t & Et & Ht)]; [done|done|]. by simplify_eq.
    + intros Ht. right. by exists tag_id.
  - intros recipe_id tag_id Hne.
    rewrite elem_of_union, elem_of_filter, elem_of_map, <- Hother by done.
    simpl. split.
    + intros [[_ ?]|(t & Et & _)]; [done|]. by simplify_eq.
    + intros Hin. left. split; [by left|done].
Qed.

Lemma create_body_Return (request : option Request)
    (validated_data : ValidatedData.t) (db db' : DB) (recipe : Recipe.t) :
  create_body request validated_data db = (db', Return recipe) →
  created db db' recipe validated_data.
Proof.
  unfold create_body. intros H.
  apply bind_Return in H as (db0 & author & Hauthor & H).
  assert (db0 = db) as ->.
  { destruct request as [request|]; [|by injection Hauthor].
    destruct (request_user request); by injection Hauthor. }
  apply bind_Return in H as (db1 & recipe1 & Hcreate & H).
  apply Recipe_objects_create_Return in Hcreate as [-> Hname].
  apply bind_Return in H as (db2 & [] & Htags & H).
  apply bind_Return in H as (db3 & [] & Hrows & H).
  apply ingredient_recipe_list_Return in Hrows as ->.
  unfold tags_set, write in Htags. unfold mret, M_ret in H. simplify_eq.
  unfold created, same_elsewhere. simpl. split_and!; try done.
  eapply tags_set_replaced; [reflexivity|done].
Qed.

Lemma update_body_Return (instance : Recipe.t)
    (validated_data : ValidatedData.t) (db db' : DB) (recipe : Recipe.t) :
  update_body instance validated_data db = (db', Return recipe) →
  updated db db' recipe validated_data ∧ Recipe.id recipe = Recipe.id instance.
Proof.
  unfold update_body. intros H.
  apply bind_Return in H as (db1 & [] & Hsave & H).
  apply Recipe_save_Return in Hsave as ->.
  apply bind_Return in H as (db2 & [] & Hclear & H).
  apply bind_Return in H as (db3 & [] & Htags & H).
  apply bind_Return in H as (db4 & [] & Hing & H).
  apply bind_Return in H as (db5 & [] & Hrows & H).
  apply ingredient_recipe_list_Return in Hrows as ->.
  unfold tags_clear, tags_set, ingredients_clear, write in *.
  unfold mret, M_ret in H. simplify_eq.
  unfold updated, same_elsewhere. simpl. split_and!; try done.
  eapply tags_set_replaced; [reflexivity|]. simpl.
  intros recipe_id tag_id Hne. rewrite elem_of_filter. simpl. tauto.
Qed.


(** Without the decorator the body is not all-or-nothing: when it fails
    at [bulk_create], the renamed recipe row and the cleared join rows
    stay behind; with it the same call leaves the state as it was. *)
Example update_body_leaves_partial_writes :
  (update_body soup salt_twice kitchen_db).2 = Raise IntegrityError
  ∧ recipes (update_body soup salt_twice kitchen_db).1
    = [Recipe.mk 1 "Stew" "stew.png" "Simmer." 30 (Some 1)]
  ∧ ingredientrecipes (update_body soup salt_twice kitchen_db).1 = []
  ∧ RecipeSerializer_update soup salt_twice kitchen_db
    = (kitchen_db, Raise IntegrityError).
Proof. by vm_compute. Qed.

(** ... and a call that succeeds commits all three parts at once. *)
Example update_commits_everything :
  ∃ db', RecipeSerializer_update soup salt_and_pepper kitchen_db
           = (db', Return (Recipe.mk 1 "Stew" "stew.png" "Simmer." 30
                             (Some 1)))
         ∧ recipes db' = [Recipe.mk 1 "Stew" "stew.png" "Simmer." 30 (Some 1)]
         ∧ ingredientrecipes db'
           = [IngredientRecipe.mk 1 1 2; IngredientRecipe.mk 1 2 1].
Proof. eexists. split_and!; by vm_compute. Qed.

(** ** The uniqueness constraints hold in every reachable state *)

Lemma preserves_ret {A} (a : A) : preserves (mret a).
Proof. by intros db. Qed.

Lemma preserves_query {A} (q : Q A) : preserves (query q).
Proof. by intros db. Qed.

Lemma preserves_bind {A B} (m : M A) (f : A → M B) :
  preserves m → (∀ a, preserves (f a)) → preserves (m ≫= f).
Proof.
  intros Hm Hf db Hdb. specialize (Hm db Hdb). unfold mbind, M_bind.
  destruct (m db) as [db1 [a|e]]; [|done]. by apply Hf.
Qed.

Lemma preserves_atomic {A} (m : M A) : preserves m → preserves (atomic m).
Proof.
  intros Hm db Hdb. specialize (Hm db Hdb). unfold atomic.
  by destruct (m db) as [db1 [a|e]].
Qed.

Lemma NoDup_fmap_filter {A B} (f : A → B) (P : A → Prop)
    `{∀ x, Decision (P x)} (l : list A) :
  NoDup (f <$> l) → NoDup (f <$> filter P l).
Proof.
  induction l as [|x l IH]; [done|]. rewrite fmap_cons, NoDup_cons.
  intros [Hx Hl]. rewrite filter_cons. destruct (decide (P x)); [|by apply IH].
  rewrite fmap_cons, NoDup_cons. split; [|by apply IH].
  intros Hin. apply Hx. apply list_elem_of_fmap in Hin as (y & -> & Hy).
  apply list_elem_of_filter in Hy as [_ Hy]. by apply list_elem_of_fmap_2.
Qed.

Lemma NoDup_snoc {A} (l : list A) (x : A) :
  NoDup l → x ∉ l → NoDup (l ++ [x]).
Proof.
  intros Hl Hx. apply NoDup_app. split_and!; [done| |apply NoDup_singleton].
  intros y Hy Hin. apply list_elem_of_singleton in Hin. by subst.
Qed.

Lemma preserves_Recipe_objects_create author name image text cooking_time :
  preserves (Recipe_objects_create author name image text cooking_time).
Proof.
  intros db [? ? ? ?]. unfold Recipe_objects_create.
  by destruct (exists_ _ _).
Qed.

Lemma preserves_Recipe_save obj : preserves (Recipe_save obj).
Proof.
  intros db [? ? ? ?]. unfold Recipe_save. by destruct (exists_ _ _).
Qed.

Lemma preserves_Ingredient_objects_create name measurement_unit :
  preserves (Ingredient_objects_create name measurement_unit).
Proof.
  intros db [? ? ? ?]. unfold Ingredient_objects_create.
  by destruct (exists_ _ _).
Qed.

Lemma preserves_Tag_objects_create name color slug :
  preserves (Tag_objects_create name color slug).
Proof.
  intros db [? ? ? ?]. unfold Tag_objects_create.
  by destruct (_ && _).
Qed.

Lemma preserves_tags_clear recipe : preserves (tags_clear recipe).
Proof. by intros db [? ? ? ?]. Qed.

Lemma preserves_tags_set recipe objs : preserves (tags_set recipe objs).
Proof. by intros db [? ? ? ?]. Qed.

Lemma preserves_ingredients_clear recipe :
  preserves (ingredients_clear recipe).
Proof.
  intros db [? ? ? ?]. split; try done. simpl. by apply NoDup_fmap_filter.
Qed.

Lemma preserves_IngredientRecipe_insert row :
  preserves (IngredientRecipe_insert row).
Proof.
  intros db [? ? ? ?]. unfold IngredientRecipe_insert.
  destruct (decide (_ ∈ _)); [done|]. split; try done. simpl.
  rewrite fmap_app. by apply NoDup_snoc.
Qed.

Lemma preserves_insert_all objs : preserves (insert_all objs).
Proof.
  induction objs as [|obj rest IH]; [apply preserves_ret|].
  simpl. apply preserves_bind; [apply preserves_IngredientRecipe_insert|].
  by intros _.
Qed.

Lemma preserves_ingredient_recipe_list ingredients_data recipe :
  preserves (ingredient_recipe_list ingredients_data recipe).
Proof. apply preserves_atomic, preserves_insert_all. Qed.

Lemma preserves_Membership_objects_create model recipe user :
  preserves (Membership_objects_create model recipe user).
Proof.
  intros db [? ? ? ?]. unfold Membership_objects_create.
  destruct (decide (_ ∈ _)); [done|].
  destruct model; split; try done; simpl in *; by apply NoDup_snoc.
Qed.

Lemma preserves_Membership_delete model obj :
  preserves (Membership_delete model obj).
Proof.
  intros db [? ? ? ?].
  destruct model; split; try done; simpl; by apply NoDup_filter.
Qed.

Lemma preserves_Subscribe_objects_create author follower :
  preserves (Subscribe_objects_create author follower).
Proof.
  intros db [? ? ? ?]. unfold Subscribe_objects_create.
  destruct (decide (_ ∈ _)); [done|].
  split; try done; simpl in *; by apply NoDup_snoc.
Qed.

Lemma preserves_Subscribe_delete obj : preserves (Subscribe_delete obj).
Proof.
  intros db [? ? ? ?]. split; try done; simpl; by apply NoDup_filter.
Qed.

Lemma preserves_Recipe_delete obj : preserves (Recipe_delete obj).
Proof.
  intros db [? ? ? ?]. split; simpl;
    [by apply NoDup_fmap_filter|by apply NoDup_filter..|done].
Qed.

Lemma preserves_for_each {A} (body : A → M string) (items : list A) :
  (∀ item, preserves (body item)) → preserves (for_each body items).
Proof.
  intros Hbody. induction items as [|item rest IH]; [apply preserves_ret|].
  simpl. apply preserves_bind; [done|]. intros line.
  apply preserves_bind; [done|]. intros lines. apply preserves_ret.
Qed.

Create HintDb preserves.

#[local] Hint Resolve preserves_ret preserves_query preserves_atomic
  preserves_Recipe_objects_create preserves_Recipe_save
  preserves_Ingredient_objects_create preserves_Tag_objects_create
  preserves_tags_clear preserves_tags_set preserves_ingredients_clear
  preserves_ingredient_recipe_list preserves_Membership_objects_create
  preserves_Membership_delete preserves_Subscribe_objects_create
  preserves_Subscribe_delete preserves_Recipe_delete : preserves.

(** Splits a monadic program at its binds and branches and closes each
    piece with the lemma of its primitive. *)
Ltac preserve :=
  repeat first
    [ solve [auto with preserves]
    | apply preserves_bind; [|intros ?]
    | apply preserves_atomic
    | apply preserves_for_each; intros ?
    | match goal with
      | |- preserves (if ?c then _ else _) => destruct c
      | |- preserves (match ?x with _ => _ end) => destruct x
      | |- preserves (let '(_, _) := ?x in _) => destruct x
      end ].

Lemma preserves_run (platform : Platform) (op : Operation) (db : DB) :
  unique_constraints db → unique_constraints (run platform op db).
Proof.
  intros Hdb. destruct op; simpl; refine ((_ : preserves _) db Hdb);
    unfold RecipeViewSet_create, RecipeSerializer_create, create_body,
      RecipeViewSet_update, RecipeSerializer_update, update_body,
      RecipeViewSet_destroy, shopping_cart, favorite, membership_action,
      serialize_obj, add_obj, del_obj, subscribe, load_ingredients_handle,
      load_tags_handle, handle, load_ingredient, load_tag;
    preserve.
Qed.

(** C8.  In every state reached from one without join, membership and
    subscription rows by recipe writes, recipe deletions, toggles and
    loader runs, no two join rows share (recipe, ingredient), no two
    favorite rows and no two cart rows share (recipe, user), and no two
    subscription rows share (author, follower); each operation keeps the
    four constraints. *)
Theorem uniqueness_invariants (platform : Platform) :
  (∀ db, reachable platform db → unique_constraints db)
  ∧ (∀ op db, unique_constraints db → unique_constraints (run platform op db)).
Proof.
  split; [|apply preserves_run].
  induction 1 as [db (E1 & E2 & E3 & E4)|op db _ IH].
  - split; rewrite ?E1, ?E2, ?E3, ?E4; constructor.
  - by apply preserves_run.
Qed.

Lemma uniqueness_invariants_witness :
  unique_constraints
    (run sample_platform (ToggleFavorite (mkRequest POST (Some alice) ∅) 1)
       (run sample_platform (CreateRecipe (mkRequest POST (Some alice) ∅)
               (RecipePayload.mk [1] [IngredientItem.mk 1 2] "Soup"
                  (Some "soup.png") "Boil." 10))
          pantry_db)).
Proof.
  apply (proj1 (uniqueness_invariants sample_platform)).
  do 2 apply reachable_run.
  apply reachable_initial. by repeat split.
Defined.

(** ** The shopping list *)

Lemma total_for_nil (key : string * string) : total_for key [] = 0.
Proof. done. Qed.

Lemma total_for_cons (key : string * string) (row : CartLine.t)
    (rows : list CartLine.t) :
  total_for key (row :: rows)
  = (if decide (CartLine.key row = key) then CartLine.total_amount row else 0)
    + total_for key rows.
Proof.
  unfold total_for. rewrite filter_cons.
  by destruct (decide (CartLine.key row = key)).
Qed.

Lemma add_to_group_total (key : string * string) (row : CartLine.t)
    (groups : list CartLine.t) :
  total_for key (add_to_group row groups)
  = total_for key groups + total_for key [row].
Proof.
  induction groups as [|group rest IH]; simpl.
  - rewrite !total_for_cons, !total_for_nil. lia.
  - destruct (decide (CartLine.key group = CartLine.key row)) as [E|E].
    + rewrite !total_for_cons, total_for_nil.
      unfold CartLine.key in *. simpl in *. rewrite E.
      destruct (decide (_ = key)); lia.
    + rewrite !total_for_cons, IH, total_for_cons. lia.
Qed.

Lemma add_to_group_keys (row : CartLine.t) (groups : list CartLine.t) :
  CartLine.key <$> add_to_group row groups
  = if decide (CartLine.key row ∈ CartLine.key <$> groups)
    then CartLine.key <$> groups
    else (CartLine.key <$> groups) ++ [CartLine.key row].
Proof.
  induction groups as [|group rest IH]; [done|]. simpl.
  destruct (decide (CartLine.key group = CartLine.key row)) as [E|E].
  - rewrite decide_True by (rewrite <- E; left). done.
  - rewrite fmap_cons, IH.
    destruct (decide (CartLine.key row ∈ CartLine.key <$> rest)) as [Hin|Hn].
    + rewrite decide_True by (by right). done.
    + rewrite decide_False; [done|]. intros Hin.
      apply elem_of_cons in Hin as [Hin|Hin]; [by destruct E|done].
Qed.

Lemma group_by_sum_spec (rows acc : list CartLine.t) :
  NoDup (CartLine.key <$> acc) →
  let groups := foldl (λ groups row, add_to_group row groups) acc rows in
  NoDup (CartLine.key <$> groups)
  ∧ (∀ key, key ∈ CartLine.key <$> groups
            ↔ key ∈ CartLine.key <$> acc ∨ key ∈ CartLine.key <$> rows)
  ∧ (∀ key, total_for key groups = total_for key acc + total_for key rows).
Proof.
  revert acc. induction rows as [|row rows IH]; intros acc Hacc; simpl.
  - split_and!; [done| |].
    + intros key. rewrite elem_of_nil. tauto.
    + intros key. rewrite total_for_nil. lia.
  - destruct (IH (add_to_group row acc)) as (Hnd & Hkeys & Htotal).
    { rewrite add_to_group_keys. destruct (decide _); [done|].
      by apply NoDup_snoc. }
    split_and!; [done| |].
    + intros key. rewrite Hkeys, add_to_group_keys, elem_of_cons.
      destruct (decide (CartLine.key row ∈ CartLine.key <$> acc)) as [Hin|Hn].
      * split; [tauto|]. intros [?|[->|?]]; tauto.
      * rewrite elem_of_app, list_elem_of_singleton. tauto.
    + intros key.
      rewrite Htotal, add_to_group_total, !total_for_cons, total_for_nil.
      lia.
Qed.

Lemma total_for_group (groups : list CartLine.t) (group : CartLine.t) :
  NoDup (CartLine.key <$> groups) →
  group ∈ groups →
  total_for (CartLine.key group) groups = CartLine.total_amount group.
Proof.
  induction groups as [|g rest IH]; intros Hnd Hin.
  - by apply elem_of_nil in Hin.
  - rewrite fmap_cons, NoDup_cons in Hnd. destruct Hnd as [Hg Hrest].
    rewrite total_for_cons. apply elem_of_cons in Hin as [->|Hin].
    + rewrite decide_True by done.
      cut (total_for (CartLine.key g) rest = 0); [lia|].
      unfold total_for.
      rewrite (proj2 (filter_none (λ row, CartLine.key row = CartLine.key g)
                        rest)); [done|].
      intros r Hr E. apply Hg. rewrite <- E. by apply list_elem_of_fmap_2.
    + rewrite decide_False, IH by (try done; intros E; apply Hg;
        rewrite E; by apply list_elem_of_fmap_2). lia.
Qed.

Lemma cart_filter (carts : list Membership.t) (recipe user : Z) :
  NoDup carts →
  filter (λ cart, Membership.recipe cart = recipe
                  ∧ Membership.user cart = user) carts
  = if decide (Membership.mk recipe user ∈ carts)
    then [Membership.mk recipe user] else [].
Proof.
  intros Hnd. destruct (decide (_ ∈ carts)) as [Hin|Hnot].
  - apply filter_single_match; [done|done|done|].
    intros [r u] _ [Hr Hu]. simpl in *. by subst.
  - apply filter_none. intros [r u] Hin [Hr Hu]. simpl in *. by subst.
Qed.

(** Under [unique_shoping_cart] the join of the query meets each join row
    of a recipe in the cart once. *)
Lemma joined_rows_cart_rows (db : DB) (user : CustomUser.t) :
  NoDup (shopping_carts db) → joined_rows db user = cart_rows db user.
Proof.
  intros Hnd. unfold joined_rows, cart_rows.
  induction (ingredientrecipes db) as [|row rows IH]; [done|].
  rewrite filter_cons. csimpl. rewrite IH, (cart_filter _ _ _ Hnd).
  destruct (decide (_ ∈ shopping_carts db)); csimpl; [|done].
  by rewrite app_nil_r.
Qed.

Lemma sum_amounts_Permutation (rows rows' : list CartLine.t) :
  rows ≡ₚ rows' → sum_amounts rows = sum_amounts rows'.
Proof.
  induction 1
    as [|row rows rows' _ IH|row row' rows|rows rows' rows'' _ IH _ IH'];
    simpl; lia.
Qed.

Lemma total_for_Permutation (key : string * string)
    (rows rows' : list CartLine.t) :
  rows ≡ₚ rows' → total_for key rows = total_for key rows'.
Proof.
  intros Hperm. unfold total_for. apply sum_amounts_Permutation.
  by rewrite Hperm.
Qed.

(** The totals of the groups the query returns are those of the rows it
    joined, whatever the order of the groups. *)
Lemma total_for_queryset (engine : Engine) (db : DB) (user : CustomUser.t)
    (key : string * string) :
  total_for key (ingredients_queryset engine db user)
  = total_for key (joined_rows db user).
Proof.
  unfold ingredients_queryset, group_by_sum.
  rewrite (total_for_Permutation _ _ _ (group_order_permutes engine _)).
  destruct (group_by_sum_spec (joined_rows db user) []) as (_ & _ & Htotal);
    [constructor|].
  rewrite Htotal, total_for_nil. lia.
Qed.

(** C3.  Under the cart's unique constraint, the groups of the download
    are the distinct (name, unit) pairs among the join rows of the
    recipes in the user's cart, each once, with the sum of the amounts of
    its rows; the text is the header and one line per group, numbered
    from 1 in the order in which the engine returns the groups, of the
    form [<n>. <name>: <total> <unit>].  For the cart with recipe A
    (salt 2, pepper 1) and recipe B (salt 3) the lines are one for salt
    with 5 and one for pepper with 1, in either order. *)
Theorem shopping_list_aggregation (engine : Engine) (db : DB)
    (user : CustomUser.t) :
  NoDup (shopping_carts db) →
  let rows := cart_rows db user in
  let groups := ingredients_queryset engine db user in
  let lines := imap shopping_cart_line groups in
  NoDup (CartLine.key <$> groups)
  ∧ (∀ key, key ∈ CartLine.key <$> groups ↔ key ∈ CartLine.key <$> rows)
  ∧ (∀ group, group ∈ groups →
       CartLine.total_amount group = total_for (CartLine.key group) rows)
  ∧ generate_shopping_cart engine db user
    = shopping_cart_header +:+ String.concat newline lines
  ∧ length lines = length groups
  ∧ (∀ (n : nat) group, groups !! n = Some group →
       lines !! n
       = Some (pretty (Z.of_nat n + 1) +:+ ". "
               +:+ CartLine.ingredient__name group +:+ ": "
               +:+ pretty (CartLine.total_amount group) +:+ " "
               +:+ CartLine.ingredient__measurement_unit group))
  ∧ (generate_shopping_cart engine cart_db alice
     = "Список покупок: " +:+ newline +:+ newline
       +:+ "1. Salt: 5 g" +:+ newline +:+ "2. Pepper: 1 g"
     ∨ generate_shopping_cart engine cart_db alice
       = "Список покупок: " +:+ newline +:+ newline
         +:+ "1. Pepper: 1 g" +:+ newline +:+ "2. Salt: 5 g").
Proof.
  intros Hnd rows groups lines.
  pose proof (group_order_permutes engine (group_by_sum (joined_rows db user)))
    as Hperm.
  rewrite (joined_rows_cart_rows db user Hnd) in Hperm.
  fold rows in Hperm. unfold group_by_sum in Hperm.
  destruct (group_by_sum_spec rows []) as (Hg & Hkeys & Htot).
  { constructor. }
  assert (groups ≡ₚ foldl (λ groups row, add_to_group row groups) [] rows)
    as Egroups.
  { unfold groups, ingredients_queryset, group_by_sum.
    by rewrite joined_rows_cart_rows. }
  assert (NoDup (CartLine.key <$> groups)) as Hg'.
  { by rewrite Egroups. }
  split_and!.
  - exact Hg'.
  - intros key. rewrite Egroups, Hkeys, elem_of_nil. tauto.
  - intros group Hin.
    rewrite <- (total_for_group groups group Hg' Hin).
    rewrite (total_for_Permutation _ _ _ Egroups), Htot, total_for_nil.
    lia.
  - done.
  - apply length_imap.
  - intros n group Hn. unfold lines. rewrite list_lookup_imap, Hn. done.
  - unfold generate_shopping_cart, ingredients_queryset.
    pose proof (group_order_permutes engine
                  (group_by_sum (joined_rows cart_db alice))) as Hcart.
    change (group_by_sum (joined_rows cart_db alice))
      with [CartLine.mk "Salt" "g" 5; CartLine.mk "Pepper" "g" 1] in Hcart |- *.
    symmetry in Hcart. apply Permutation.Permutation_length_2_inv in Hcart.
    destruct Hcart as [-> | ->]; [by left|by right].
Qed.

Lemma shopping_list_aggregation_witness :
  NoDup (shopping_carts cart_db)
  ∧ generate_shopping_cart last_formed_first cart_db alice
    = "Список покупок: " +:+ newline +:+ newline
      +:+ "1. Pepper: 1 g" +:+ newline +:+ "2. Salt: 5 g".
Proof.
  assert (NoDup (shopping_carts cart_db)) as Hnd.
  { simpl. repeat (apply NoDup_cons; split;
      [rewrite ?elem_of_cons, elem_of_nil; intros H;
       repeat destruct H as [H|H]; discriminate || done|]).
    apply NoDup_nil_2. }
  split; [exact Hnd|].
  destruct (shopping_list_aggregation last_formed_first cart_db alice Hnd)
    as (_ & _ & _ & _ & _ & _ & [H|H]); [|exact H].
  vm_compute in H. discriminate.
Defined.

(** The engine that returns the groups as they were formed puts salt
    first: both orders occur. *)
Lemma shopping_list_salt_first :
  generate_shopping_cart first_formed_first cart_db alice
  = "Список покупок: " +:+ newline +:+ newline
    +:+ "1. Salt: 5 g" +:+ newline +:+ "2. Pepper: 1 g".
Proof. by vm_compute. Qed.

(** ** The representation of a recipe and its per-viewer flags *)

Lemma get_attribute_total {A} (pk : A → Z) (table : DB → list A) (db : DB)
    (k : Z) :
  NoDup (pk <$> table db) →
  ∃ obj, get_attribute (λ row, pk row = k) table db = Return obj.
Proof.
  intros Hnd. pose proof (filter_by_key_length pk (table db) k Hnd) as Hlen.
  unfold get_attribute, try_except, mbind, Q_bind, get.
  destruct (filter _ (table db)) as [|x [|y l]]; simpl; eauto.
  simpl in Hlen. lia.
Qed.

Lemma Recipe_author_total (db : DB) (instance : Recipe.t) :
  NoDup (CustomUser.id <$> users db) →
  ∃ author, Recipe_author instance db = Return author.
Proof.
  intros Hnd. unfold Recipe_author. destruct (Recipe.author instance).
  - by apply (get_attribute_total CustomUser.id).
  - by exists None.
Qed.

Lemma to_representation_many_total {A B} (child : A → Q B) (db : DB)
    (data : list A) :
  (∀ item, item ∈ data → ∃ representation,
     child item db = Return representation) →
  ∃ representations,
    to_representation_many child data db = Return representations.
Proof.
  induction data as [|item data IH]; intros Hchild; [by exists []|].
  destruct (Hchild item) as [r Hr]; [left|].
  destruct IH as [rs Hrs]; [intros x Hx; apply Hchild; by right|].
  exists (r :: rs). simpl. unfold mbind, Q_bind. by rewrite Hr, Hrs.
Qed.

Lemma to_representation_returns (db : DB) (request : Request)
    (instance : Recipe.t) :
  NoDup (CustomUser.id <$> users db) →
  NoDup (Ingredient.id <$> ingredients db) →
  ∃ author ingredients,
    Recipe_author instance db = Return author
    ∧ RecipeSerializer_to_representation request instance db
      = Return
          (RecipeRepresentation.mk (Recipe.id instance)
             (TagSerializer <$> tags_all db instance)
             (CustomUserSerializer db request <$> author)
             ingredients
             (get_is_favorited db request instance)
             (get_is_in_shopping_cart db request instance)
             (Recipe.name instance)
             (FileField_to_representation (Some request)
                (Recipe.image instance))
             (Recipe.text instance) (Recipe.cooking_time instance)).
Proof.
  intros Husers Hing.
  destruct (Recipe_author_total db instance Husers) as [author Hauthor].
  destruct (to_representation_many_total
              IngredientRecipeSerializer_to_representation db
              (ingredientrecipe_set db instance)) as [rows Hrows].
  { intros row _. unfold IngredientRecipeSerializer_to_representation.
    destruct (get_attribute_total Ingredient.id ingredients db
                (IngredientRecipe.ingredient row) Hing) as [o Ho].
    unfold mbind, Q_bind. rewrite Ho. by eexists. }
  exists author, rows. split; [done|].
  unfold RecipeSerializer_to_representation. by rewrite Hauthor, Hrows.
Qed.

(** C6.  With primary keys unique a recipe is serialized, and in what
    [RecipeSerializer] returns for an anonymous viewer [is_favorited] and
    [is_in_shopping_cart] are false, while for an authenticated viewer
    each flag is true exactly when the table holds a row for (recipe,
    viewer); the two method fields give these values. *)
Theorem recipe_flags_follow_membership (db : DB) (request : Request)
    (obj : Recipe.t) :
  let favorited user :=
    Membership.mk (Recipe.id obj) (CustomUser.id user) ∈ favorites db in
  let in_shopping_cart user :=
    Membership.mk (Recipe.id obj) (CustomUser.id user)
    ∈ shopping_carts db in
  (NoDup (CustomUser.id <$> users db) →
   NoDup (Ingredient.id <$> ingredients db) →
   ∃ representation,
     RecipeSerializer_to_representation request obj db
     = Return representation)
  ∧ (∀ representation,
       RecipeSerializer_to_representation request obj db
       = Return representation →
       match request_user request with
       | None =>
           RecipeRepresentation.is_favorited representation = false
           ∧ RecipeRepresentation.is_in_shopping_cart representation = false
       | Some user =>
           (RecipeRepresentation.is_favorited representation = true
            ↔ favorited user)
           ∧ (RecipeRepresentation.is_in_shopping_cart representation = true
              ↔ in_shopping_cart user)
       end)
  ∧ match request_user request with
    | None =>
        get_is_favorited db request obj = false
        ∧ get_is_in_shopping_cart db request obj = false
    | Some user =>
        (get_is_favorited db request obj = true ↔ favorited user)
        ∧ (get_is_in_shopping_cart db request obj = true
           ↔ in_shopping_cart user)
    end.
Proof.
  intros favorited in_shopping_cart.
  assert (match request_user request with
          | None =>
              get_is_favorited db request obj = false
              ∧ get_is_in_shopping_cart db request obj = false
          | Some user =>
              (get_is_favorited db request obj = true ↔ favorited user)
              ∧ (get_is_in_shopping_cart db request obj = true
                 ↔ in_shopping_cart user)
          end) as Hflags.
  { unfold get_is_favorited, get_is_in_shopping_cart.
    destruct (request_user request) as [user|]; [|done].
    unfold favorited, in_shopping_cart. rewrite !exists_true. split; split.
    - intros ([r u] & Hin & Hu).
      apply list_elem_of_filter in Hin as [Hr Hin]. simpl in *. by subst.
    - intros Hin. exists (Membership.mk (Recipe.id obj) (CustomUser.id user)).
      split; [|done]. by apply list_elem_of_filter.
    - intros ([r u] & Hin & Hu).
      apply list_elem_of_filter in Hin as [Hr Hin]. simpl in *. by subst.
    - intros Hin. exists (Membership.mk (Recipe.id obj) (CustomUser.id user)).
      split; [|done]. by apply list_elem_of_filter. }
  split_and!; [| |exact Hflags].
  - intros Husers Hingredients.
    destruct (to_representation_returns db request obj Husers Hingredients)
      as (author & ingredients & _ & E).
    by eexists.
  - intros representation E. unfold RecipeSerializer_to_representation in E.
    destruct (Recipe_author obj db) as [author|]; [|done].
    destruct (to_representation_many _ _ db) as [ingredients|]; [|done].
    injection E as <-. exact Hflags.
Qed.

Lemma recipe_flags_follow_membership_witness :
  ∃ representation,
    RecipeSerializer_to_representation (mkRequest GET (Some alice) ∅)
      (Recipe.mk 2 "B" "b.png" "Stir." 7 (Some 2)) cart_db
    = Return representation
    ∧ RecipeRepresentation.is_favorited representation = false
    ∧ RecipeRepresentation.is_in_shopping_cart representation = true.
Proof.
  destruct (recipe_flags_follow_membership cart_db
              (mkRequest GET (Some alice) ∅)
              (Recipe.mk 2 "B" "b.png" "Stir." 7 (Some 2)))
    as (Hreturns & Hflags & _).
  destruct Hreturns as [representation E].
  - simpl. repeat (apply NoDup_cons; split;
      [rewrite ?elem_of_cons, elem_of_nil; intros H;
       repeat destruct H as [H|H]; discriminate || done|]).
    apply NoDup_nil_2.
  - simpl. repeat (apply NoDup_cons; split;
      [rewrite ?elem_of_cons, elem_of_nil; intros H;
       repeat destruct H as [H|H]; discriminate || done|]).
    apply NoDup_nil_2.
  - exists representation. split; [exact E|].
    destruct (Hflags representation E) as [Hfavorited Hcart]. split.
    + destruct (RecipeRepresentation.is_favorited representation); [|done].
      destruct Hfavorited as [Hin _]. specialize (Hin eq_refl).
      simpl in Hin. by apply elem_of_nil in Hin.
    + apply Hcart. simpl. rewrite !elem_of_cons. tauto.
Defined.

(** * Further properties of the views and serializers *)

(** ** Toggles: the success paths and their round trips *)

Lemma filter_ne_snoc {A} `{EqDecision A} (rows : list A) (x : A) :
  x ∉ rows → filter (λ y, y ≠ x) (rows ++ [x]) = rows.
Proof.
  intros Hx. rewrite filter_app, filter_cons_False, filter_nil, app_nil_r
    by (intros Hne; by apply Hne).
  induction rows as [|y rows IH]; [done|].
  apply not_elem_of_cons in Hx as [Hne Hx].
  rewrite filter_cons_True by done. f_equal. by apply IH.
Qed.

Lemma set_objects_remove_added (model : MembershipModel) (db : DB)
    (row : Membership.t) :
  row ∉ objects model db →
  set_objects model (filter (λ r, r ≠ row))
    (set_objects model (λ rows, rows ++ [row]) db) = db.
Proof.
  intros Hrow. destruct db, model; unfold set_objects, set_favorites,
    set_shopping_carts; simpl in *; by rewrite filter_ne_snoc.
Qed.

Lemma membership_post_absent (model : MembershipModel) (db : DB)
    (recipe : Recipe.t) (user : CustomUser.t)
    (query_params : gmap string string) :
  get (λ r, Recipe.id r = Recipe.id recipe) recipes db = Return recipe →
  Membership.mk (Recipe.id recipe) (CustomUser.id user) ∉ objects model db →
  membership_action model (mkRequest POST (Some user) query_params)
    (Recipe.id recipe) db
  = (set_objects model
       (λ rows, rows ++ [Membership.mk (Recipe.id recipe)
                           (CustomUser.id user)]) db,
     Return 201).
Proof.
  intros Hget Hnot. destruct (membership_absent _ recipe user Hnot) as [_ He].
  unfold membership_action, serialize_obj, add_obj,
    RecipeMinifiedSerializer_validate, Membership_objects_create. run.
  rewrite Hget, He. simpl. by rewrite decide_False.
Qed.

Lemma membership_delete_present (model : MembershipModel) (db : DB)
    (recipe : Recipe.t) (user : CustomUser.t)
    (query_params : gmap string string) :
  get (λ r, Recipe.id r = Recipe.id recipe) recipes db = Return recipe →
  NoDup (objects model db) →
  Membership.mk (Recipe.id recipe) (CustomUser.id user) ∈ objects model db →
  membership_action model (mkRequest DELETE (Some user) query_params)
    (Recipe.id recipe) db
  = (set_objects model
       (filter (λ r, r ≠ Membership.mk (Recipe.id recipe)
                           (CustomUser.id user))) db,
     Return 204).
Proof.
  intros Hget Hnd Hin.
  unfold membership_action, serialize_obj, del_obj,
    RecipeMinifiedSerializer_validate, Membership_delete. run.
  rewrite Hget. unfold get.
  rewrite (membership_single _ _ _ Hnd Hin). simpl. unfold get.
  by rewrite (membership_single _ _ _ Hnd Hin).
Qed.

(** X1.  Adding a recipe to the favorites (or the cart) of a user and
    then removing it gives back the database as it was before the add:
    the removal is answered 204 and no trace of the pair is left. *)
Theorem membership_add_then_remove (model : MembershipModel) (db : DB)
    (recipe : Recipe.t) (user : CustomUser.t)
    (query_params query_params' : gmap string string) :
  filter (λ r, Recipe.id r = Recipe.id recipe) (recipes db) = [recipe] →
  NoDup (objects model db) →
  Membership.mk (Recipe.id recipe) (CustomUser.id user) ∉ objects model db →
  let post := mkRequest POST (Some user) query_params in
  let delete := mkRequest DELETE (Some user) query_params' in
  let added := (membership_action model post (Recipe.id recipe) db).1 in
  (membership_action model post (Recipe.id recipe) db).2 = Return 201
  ∧ respond (membership_action model delete (Recipe.id recipe)) added
    = (db, 204).
Proof.
  intros Hrecipe Hnd Hnot post delete added.
  assert (get (λ r, Recipe.id r = Recipe.id recipe) recipes db
          = Return recipe) as Hget by (by apply get_Return).
  unfold added, post. rewrite (membership_post_absent _ _ _ _ _ Hget Hnot).
  split; [done|]. simpl. unfold respond, delete.
  rewrite membership_delete_present.
  - by rewrite set_objects_remove_added.
  - apply get_Return. by rewrite recipes_set_objects.
  - rewrite objects_set_objects. by apply NoDup_snoc.
  - rewrite objects_set_objects. apply elem_of_app. right. left.
Qed.

Lemma membership_add_then_remove_witness :
  respond (shopping_cart (mkRequest DELETE (Some bob) ∅) 1)
    (shopping_cart (mkRequest POST (Some bob) ∅) 1 cart_db).1
  = (cart_db, 204).
Proof.
  apply (membership_add_then_remove ShoppingCart cart_db
           (Recipe.mk 1 "A" "a.png" "Mix." 5 (Some 2)) bob ∅ ∅ eq_refl).
  - simpl. repeat (apply NoDup_cons; split;
      [rewrite ?elem_of_cons, elem_of_nil; intros H;
       repeat destruct H as [H|H]; discriminate || done|]).
    apply NoDup_nil_2.
  - simpl. rewrite !elem_of_cons, elem_of_nil. intros H.
    repeat destruct H as [H|H]; discriminate || done.
Defined.


Lemma subscription_single (rows : list Subscribe.t)
    (author follower : CustomUser.t) :
  NoDup rows →
  Subscribe.mk (CustomUser.id author) (CustomUser.id follower) ∈ rows →
  filter (subscription_of author follower) rows
    = [Subscribe.mk (CustomUser.id author) (CustomUser.id follower)].
Proof.
  intros Hnd Hin. apply filter_single_match; [done|done|done|].
  intros [a f] _ [Ha Hf]. simpl in *. by subst.
Qed.




(** ** The shopping list: edge case and conservation *)

Lemma append_empty_r (s : string) : s +:+ "" = s.
Proof.
  induction s as [|c s IH]; [done|].
  change (String c (s +:+ "") = String c s). by rewrite IH.
Qed.

Lemma joined_rows_no_cart (db : DB) (user : CustomUser.t) :
  (∀ row, row ∈ shopping_carts db →
          Membership.user row ≠ CustomUser.id user) →
  joined_rows db user = [].
Proof.
  intros Hno. unfold joined_rows.
  induction (ingredientrecipes db) as [|row rows IH]; [done|].
  csimpl. rewrite IH, app_nil_r.
  rewrite (proj2 (filter_none _ (shopping_carts db))); [done|].
  intros cart Hcart [_ Huser]. by apply (Hno cart).
Qed.

(** X3.  For a user with no row in the shopping-cart table the
    downloaded text is the header alone, whatever the carts of the other
    users hold. *)
Theorem shopping_list_of_empty_cart (engine : Engine) (db : DB)
    (user : CustomUser.t) :
  (∀ row, row ∈ shopping_carts db →
          Membership.user row ≠ CustomUser.id user) →
  ingredients_queryset engine db user = []
  ∧ generate_shopping_cart engine db user = shopping_cart_header.
Proof.
  intros Hno. unfold generate_shopping_cart, ingredients_queryset.
  rewrite (joined_rows_no_cart db user Hno).
  pose proof (group_order_permutes engine (group_by_sum [])) as Hperm.
  apply Permutation_nil_r in Hperm. rewrite Hperm. split; [done|].
  simpl. apply append_empty_r.
Qed.

Lemma shopping_list_of_empty_cart_witness :
  generate_shopping_cart last_formed_first
    (set_shopping_carts (λ _, [Membership.mk 2 2]) cart_db) alice
  = shopping_cart_header.
Proof.
  apply (shopping_list_of_empty_cart last_formed_first
           (set_shopping_carts (λ _, [Membership.mk 2 2]) cart_db) alice).
  intros row Hrow. apply list_elem_of_singleton in Hrow. subst row.
  discriminate.
Defined.

Lemma add_to_group_sum (row : CartLine.t) (groups : list CartLine.t) :
  sum_amounts (add_to_group row groups)
  = sum_amounts groups + CartLine.total_amount row.
Proof.
  induction groups as [|group rest IH]; simpl; [lia|].
  destruct (decide (CartLine.key group = CartLine.key row)); simpl; lia.
Qed.

Lemma add_to_group_length (row : CartLine.t) (groups : list CartLine.t) :
  (length (add_to_group row groups) ≤ S (length groups))%nat.
Proof.
  induction groups as [|group rest IH]; simpl; [lia|].
  destruct (decide (CartLine.key group = CartLine.key row)); simpl; lia.
Qed.

Lemma group_by_sum_conserves (rows acc : list CartLine.t) :
  let groups := foldl (λ groups row, add_to_group row groups) acc rows in
  sum_amounts groups = sum_amounts acc + sum_amounts rows
  ∧ (length groups ≤ length acc + length rows)%nat.
Proof.
  revert acc. induction rows as [|row rows IH]; intros acc; simpl.
  - split; lia.
  - destruct (IH (add_to_group row acc)) as [Hsum Hlen].
    pose proof (add_to_group_length row acc).
    rewrite add_to_group_sum in Hsum. split; lia.
Qed.

(** X4.  Grouping loses nothing and invents nothing: under the unique
    constraint of the cart, the totals on the list add up to the sum of
    the amounts of all join rows of the recipes in the user's cart, and
    the list has at most one line per such row. *)
Theorem shopping_list_conserves_amounts (engine : Engine) (db : DB)
    (user : CustomUser.t) :
  NoDup (shopping_carts db) →
  sum_amounts (ingredients_queryset engine db user)
    = sum_amounts (cart_rows db user)
  ∧ (length (ingredients_queryset engine db user)
     ≤ length (cart_rows db user))%nat.
Proof.
  intros Hnd. unfold ingredients_queryset, group_by_sum.
  pose proof (group_order_permutes engine
                (foldl (λ groups row, add_to_group row groups) []
                   (joined_rows db user))) as Hperm.
  rewrite (sum_amounts_Permutation _ _ Hperm), (Permutation_length Hperm).
  rewrite (joined_rows_cart_rows db user Hnd).
  destruct (group_by_sum_conserves (cart_rows db user) []) as [Hsum Hlen].
  simpl in *. split; lia.
Qed.

Lemma shopping_list_conserves_amounts_witness :
  sum_amounts (ingredients_queryset last_formed_first cart_db alice) = 6.
Proof.
  transitivity (sum_amounts (cart_rows cart_db alice)); [|reflexivity].
  apply (shopping_list_conserves_amounts last_formed_first cart_db alice).
  simpl. repeat (apply NoDup_cons; split;
    [rewrite ?elem_of_cons, elem_of_nil; intros H;
     repeat destruct H as [H|H]; discriminate || done|]).
  apply NoDup_nil_2.
Defined.

(** ** What validation accepts *)

Lemma get_by_key_Return {A} (pk : A → Z) (table : DB → list A) (db : DB)
    (obj : A) :
  NoDup (pk <$> table db) → obj ∈ table db →
  get (λ row, pk row = pk obj) table db = Return obj.
Proof.
  intros Hnd Hin.
  pose proof (filter_by_key_length pk (table db) (pk obj) Hnd) as Hlen.
  assert (obj ∈ filter (λ row, pk row = pk obj) (table db)) as Hobj.
  { by apply list_elem_of_filter. }
  unfold get. destruct (filter _ (table db)) as [|y [|z l]].
  - by apply elem_of_nil in Hobj.
  - apply list_elem_of_singleton in Hobj. by subst.
  - simpl in Hlen. lia.
Qed.

Lemma PrimaryKeyRelatedField_found {A} (pk : A → Z)
    (queryset : DB → list A) (db : DB) (x : Z) :
  NoDup (pk <$> queryset db) → x ∈ pk <$> queryset db →
  ∃ obj, PrimaryKeyRelatedField pk queryset x db = Return obj
         ∧ obj ∈ queryset db ∧ pk obj = x.
Proof.
  intros Hnd Hx. apply list_elem_of_fmap in Hx as (obj & -> & Hobj).
  exists obj. split; [|done]. unfold PrimaryKeyRelatedField. run.
  by rewrite (get_by_key_Return pk queryset db obj Hnd Hobj).
Qed.

Lemma ManyRelatedField_found {A} (pk : A → Z) (queryset : DB → list A)
    (data : list Z) (db : DB) :
  NoDup (pk <$> queryset db) →
  (∀ x, x ∈ data → x ∈ pk <$> queryset db) →
  ∃ objs, ManyRelatedField (PrimaryKeyRelatedField pk queryset) data db
            = Return objs.
Proof.
  intros Hnd. induction data as [|x rest IH]; intros Hall.
  - by exists [].
  - destruct (PrimaryKeyRelatedField_found pk queryset db x Hnd)
      as (obj & Hobj & _); [apply Hall; left|].
    destruct IH as [objs Hobjs]; [intros y Hy; apply Hall; by right|].
    exists (obj :: objs). simpl. run. by rewrite Hobj, Hobjs.
Qed.

Lemma ManyRelatedField_elem {A} (pk : A → Z) (queryset : DB → list A)
    (data : list Z) (db : DB) (objs : list A) :
  ManyRelatedField (PrimaryKeyRelatedField pk queryset) data db
    = Return objs →
  ∀ obj, obj ∈ objs → obj ∈ queryset db.
Proof.
  revert objs. induction data as [|x rest IH]; intros objs.
  - simpl. run. intros E obj Hobj. simplify_eq. by apply elem_of_nil in Hobj.
  - simpl. run.
    destruct (PrimaryKeyRelatedField pk queryset x db) as [o|] eqn:Ho;
      [|done].
    destruct (ManyRelatedField _ rest db) as [objs'|] eqn:Hobjs; [|done].
    intros E obj Hobj. simplify_eq.
    apply elem_of_cons in Hobj as [->|Hobj].
    + by apply PrimaryKeyRelatedField_Return in Ho as [? _].
    + by apply (IH objs').
Qed.

Lemma tags_field_Return (platform : Platform) (data : list Z) (db : DB)
    (value : list Tag.t) :
  tags_field platform data db = Return value →
  data ≠ [] ∧ NoDup data
  ∧ Tag.id <$> value = data ∧ ∀ tag, tag ∈ value → tag ∈ tags db.
Proof.
  unfold tags_field. run.
  destruct (ManyRelatedField _ data db) as [objs|] eqn:Hobjs; [|done].
  pose proof (ManyRelatedField_Return _ _ _ _ _ Hobjs) as Hids.
  pose proof (ManyRelatedField_elem _ _ _ _ _ Hobjs) as Helem.
  unfold validate_tags. destruct objs as [|tag rest]; [done|].
  destruct (validate_tags_loop_cases platform (tag :: rest) ∅)
    as [(E & Hnd & _)|[detail E]]; rewrite E; [|done].
  intros H. simplify_eq. by split_and!.
Qed.

Lemma validate_tags_loop_NoDup (platform : Platform)
    (tags_data : list Tag.t) (seen : gset Z) :
  NoDup (Tag.id <$> tags_data) →
  (∀ x, x ∈ Tag.id <$> tags_data → x ∉ seen) →
  validate_tags_loop platform tags_data seen = Return ().
Proof.
  revert seen. induction tags_data as [|t l IH]; intros seen Hnd Hseen;
    [done|].
  simpl. rewrite fmap_cons, NoDup_cons in Hnd. destruct Hnd as [Ht Hl].
  rewrite decide_False by (apply Hseen; left).
  apply IH; [done|]. intros x Hx. apply not_elem_of_union. split.
  - intros Hxt. apply elem_of_singleton in Hxt. by subst.
  - apply Hseen. by right.
Qed.

Lemma tags_field_accepts (platform : Platform) (data : list Z) (db : DB) :
  primary_keys db →
  data ≠ [] → NoDup data → (∀ x, x ∈ data → x ∈ Tag.id <$> tags db) →
  ∃ value, tags_field platform data db = Return value.
Proof.
  intros [Hpk _] Hne Hnd Hall.
  destruct (ManyRelatedField_found Tag.id tags data db Hpk Hall)
    as [objs Hobjs].
  pose proof (ManyRelatedField_Return _ _ _ _ _ Hobjs) as Hids.
  exists objs. unfold tags_field. run. rewrite Hobjs.
  unfold validate_tags. destruct objs as [|tag rest].
  { by destruct data. }
  rewrite validate_tags_loop_NoDup; [done| |].
  - by rewrite Hids.
  - intros x _. apply not_elem_of_empty.
Qed.

Lemma IngredientRecipeSerializer_accepts (item : IngredientItem.t) (db : DB) :
  primary_keys db →
  IngredientItem.id item ∈ Ingredient.id <$> ingredients db →
  1 ≤ IngredientItem.amount item →
  ∃ v, IngredientRecipeSerializer item db = Return v.
Proof.
  intros [_ Hpk] Hid Hamt.
  destruct (PrimaryKeyRelatedField_found Ingredient.id ingredients db
              (IngredientItem.id item) Hpk Hid) as (i & Hi & _).
  eexists. unfold IngredientRecipeSerializer, MinValueValidator, collect.
  run. rewrite Hi. simpl. rewrite decide_False by lia. done.
Qed.

Lemma ListSerializer_accepts {A B} (child : A → Q B) (data : list A)
    (db : DB) :
  (∀ item, item ∈ data → ∃ v, child item db = Return v) →
  ∃ vs, ListSerializer child data db = Return vs.
Proof.
  induction data as [|item rest IH]; intros Hall; [by exists []|].
  destruct (Hall item) as [v Hv]; [left|].
  destruct IH as [vs Hvs]; [intros y Hy; apply Hall; by right|].
  exists (v :: vs). simpl. unfold collect. run. by rewrite Hv, Hvs.
Qed.

Lemma validate_ingredients_loop_accepts (db : DB)
    (value : list IngredientData.t) :
  Forall (resolved db) value →
  NoDup (Ingredient.id ∘ IngredientData.ingredient <$> value) →
  Forall (λ d, 1 ≤ IngredientData.amount d) value →
  ∀ (seen : gset Z) (acc : list IngredientData.t),
    (∀ x, x ∈ (Ingredient.id ∘ IngredientData.ingredient <$> value) →
          x ∉ seen) →
    validate_ingredients_loop value seen acc db = Return (acc ++ value).
Proof.
  induction 1 as [|d rest Hd Hrest IH]; intros Hnd Hamt seen acc Hseen.
  - simpl. run. by rewrite app_nil_r.
  - rewrite fmap_cons, NoDup_cons in Hnd. destruct Hnd as [Hd' Hnd].
    apply Forall_cons in Hamt as [Hamt Hamts].
    simpl. run. unfold resolved in Hd. rewrite Hd.
    rewrite decide_False by (apply Hseen; left).
    rewrite decide_False by lia.
    rewrite IH; [|done|done|].
    + destruct d. simpl. by rewrite <- app_assoc.
    + intros x Hx. apply not_elem_of_union. split.
      * intros Hxd. apply elem_of_singleton in Hxd. by subst.
      * apply Hseen. by right.
Qed.

Lemma ListSerializer_items (data : list IngredientItem.t) (db : DB)
    (value : list IngredientData.t) :
  ListSerializer IngredientRecipeSerializer data db = Return value →
  Forall2
    (λ item d,
       IngredientData.ingredient d ∈ ingredients db
       ∧ Ingredient.id (IngredientData.ingredient d) = IngredientItem.id item
       ∧ IngredientData.amount d = IngredientItem.amount item)
    data value
  ∧ Forall (resolved db) value
  ∧ Forall (λ d, 1 ≤ IngredientData.amount d) value
  ∧ Ingredient.id ∘ IngredientData.ingredient <$> value
    = IngredientItem.id <$> data.
Proof.
  intros Hlist. apply ListSerializer_Return in Hlist.
  induction Hlist as [|item v items vs Hv _ (IH1 & IH2 & IH3 & IH4)].
  - split_and!; constructor.
  - apply IngredientRecipeSerializer_Return in Hv as (Hget & Hid & Ha & Hge).
    destruct (get_Return_elem _ _ _ _ Hget) as [Hin _].
    split_and!; try (constructor; [|done]).
    + done.
    + unfold resolved. by rewrite Hid.
    + lia.
    + rewrite !fmap_cons, IH4. simpl. by rewrite Hid.
Qed.

Lemma ingredients_field_Return (data : list IngredientItem.t) (db : DB)
    (value : list IngredientData.t) :
  primary_keys db →
  ingredients_field data db = Return value →
  data ≠ [] ∧ NoDup (IngredientItem.id <$> data)
  ∧ Forall2
      (λ item d,
         IngredientData.ingredient d ∈ ingredients db
         ∧ Ingredient.id (IngredientData.ingredient d) = IngredientItem.id item
         ∧ IngredientData.amount d = IngredientItem.amount item)
      data value
  ∧ ∀ item, item ∈ data → 1 ≤ IngredientItem.amount item.
Proof.
  intros Hpk. unfold ingredients_field. run.
  destruct (ListSerializer _ data db) as [value0|] eqn:Hlist; [|done].
  destruct (ListSerializer_items _ _ _ Hlist) as (Hf2 & Hres & Hamt & Hids).
  unfold validate_ingredients. destruct value0 as [|d rest]; [done|].
  destruct (validate_ingredients_loop_cases db (d :: rest) ∅ [] Hpk)
    as [(r & E & Hnd)|[detail E]]; [|by rewrite E].
  rewrite (validate_ingredients_loop_accepts db (d :: rest) Hres Hnd Hamt)
    by (intros x _; apply not_elem_of_empty).
  simpl. intros H. simplify_eq. rewrite Hids in Hnd.
  split_and!; try done.
  - intros ->. by apply Forall2_nil_inv_l in Hf2.
  - intros item Hin.
    destruct (proj1 (list_elem_of_lookup _ _) Hin) as [k Hk].
    destruct (Forall2_lookup_l _ _ _ _ _ Hf2 Hk) as (v & Hv & _ & _ & Ha).
    rewrite <- Ha.
    rewrite Forall_forall in Hamt. apply Hamt.
    by apply list_elem_of_lookup_2 in Hv.
Qed.

Lemma ingredients_field_accepts (data : list IngredientItem.t) (db : DB) :
  primary_keys db →
  data ≠ [] → NoDup (IngredientItem.id <$> data) →
  (∀ item, item ∈ data →
     IngredientItem.id item ∈ Ingredient.id <$> ingredients db
     ∧ 1 ≤ IngredientItem.amount item) →
  ∃ value, ingredients_field data db = Return value.
Proof.
  intros Hpk Hne Hnd Hall.
  destruct (ListSerializer_accepts IngredientRecipeSerializer data db)
    as [value Hlist].
  { intros item Hin. destruct (Hall item Hin).
    by apply IngredientRecipeSerializer_accepts. }
  destruct (ListSerializer_items _ _ _ Hlist) as (Hf2 & Hres & Hamt & Hids).
  exists value. unfold ingredients_field. run. rewrite Hlist.
  unfold validate_ingredients. destruct value as [|d rest].
  { apply Forall2_nil_inv_r in Hf2. done. }
  rewrite (validate_ingredients_loop_accepts db (d :: rest));
    first [done | by rewrite Hids | intros x _; apply not_elem_of_empty].
Qed.

Lemma run_validation_Return (platform : Platform)
    (instance : option Recipe.t) (data : RecipePayload.t) (db : DB)
    (validated_data : ValidatedData.t) :
  RecipeSerializer_run_validation platform instance data db
    = Return validated_data
  ↔ tags_field platform (RecipePayload.tags data) db
      = Return (ValidatedData.tags validated_data)
    ∧ ingredients_field (RecipePayload.ingredients data) db
      = Return (ValidatedData.ingredientrecipe_set validated_data)
    ∧ name_field platform instance (RecipePayload.name data) db
      = Return (ValidatedData.name validated_data)
    ∧ image_field platform (RecipePayload.image data) db
      = Return (ValidatedData.image validated_data)
    ∧ text_field platform (RecipePayload.text data) db
      = Return (ValidatedData.text validated_data)
    ∧ cooking_time_field (RecipePayload.cooking_time data) db
      = Return (ValidatedData.cooking_time validated_data).
Proof.
  unfold RecipeSerializer_run_validation, collect. run. split.
  - destruct (tags_field platform _ db) as [t|[]]; try done;
      destruct (ingredients_field _ db) as [i|[]]; try done;
      destruct (name_field _ _ _ db) as [n|[]]; try done;
      destruct (image_field _ _ db) as [m|[]]; try done;
      destruct (text_field _ _ db) as [x|[]]; try done;
      destruct (cooking_time_field _ db) as [c|[]]; try done.
    intros E. by simplify_eq.
  - intros (-> & -> & -> & -> & -> & ->). by destruct validated_data.
Qed.

Lemma UniqueValidator_passes (instance : option Recipe.t) (value : string)
    (db : DB) :
  UniqueValidator instance value db = Return []
  ↔ ∀ r, r ∈ recipes db → Recipe.name r = value →
      ∃ obj, instance = Some obj ∧ Recipe.id r = Recipe.id obj.
Proof.
  unfold UniqueValidator. destruct (exists_ _ _) eqn:E.
  - split; [done|]. intros Hfree. exfalso.
    apply exists_true in E as (r & Hr & Hname).
    destruct instance as [obj|].
    + apply list_elem_of_filter in Hr as [Hne Hr].
      destruct (Hfree r Hr Hname) as (obj' & Hobj & Hid). by simplify_eq.
    + by destruct (Hfree r Hr Hname) as (obj' & Hobj & _).
  - split; [|done]. intros _ r Hr Hname.
    pose proof (proj1 (exists_false _ _) E) as Hnone.
    destruct instance as [obj|].
    + exists obj. split; [done|].
      destruct (decide (Recipe.id r = Recipe.id obj)) as [|Hne]; [done|].
      exfalso. apply (Hnone r); [|done]. by apply list_elem_of_filter.
    + by destruct (Hnone r Hr).
Qed.

Lemma MaxLengthValidator_passes (platform : Platform) (limit_value : Z)
    (value : string) (db : DB) :
  MaxLengthValidator platform limit_value value db = Return []
  ↔ len platform value ≤ limit_value.
Proof.
  unfold MaxLengthValidator. destruct (decide _); split; try done; lia.
Qed.

Lemma name_field_Return (platform : Platform) (instance : option Recipe.t)
    (data : string) (db : DB) (name : string) :
  name_field platform instance data db = Return name
  ↔ name = strip platform data
    ∧ good_text platform data
    ∧ len platform (strip platform data) ≤ 200
    ∧ ∀ r, r ∈ recipes db → Recipe.name r = strip platform data →
        ∃ obj, instance = Some obj ∧ Recipe.id r = Recipe.id obj.
Proof.
  unfold name_field, CharField, good_text.
  destruct (decide (_ ∨ _)) as [Hblank|Hfull].
  { split; [done|]. intros (_ & (? & ? & _) & _). tauto. }
  destruct (run_validators_cases _ (strip platform data) db
              (name_validators_return platform instance _ db))
    as [[-> Hpass]|[[detail ->] Hfail]].
  - apply Forall_cons in Hpass as [Hunique Hpass].
    apply Forall_cons in Hpass as [Hlength Hpass].
    apply Forall_cons in Hpass as [Hchars _].
    pose proof (proj1 (UniqueValidator_passes _ _ _) Hunique) as Hfree.
    apply MaxLengthValidator_passes in Hlength.
    injection Hchars as Hchars.
    split; [|by intros [-> _]].
    intros E. injection E as <-. split_and!; try done.
    all: intros ?; apply Hfull; tauto.
  - split; [done|]. intros (_ & (_ & _ & Hchars) & Hlength & Hunique).
    destruct Hfail. repeat constructor.
    + by apply UniqueValidator_passes.
    + by apply MaxLengthValidator_passes.
    + unfold character_validators, mret, Q_ret. by rewrite Hchars.
Qed.

Lemma text_field_Return (platform : Platform) (data : string) (db : DB)
    (text : string) :
  text_field platform data db = Return text
  ↔ text = strip platform data ∧ good_text platform data.
Proof.
  unfold text_field, CharField, good_text.
  destruct (decide (_ ∨ _)) as [Hblank|Hfull].
  { split; [done|]. intros (_ & ? & ? & _). tauto. }
  destruct (run_validators_cases _ (strip platform data) db
              (text_validators_return platform _ db))
    as [[-> Hpass]|[[detail ->] Hfail]].
  - apply Forall_cons in Hpass as [Hchars _]. injection Hchars as Hchars.
    split; [|by intros [-> _]].
    intros E. injection E as <-. split_and!; try done.
    all: intros ?; apply Hfull; tauto.
  - split; [done|]. intros (_ & _ & _ & Hchars).
    destruct Hfail. repeat constructor.
    unfold character_validators, mret, Q_ret. by rewrite Hchars.
Qed.

Lemma image_field_Return (platform : Platform) (data : option string)
    (db : DB) (file : string) :
  image_field platform data db = Return file
  ↔ ∃ base64_data,
      data = Some base64_data
      ∧ base64_data ≠ ""
      ∧ base64_image platform base64_data = Some file.
Proof.
  unfold image_field, Base64ImageField. run.
  destruct data as [base64_data|].
  2:{ split; [done|]. by intros (? & ? & _). }
  destruct (decide (base64_data = "")) as [->|Hne]; simpl.
  { split; [done|]. intros (? & ? & ? & _). by simplify_eq. }
  destruct (base64_image platform base64_data) as [f|] eqn:E; simpl.
  - split.
    + intros H. injection H as <-. by exists base64_data.
    + intros (? & ? & _ & ?). by simplify_eq.
  - split; [done|]. intros (? & ? & _ & ?). by simplify_eq.
Qed.

Lemma cooking_time_field_Return (data : Z) (db : DB) (cooking_time : Z) :
  cooking_time_field data db = Return cooking_time
  ↔ cooking_time = data ∧ 1 ≤ data.
Proof.
  unfold cooking_time_field, pure, validate_cooking_time, MIN_COOKING_TIME.
  destruct (decide _); split; try done.
  - intros [_ ?]. lia.
  - intros E. injection E as <-. split; [done|lia].
  - by intros [-> _].
Qed.

Lemma run_validation_sound (platform : Platform) (db : DB)
    (instance : option Recipe.t) (data : RecipePayload.t)
    (validated_data : ValidatedData.t) :
  primary_keys db →
  RecipeSerializer_run_validation platform instance data db
    = Return validated_data →
  good_payload platform instance db data
  ∧ resolves platform db data validated_data.
Proof.
  intros Hpk Hvd.
  apply run_validation_Return in Hvd as (Ht & Hi & Hn & Hm & Hx & Hc).
  apply tags_field_Return in Ht as (Ht1 & Ht2 & Ht3 & Ht4).
  apply (ingredients_field_Return _ _ _ Hpk) in Hi as (Hi1 & Hi2 & Hi3 & Hi4).
  apply name_field_Return in Hn as (Hn1 & Hn2 & Hn3 & Hn4).
  apply image_field_Return in Hm as (base64_data & Hm1 & Hm2 & Hm3).
  apply text_field_Return in Hx as (Hx1 & Hx2).
  apply cooking_time_field_Return in Hc as (Hc1 & Hc2).
  split.
  - unfold good_payload. split_and!; try done.
    + intros tag_id Htag. rewrite <- Ht3 in Htag.
      apply list_elem_of_fmap in Htag as (tag & -> & Htag).
      apply list_elem_of_fmap_2. by apply Ht4.
    + intros item Hin. split; [|by apply Hi4].
      destruct (proj1 (list_elem_of_lookup _ _) Hin) as [k Hk].
      destruct (Forall2_lookup_l _ _ _ _ _ Hi3 Hk)
        as (v & _ & Hv & Hid & _).
      rewrite <- Hid. by apply list_elem_of_fmap_2.
    + by exists base64_data, (ValidatedData.image validated_data).
  - unfold resolves. split_and!; try done. by rewrite Hm1.
Qed.

Lemma run_validation_complete (platform : Platform) (db : DB)
    (instance : option Recipe.t) (data : RecipePayload.t) :
  primary_keys db →
  good_payload platform instance db data →
  ∃ validated_data,
    RecipeSerializer_run_validation platform instance data db
    = Return validated_data.
Proof.
  intros Hpk ((Ht1 & Ht2 & Ht3) & (Hi1 & Hi2 & Hi3) & (Hn1 & Hn2 & Hn3)
              & (base64_data & file & Hm1 & Hm2 & Hm3) & Hx & Hc).
  destruct (tags_field_accepts platform _ db Hpk Ht1 Ht2 Ht3) as [t Ht].
  destruct (ingredients_field_accepts _ db Hpk Hi1 Hi2 Hi3) as [i Hi].
  exists (ValidatedData.mk t i (strip platform (RecipePayload.name data)) file
            (strip platform (RecipePayload.text data))
            (RecipePayload.cooking_time data)).
  apply run_validation_Return. simpl. split_and!; try done.
  - by apply name_field_Return.
  - apply image_field_Return. by exists base64_data.
  - by apply text_field_Return.
  - by apply cooking_time_field_Return.
Qed.




(** ** Running a loader again *)

Section import_loop.
Context {A : Type} (body : A → M string) (present : A → DB → Prop).
Hypothesis body_returns : ∀ item db, ∃ line, (body item db).2 = Return line.
Hypothesis body_skips : ∀ item db, present item db → (body item db).1 = db.
Hypothesis body_inserts : ∀ item db, present item (body item db).1.
Hypothesis body_keeps :
  ∀ item item' db, present item' db → present item' (body item db).1.

Lemma handle_state (data : list A) (db : DB) :
  (handle body data db).1 = foldl (λ db item, (body item db).1) db data.
Proof.
  destruct (for_each_total body data db body_returns) as (lines & E & _).
  unfold handle. run. by rewrite E.
Qed.

Lemma loop_keeps (data : list A) (item : A) (db : DB) :
  present item db →
  present item (foldl (λ db item, (body item db).1) db data).
Proof.
  revert db. induction data as [|x rest IH]; intros db Hp; [done|].
  simpl. apply IH. by apply body_keeps.
Qed.

Lemma loop_inserts (data : list A) (db : DB) (item : A) :
  item ∈ data →
  present item (foldl (λ db item, (body item db).1) db data).
Proof.
  revert db. induction data as [|x rest IH]; intros db Hin.
  - by apply elem_of_nil in Hin.
  - simpl. apply elem_of_cons in Hin as [->|Hin].
    + apply loop_keeps, body_inserts.
    + by apply IH.
Qed.

Lemma loop_skips (data : list A) (db : DB) :
  (∀ item, item ∈ data → present item db) →
  foldl (λ db item, (body item db).1) db data = db.
Proof.
  induction data as [|x rest IH]; intros Hall; [done|].
  simpl. rewrite body_skips by (apply Hall; left).
  apply IH. intros item Hin. apply Hall. by right.
Qed.

Lemma handle_twice (data : list A) (db : DB) :
  (handle body data (handle body data db).1).1 = (handle body data db).1.
Proof.
  rewrite !handle_state. apply loop_skips. intros item Hin.
  by apply loop_inserts.
Qed.

End import_loop.

Lemma load_ingredient_returns (record : IngredientRecord.t) (db : DB) :
  ∃ line, (load_ingredient record db).2 = Return line.
Proof.
  destruct (load_ingredient_spec record db) as [Hskip Hadd].
  destruct (exists_ (λ row, Ingredient.name row = IngredientRecord.name record)
              (ingredients db)) eqn:E.
  - apply exists_true in E. rewrite (Hskip E). by eexists.
  - rewrite Hadd; [by eexists|]. intros Hex.
    apply (exists_true (λ row, Ingredient.name row = _)) in Hex. congruence.
Qed.

Lemma load_ingredient_state (record : IngredientRecord.t) (db : DB) :
  ((load_ingredient record db).1 = db
   ∧ IngredientRecord.name record ∈ Ingredient.name <$> ingredients db)
  ∨ ((load_ingredient record db).1
     = set_ingredients
         (λ rows, rows ++ [Ingredient.mk
                             (next_id (Ingredient.id <$> ingredients db))
                             (IngredientRecord.name record)
                             (IngredientRecord.measurement_unit record)]) db
     ∧ IngredientRecord.name record ∉ Ingredient.name <$> ingredients db).
Proof.
  destruct (load_ingredient_spec record db) as [Hskip Hadd].
  destruct (decide (IngredientRecord.name record
                    ∈ Ingredient.name <$> ingredients db)) as [Hin|Hnot].
  - left. split; [|done]. rewrite Hskip; [done|].
    apply list_elem_of_fmap in Hin as (row & E & Hrow). eauto.
  - right. split; [|done]. rewrite Hadd; [done|].
    intros (row & Hrow & E). apply Hnot. rewrite <- E.
    by apply list_elem_of_fmap_2.
Qed.

Lemma load_tag_returns (record : TagRecord.t) (db : DB) :
  ∃ line, (load_tag record db).2 = Return line.
Proof.
  destruct (load_tag_spec record db) as [Hskip Hadd].
  destruct (exists_ (λ row, Tag.slug row = TagRecord.slug record) (tags db))
    eqn:E.
  - apply exists_true in E. rewrite (Hskip E). by eexists.
  - rewrite Hadd; [by eexists|]. intros Hex.
    apply (exists_true (λ row, Tag.slug row = _)) in Hex. congruence.
Qed.

Lemma load_tag_state (record : TagRecord.t) (db : DB) :
  ((load_tag record db).1 = db
   ∧ TagRecord.slug record ∈ Tag.slug <$> tags db)
  ∨ ((load_tag record db).1
     = set_tags
         (λ rows, rows ++ [Tag.mk (next_id (Tag.id <$> tags db))
                             (TagRecord.name record) (TagRecord.color record)
                             (TagRecord.slug record)]) db
     ∧ TagRecord.slug record ∉ Tag.slug <$> tags db).
Proof.
  destruct (load_tag_spec record db) as [Hskip Hadd].
  destruct (decide (TagRecord.slug record ∈ Tag.slug <$> tags db))
    as [Hin|Hnot].
  - left. split; [|done]. rewrite Hskip; [done|].
    apply list_elem_of_fmap in Hin as (row & E & Hrow). eauto.
  - right. split; [|done]. rewrite Hadd; [done|].
    intros (row & Hrow & E). apply Hnot. rewrite <- E.
    by apply list_elem_of_fmap_2.
Qed.

(** X6.  Running a loader a second time on the same file changes
    nothing: after one run the name of every ingredient record (the slug
    of every tag record) is in the table, so the second run skips them
    all. *)
Theorem loading_twice_changes_nothing :
  (∀ (data : list IngredientRecord.t) (db : DB),
     let loaded := (load_ingredients_handle data db).1 in
     (load_ingredients_handle data loaded).1 = loaded
     ∧ ∀ record, record ∈ data →
         IngredientRecord.name record ∈ Ingredient.name <$> ingredients loaded)
  ∧ (∀ (data : list TagRecord.t) (db : DB),
     let loaded := (load_tags_handle data db).1 in
     (load_tags_handle data loaded).1 = loaded
     ∧ ∀ record, record ∈ data →
         TagRecord.slug record ∈ Tag.slug <$> tags loaded).
Proof.
  set (present_i := λ (record : IngredientRecord.t) (db : DB),
         IngredientRecord.name record ∈ Ingredient.name <$> ingredients db).
  set (present_t := λ (record : TagRecord.t) (db : DB),
         TagRecord.slug record ∈ Tag.slug <$> tags db).
  assert (∀ item db, present_i item db → (load_ingredient item db).1 = db)
    as Hi1.
  { intros item db Hp.
    by destruct (load_ingredient_state item db) as [[? _]|[_ ?]]. }
  assert (∀ item db, present_i item (load_ingredient item db).1) as Hi2.
  { intros item db. unfold present_i.
    destruct (load_ingredient_state item db) as [[-> ?]|[-> _]]; [done|].
    simpl. rewrite fmap_app. apply elem_of_app. right. left. }
  assert (∀ item item' db, present_i item' db →
            present_i item' (load_ingredient item db).1) as Hi3.
  { intros item item' db Hp. unfold present_i in *.
    destruct (load_ingredient_state item db) as [[-> ?]|[-> _]]; [done|].
    simpl. rewrite fmap_app. apply elem_of_app. by left. }
  assert (∀ item db, present_t item db → (load_tag item db).1 = db) as Ht1.
  { intros item db Hp.
    by destruct (load_tag_state item db) as [[? _]|[_ ?]]. }
  assert (∀ item db, present_t item (load_tag item db).1) as Ht2.
  { intros item db. unfold present_t.
    destruct (load_tag_state item db) as [[-> ?]|[-> _]]; [done|].
    simpl. rewrite fmap_app. apply elem_of_app. right. left. }
  assert (∀ item item' db, present_t item' db →
            present_t item' (load_tag item db).1) as Ht3.
  { intros item item' db Hp. unfold present_t in *.
    destruct (load_tag_state item db) as [[-> ?]|[-> _]]; [done|].
    simpl. rewrite fmap_app. apply elem_of_app. by left. }
  split; intros data db loaded; split.
  - apply (handle_twice load_ingredient present_i
             load_ingredient_returns Hi1 Hi2 Hi3).
  - intros record Hin. unfold loaded, load_ingredients_handle.
    rewrite (handle_state load_ingredient load_ingredient_returns).
    by apply (loop_inserts load_ingredient present_i Hi2 Hi3).
  - apply (handle_twice load_tag present_t load_tag_returns Ht1 Ht2 Ht3).
  - intros record Hin. unfold loaded, load_tags_handle.
    rewrite (handle_state load_tag load_tag_returns).
    by apply (loop_inserts load_tag present_t Ht2 Ht3).
Qed.

(** ** The subscriptions of a user *)

(** X7.  What [SubscribeSerializer] shows of an author: [recipes_count]
    is the number of the author's recipes whatever the limit; [recipes]
    is a prefix of the author's recipes, all of them when [recipes_limit]
    is absent or empty and the first [n] when it reads as [n >= 0]; a
    limit that does not read as a number, or reads as a negative one, is
    an error and no data. *)
Theorem recipes_limit_caps_the_list (int : string → option Z) (db : DB)
    (request : Request) (obj : CustomUser.t) :
  let all := RecipeMinifiedSerializer None <$> recipe_set db obj in
  (∀ recipes_limit rep,
     SubscribeSerializer int db request recipes_limit obj = Return rep →
     SubscribeRepresentation.recipes_count rep = length (recipe_set db obj)
     ∧ SubscribeRepresentation.recipes rep `prefix_of` all
     ∧ (recipes_limit = None ∨ recipes_limit = Some "" →
        SubscribeRepresentation.recipes rep = all)
     ∧ (∀ limit n, recipes_limit = Some limit → limit ≠ "" →
          int limit = Some n →
          0 ≤ n
          ∧ length (SubscribeRepresentation.recipes rep)
            = (Z.to_nat n `min` length (recipe_set db obj))%nat))
  ∧ (∀ limit, limit ≠ "" →
       int limit = None ∨ (∃ n, int limit = Some n ∧ n < 0) →
       SubscribeSerializer int db request (Some limit) obj
         = Raise ValueError).
Proof.
  intros all. split.
  - intros recipes_limit rep. unfold SubscribeSerializer, get_recipes.
    fold all. destruct recipes_limit as [limit|].
    + destruct (decide (limit = "")) as [->|Hne].
      * intros E. simplify_eq. simpl. split_and!; try done.
        intros limit n E. by simplify_eq.
      * destruct (int limit) as [n|] eqn:Hint; [|done].
        destruct (decide (n < 0)); [done|].
        intros E. simplify_eq. simpl. split_and!; try done.
        -- unfold all. rewrite fmap_take. apply prefix_take.
        -- intros [?|?]; by simplify_eq.
        -- intros limit' n' E1 _ E2. simplify_eq. split; [lia|].
           by rewrite length_fmap, length_take.
    + intros E. simplify_eq. simpl. split_and!; try done.
  - intros limit Hne Hbad. unfold SubscribeSerializer, get_recipes.
    rewrite decide_False by done.
    destruct Hbad as [->|(n & -> & Hn)]; [done|].
    by rewrite decide_True.
Qed.

Lemma recipes_limit_caps_the_list_witness :
  SubscribeSerializer (λ s, if decide (s = "1") then Some 1 else None)
    cart_db (mkRequest GET (Some alice) ∅) (Some "1") bob
  = Return (SubscribeRepresentation.mk "bob@example.org" 2 "bob" "Bob" "B"
              false [MinifiedRepresentation.mk 1 (Some (url "a.png")) "A" 5]
              2%nat)
  ∧ SubscribeSerializer (λ s, if decide (s = "1") then Some 1 else None)
      cart_db (mkRequest GET (Some alice) ∅) (Some "x") bob
    = Raise ValueError.
Proof.
  split; [reflexivity|].
  apply (recipes_limit_caps_the_list
           (λ s, if decide (s = "1") then Some 1 else None) cart_db
           (mkRequest GET (Some alice) ∅) bob).
  - discriminate.
  - by left.
Defined.

Lemma subscriptions_queryset_elem (db : DB) (user author : CustomUser.t) :
  author ∈ subscriptions_queryset db user
  ↔ author ∈ users db
    ∧ Subscribe.mk (CustomUser.id author) (CustomUser.id user)
      ∈ subscribes db.
Proof.
  unfold subscriptions_queryset. rewrite list_elem_of_bind. split.
  - intros (u & Hin & Hu). apply list_elem_of_bind in Hin as (row & Hin & Hrow).
    apply list_elem_of_singleton in Hin as ->.
    apply list_elem_of_filter in Hrow as [[Ha Hf] Hrow].
    split; [done|]. destruct row as [a f]. simpl in *. by subst.
  - intros [Hu Hrow]. exists author. split; [|done].
    apply list_elem_of_bind.
    exists (Subscribe.mk (CustomUser.id author) (CustomUser.id user)).
    split; [left|]. apply list_elem_of_filter. by split.
Qed.

(** X8.  The subscriptions listing holds exactly the users the requester
    follows, each of them once under the unique constraints; for every
    user on it [SubscribeSerializer] returns data when no [recipes_limit]
    is given, and whatever it returns has [is_subscribed] true. *)
Theorem subscriptions_lists_followed_authors (int : string → option Z)
    (db : DB) (m : method) (user : CustomUser.t)
    (query_params : gmap string string) :
  let request := mkRequest m (Some user) query_params in
  (∀ author,
     author ∈ subscriptions_queryset db user
     ↔ author ∈ users db
       ∧ Subscribe.mk (CustomUser.id author) (CustomUser.id user)
         ∈ subscribes db)
  ∧ (∀ author, author ∈ subscriptions_queryset db user →
       (∃ representation,
          SubscribeSerializer int db request None author
          = Return representation)
       ∧ ∀ recipes_limit representation,
           SubscribeSerializer int db request recipes_limit author
           = Return representation →
           SubscribeRepresentation.is_subscribed representation = true)
  ∧ (NoDup (users db) → NoDup (subscribes db) →
     NoDup (subscriptions_queryset db user)).
Proof.
  intros request. split_and!.
  - intros author. apply subscriptions_queryset_elem.
  - intros author Hin. apply subscriptions_queryset_elem in Hin as [_ Hrow].
    assert (get_is_subscribed db request author = true) as Hsubscribed.
    { rewrite get_is_subscribed_spec. simpl. by apply bool_decide_eq_true. }
    split; [by eexists|].
    intros recipes_limit representation. unfold SubscribeSerializer.
    destruct (get_recipes int db recipes_limit author); [|done].
    intros E. injection E as <-. exact Hsubscribed.
  - intros Hu Hs. unfold subscriptions_queryset.
    induction Hu as [|u us Hnot Hus IH]; [constructor|].
    csimpl. destruct (decide (Subscribe.mk (CustomUser.id u)
                                (CustomUser.id user) ∈ subscribes db))
      as [Hin|Hno].
    + rewrite (subscription_single _ u user Hs Hin). csimpl.
      apply NoDup_cons. split; [|done].
      intros Hu. apply list_elem_of_bind in Hu as (u' & Hu1 & Hu2).
      apply list_elem_of_bind in Hu1 as (row & Hu1 & _).
      apply list_elem_of_singleton in Hu1 as ->. done.
    + rewrite (subscription_absent db u user Hno). by csimpl.
Qed.

(** ** Every operation is made of elementary changes *)

Lemma Recipe_objects_create_fresh (author : option Z)
    (name image text : string) (cooking_time : Z) (db db' : DB)
    (recipe : Recipe.t) :
  Recipe_objects_create author name image text cooking_time db
    = (db', Return recipe) →
  Recipe.id recipe = next_id (Recipe.id <$> recipes db)
  ∧ Recipe.name recipe ∉ Recipe.name <$> recipes db.
Proof.
  unfold Recipe_objects_create. destruct (exists_ _ _) eqn:E; [done|].
  intros H. simplify_eq. simpl. split; [done|].
  intros Hin. apply list_elem_of_fmap in Hin as (r & Hname & Hr).
  by apply (proj1 (exists_false _ _) E r).
Qed.

Lemma create_body_fresh (request : option Request)
    (validated_data : ValidatedData.t) (db db' : DB) (recipe : Recipe.t) :
  create_body request validated_data db = (db', Return recipe) →
  Recipe.id recipe = next_id (Recipe.id <$> recipes db)
  ∧ Recipe.name recipe ∉ Recipe.name <$> recipes db.
Proof.
  unfold create_body. intros H.
  apply bind_Return in H as (db0 & author & Hauthor & H).
  assert (db0 = db) as ->.
  { destruct request as [request|]; [|by injection Hauthor].
    destruct (request_user request); by injection Hauthor. }
  apply bind_Return in H as (db1 & recipe1 & Hcreate & H).
  apply Recipe_objects_create_fresh in Hcreate.
  apply bind_Return in H as (db2 & [] & Htags & H).
  apply bind_Return in H as (db3 & [] & Hrows & H).
  unfold mret, M_ret in H. by simplify_eq.
Qed.

Lemma Recipe_save_names (obj : Recipe.t) (db db' : DB) :
  Recipe_save obj db = (db', Return ()) →
  ∀ r, r ∈ recipes db → Recipe.name r = Recipe.name obj →
       Recipe.id r = Recipe.id obj.
Proof.
  unfold Recipe_save. destruct (exists_ _ _) eqn:E; [done|].
  intros _ r Hr Hname.
  destruct (decide (Recipe.id r = Recipe.id obj)) as [|Hne]; [done|].
  by destruct (proj1 (exists_false _ _) E r Hr).
Qed.

Lemma update_body_names (instance : Recipe.t)
    (validated_data : ValidatedData.t) (db db' : DB) (recipe : Recipe.t) :
  update_body instance validated_data db = (db', Return recipe) →
  ∀ r, r ∈ recipes db → Recipe.name r = Recipe.name recipe →
       Recipe.id r = Recipe.id recipe.
Proof.
  unfold update_body. intros H.
  apply bind_Return in H as (db1 & [] & Hsave & H).
  pose proof (Recipe_save_names _ _ _ Hsave) as Hnames.
  apply bind_Return in H as (db2 & [] & Hclear & H).
  apply bind_Return in H as (db3 & [] & Htags & H).
  apply bind_Return in H as (db4 & [] & Hing & H).
  apply bind_Return in H as (db5 & [] & Hrows & H).
  unfold mret, M_ret in H. by simplify_eq.
Qed.

Lemma create_changes (platform : Platform) (request : Request)
    (data : RecipePayload.t) (db : DB) :
  rtc change db (RecipeViewSet_create platform request data db).1.
Proof.
  unfold RecipeViewSet_create. run.
  destruct (RecipeSerializer_run_validation platform None data db) as [vd|e];
    [|apply rtc_refl].
  destruct (RecipeSerializer_create (Some request) vd db)
    as [db' [recipe|e]] eqn:E; simpl.
  - apply atomic_Return in E. apply rtc_once.
    destruct (create_body_fresh _ _ _ _ _ E).
    eapply recipe_created; [by apply create_body_Return in E|done|done].
  - apply atomic_Raise in E as ->. apply rtc_refl.
Qed.

Lemma update_changes (platform : Platform) (request : Request) (pk : Z)
    (data : RecipePayload.t) (db : DB) :
  rtc change db (RecipeViewSet_update platform request pk data db).1.
Proof.
  unfold RecipeViewSet_update. run.
  destruct (get _ recipes db) as [instance|e] eqn:Hget.
  2:{ destruct (decide (e = DoesNotExist)); apply rtc_refl. }
  apply get_Return_elem in Hget as [Hin _].
  destruct (RecipeSerializer_run_validation platform (Some instance) data db)
    as [vd|e]; [|apply rtc_refl].
  destruct (RecipeSerializer_update instance vd db)
    as [db' [recipe|e]] eqn:E; simpl.
  - apply atomic_Return in E. apply rtc_once.
    pose proof (update_body_names _ _ _ _ _ E).
    apply update_body_Return in E as [Hup Hid].
    by eapply recipe_updated.
  - apply atomic_Raise in E as ->. apply rtc_refl.
Qed.

Lemma destroy_changes (request : Request) (pk : Z) (db : DB) :
  rtc change db (RecipeViewSet_destroy request pk db).1.
Proof.
  unfold RecipeViewSet_destroy. run.
  destruct (get _ recipes db) as [instance|e] eqn:Hget.
  2:{ destruct (decide (e = DoesNotExist)); apply rtc_refl. }
  apply get_Return_elem in Hget as [Hin _].
  simpl. apply rtc_once. by apply recipe_deleted.
Qed.

Lemma membership_changes (model : MembershipModel) (request : Request)
    (pk : Z) (db : DB) :
  rtc change db (membership_action model request pk db).1.
Proof.
  unfold membership_action, serialize_obj, add_obj, del_obj,
    RecipeMinifiedSerializer_validate, Membership_objects_create,
    Membership_delete.
  run.
  destruct (decide (_ ∧ _)); [apply rtc_refl|].
  destruct (get _ recipes db) as [recipe|e] eqn:Hget.
  2:{ destruct (decide (e = DoesNotExist)); apply rtc_refl. }
  apply get_Return_elem in Hget as [Hin _].
  destruct (request_user request) as [user|]; [|apply rtc_refl].
  destruct (decide (request_method request = POST)); simpl.
  - destruct (exists_ _ _); [apply rtc_refl|]. simpl.
    destruct (decide (_ ∈ _)); simpl; [apply rtc_refl|].
    apply rtc_once. by apply membership_added.
  - destruct (get _ (objects model) db) as [obj|e]; simpl.
    + destruct (get _ (objects model) db) as [obj'|e]; simpl;
        [|apply rtc_refl].
      apply rtc_once. apply membership_removed.
    + destruct (decide (e = DoesNotExist)); apply rtc_refl.
Qed.

Lemma subscribe_changes (platform : Platform) (request : Request) (id : Z)
    (db : DB) :
  rtc change db (subscribe platform request id db).1.
Proof.
  unfold subscribe, SubscribeSerializer_validate, Subscribe_objects_create,
    Subscribe_delete.
  run.
  destruct (decide (_ ∧ _)); [apply rtc_refl|].
  destruct (request_user request) as [follower|]; [|apply rtc_refl].
  simpl.
  destruct (get _ users db) as [author|e] eqn:Hget.
  2:{ destruct (decide (e = DoesNotExist)); apply rtc_refl. }
  destruct (decide (request_method request = POST)); simpl.
  - destruct (exists_ _ _); [apply rtc_refl|].
    destruct (decide (CustomUser.id author = CustomUser.id follower));
      [apply rtc_refl|]. simpl.
    destruct (decide (_ ∈ _)); simpl; [apply rtc_refl|].
    unfold serializer_data.
    destruct (SubscribeSerializer _ _ _ _ _); simpl;
      apply rtc_once; by apply subscribed.
  - destruct (get _ subscribes db) as [obj|e]; simpl.
    + apply rtc_once. apply unsubscribed.
    + destruct (decide (e = DoesNotExist)); apply rtc_refl.
Qed.

Lemma loop_changes {A} (body : A → M string) (data : list A) (db : DB) :
  (∀ item db, rtc change db (body item db).1) →
  rtc change db (foldl (λ db item, (body item db).1) db data).
Proof.
  intros Hbody. revert db. induction data as [|item rest IH]; intros db;
    [apply rtc_refl|].
  simpl. eapply rtc_trans; [apply Hbody|apply IH].
Qed.

Lemma run_changes (platform : Platform) (op : Operation) (db : DB) :
  rtc change db (run platform op db).
Proof.
  destruct op; simpl.
  - apply create_changes.
  - apply update_changes.
  - apply destroy_changes.
  - apply membership_changes.
  - apply membership_changes.
  - apply subscribe_changes.
  - unfold load_ingredients_handle.
    rewrite (handle_state load_ingredient load_ingredient_returns).
    apply loop_changes. intros record db'.
    destruct (load_ingredient_state record db') as [[-> _]|[-> Hnot]];
      [apply rtc_refl|]. apply rtc_once. by apply ingredient_loaded.
  - unfold load_tags_handle.
    rewrite (handle_state load_tag load_tag_returns).
    apply loop_changes. intros record db'.
    destruct (load_tag_state record db') as [[-> _]|[-> Hnot]];
      [apply rtc_refl|]. apply rtc_once. by apply tag_loaded.
Qed.

(** ** Invariants of the schema *)

Lemma rtc_change_invariant (I : DB → Prop) :
  (∀ db db', change db db' → I db → I db') →
  ∀ db db', rtc change db db' → I db → I db'.
Proof.
  intros Hstep db db' Hrtc. induction Hrtc as [|db db1 db' H _ IH]; [done|].
  intros HI. apply IH. by eapply Hstep.
Qed.

Lemma change_no_self_subscription (db db' : DB) :
  change db db' → no_self_subscription db → no_self_subscription db'.
Proof.
  unfold no_self_subscription.
  destruct 1 as [db db' recipe vd (_ & _ & _ & _ & (_ & _ & _ & _ & _ & E))
                |db db' instance recipe vd _ _
                   (_ & _ & _ & _ & (_ & _ & _ & _ & _ & E))
                | | db [] | db [] | | | | ];
    intros Hinv row; simpl; try rewrite E; try apply Hinv.
  - rewrite elem_of_app, list_elem_of_singleton.
    intros [Hrow| ->]; [by apply Hinv|done].
  - intros Hrow. apply list_elem_of_filter in Hrow as [_ Hrow].
    by apply Hinv.
Qed.

(** X9.  In every reachable state no subscription row has the same user
    as author and follower.  So what [me] shows of the requester always
    has [is_subscribed] false. *)
Theorem no_self_subscription_reachable (platform : Platform) (db : DB) :
  reachable platform db →
  no_self_subscription db
  ∧ ∀ (m : method) (user : CustomUser.t) (query_params : gmap string string),
      ∃ rep, me (mkRequest m (Some user) query_params) db = Return rep
             ∧ UserRepresentation.is_subscribed rep = false.
Proof.
  intros Hreach.
  assert (no_self_subscription db) as Hinv.
  { induction Hreach as [db (_ & _ & _ & E)|op db _ IH].
    - intros row Hrow. rewrite E in Hrow. by apply elem_of_nil in Hrow.
    - eapply (rtc_change_invariant no_self_subscription);
        [apply change_no_self_subscription|apply run_changes|done]. }
  split; [done|]. intros m user query_params. eexists.
  split; [reflexivity|].
  simpl. rewrite get_is_subscribed_spec. simpl.
  apply bool_decide_eq_false. intros Hrow. by apply (Hinv _ Hrow).
Qed.

Lemma no_self_subscription_reachable_witness :
  no_self_subscription
    (run sample_platform
       (ToggleSubscribe (mkRequest POST (Some alice) ∅) 2) pantry_db).
Proof.
  apply (no_self_subscription_reachable sample_platform
           (run sample_platform
              (ToggleSubscribe (mkRequest POST (Some alice) ∅) 2)
              pantry_db)).
  apply reachable_run, reachable_initial. by repeat split.
Defined.

Lemma updated_ids (recipe : Recipe.t) (rows : list Recipe.t) :
  Recipe.id
    <$> ((λ r, if decide (Recipe.id r = Recipe.id recipe) then recipe else r)
         <$> rows)
  = Recipe.id <$> rows.
Proof.
  rewrite <- list_fmap_compose. apply list_fmap_ext. intros _ r _. simpl.
  by destruct (decide (Recipe.id r = Recipe.id recipe)).
Qed.

Lemma change_references_hold (db db' : DB) :
  change db db' → references_hold db → references_hold db'.
Proof.
  destruct 1 as [db db' recipe vd
                   (Er & _ & [Ht1 Ht2] & Ei & (_ & _ & _ & Ef & Ec & _)) _ _
                |db db' instance recipe vd Hin Hid
                   (Er & _ & [Ht1 Ht2] & Ei & (_ & _ & _ & Ef & Ec & _)) _
                |db instance Hin
                |db model recipe user_id Hin _
                |db model obj | | | | ];
    intros [Hj Hf Hc Hl].
  - split; rewrite ?Er, ?Ei, ?Ef, ?Ec, fmap_app.
    + intros row. rewrite elem_of_app. intros [Hrow|Hrow].
      * apply elem_of_app. left. by apply Hj.
      * apply elem_of_app. right.
        apply list_elem_of_fmap in Hrow as (d & -> & _). left.
    + intros row Hrow. apply elem_of_app. left. by apply Hf.
    + intros row Hrow. apply elem_of_app. left. by apply Hc.
    + intros [r t] Hlink. simpl. apply elem_of_app.
      destruct (decide (r = Recipe.id recipe)) as [->|Hne];
        [right; left|left].
      apply (Hl (r, t)). by apply Ht2.
  - split; rewrite ?Er, ?Ei, ?Ef, ?Ec, updated_ids.
    + intros row. rewrite elem_of_app. intros [Hrow|Hrow].
      * apply list_elem_of_filter in Hrow as [_ Hrow]. by apply Hj.
      * apply list_elem_of_fmap in Hrow as (d & -> & _). simpl.
        rewrite Hid. by apply list_elem_of_fmap_2.
    + done.
    + done.
    + intros [r t] Hlink. simpl.
      destruct (decide (r = Recipe.id recipe)) as [->|Hne].
      * rewrite Hid. by apply list_elem_of_fmap_2.
      * apply (Hl (r, t)). by apply Ht2.
  - assert (∀ x, x ∈ Recipe.id <$> recipes db → x ≠ Recipe.id instance →
              x ∈ Recipe.id
                  <$> filter (λ r, Recipe.id r ≠ Recipe.id instance)
                        (recipes db)) as Hkeep.
    { intros x Hx Hne. apply list_elem_of_fmap in Hx as (r & -> & Hr).
      apply list_elem_of_fmap_2. by apply list_elem_of_filter. }
    split; simpl.
    + intros row Hrow. apply list_elem_of_filter in Hrow as [Hne Hrow].
      apply Hkeep; [by apply Hj|done].
    + intros row Hrow. apply list_elem_of_filter in Hrow as [Hne Hrow].
      apply Hkeep; [by apply Hf|done].
    + intros row Hrow. apply list_elem_of_filter in Hrow as [Hne Hrow].
      apply Hkeep; [by apply Hc|done].
    + intros link Hlink. apply elem_of_filter in Hlink as [Hne Hlink].
      apply Hkeep; [by apply Hl|done].
  - destruct model; split; simpl; try done; intros row;
      rewrite elem_of_app, list_elem_of_singleton;
      (intros [Hrow| ->]; [auto|simpl; by apply list_elem_of_fmap_2]).
  - destruct model; split; simpl; try done; intros row Hrow;
      apply list_elem_of_filter in Hrow as [_ Hrow]; auto.
  - by split.
  - by split.
  - by split.
  - by split.
Qed.

(** X10.  No operation leaves a dangling reference to a recipe: if every
    join row, favorite, cart entry and tag link points at a row of the
    recipe table before an operation, the same holds after it.  Deleting
    a recipe takes its rows along; the toggles and the recipe writes only
    add rows for a recipe that is there. *)
Theorem operations_keep_recipe_references (platform : Platform)
    (op : Operation) (db : DB) :
  references_hold db → references_hold (run platform op db).
Proof.
  intros Hdb. pose proof (run_changes platform op db) as Hsteps.
  induction Hsteps as [|db db1 db2 Hstep _ IH]; [done|].
  apply IH. by apply (change_references_hold db db1).
Qed.

Lemma operations_keep_recipe_references_witness :
  references_hold
    (run sample_platform
       (DestroyRecipe (mkRequest DELETE (Some alice) ∅) 1) cart_db).
Proof.
  apply (operations_keep_recipe_references sample_platform
           (DestroyRecipe (mkRequest DELETE (Some alice) ∅) 1) cart_db).
  split; simpl; intros row Hrow;
    rewrite ?elem_of_cons, ?elem_of_nil in Hrow;
    try (by apply elem_of_empty in Hrow);
    repeat destruct Hrow as [Hrow|Hrow]; subst; simpl;
    rewrite ?elem_of_cons; tauto.
Defined.

Lemma next_id_above (ids : list Z) (x : Z) : x ∈ ids → x < next_id ids.
Proof.
  unfold next_id. induction ids as [|y ids IH]; intros Hx.
  - by apply elem_of_nil in Hx.
  - simpl. apply elem_of_cons in Hx as [->|Hx]; [lia|].
    specialize (IH Hx). lia.
Qed.

Lemma next_id_fresh (ids : list Z) : next_id ids ∉ ids.
Proof. intros Hin. apply next_id_above in Hin. lia. Qed.

Lemma updated_names (recipe : Recipe.t) (rows : list Recipe.t) :
  NoDup (Recipe.id <$> rows) →
  NoDup (Recipe.name <$> rows) →
  (∀ r, r ∈ rows → Recipe.name r = Recipe.name recipe →
        Recipe.id r = Recipe.id recipe) →
  NoDup (Recipe.name
         <$> ((λ r, if decide (Recipe.id r = Recipe.id recipe)
                    then recipe else r) <$> rows)).
Proof.
  induction rows as [|r rows IH]; [constructor|].
  rewrite !fmap_cons, !NoDup_cons. intros [Hid Hids] [Hname Hnames] Hsame.
  split.
  - intros Hin. apply list_elem_of_fmap in Hin as (r1 & E & Hr1).
    apply list_elem_of_fmap in Hr1 as (r' & -> & Hr').
    destruct (decide (Recipe.id r = Recipe.id recipe)) as [Er|Er],
      (decide (Recipe.id r' = Recipe.id recipe)) as [Er'|Er'].
    + apply Hid. rewrite Er, <- Er'. by apply list_elem_of_fmap_2.
    + apply Er'. apply Hsame; [by right|done].
    + apply Er. apply Hsame; [left|done].
    + apply Hname. rewrite E. by apply list_elem_of_fmap_2.
  - apply IH; [done|done|]. intros r' Hr'. apply Hsame. by right.
Qed.

Lemma change_keys_unique (db db' : DB) :
  change db db' → keys_unique db → keys_unique db'.
Proof.
  destruct 1 as [db db' recipe vd
                   (Er & _ & _ & _ & (_ & Et & Ei & _)) Hid Hname
                |db db' instance recipe vd Hin Hid
                   (Er & _ & _ & _ & (_ & Et & Ei & _)) Hsame
                |db instance Hin
                |db [] recipe user_id Hin _
                |db [] obj | | |db name unit Hname |db name color slug Hslug];
    intros [H1 H2 H3 H4 H5 H6]; try (by split).
  - split; rewrite ?Er, ?Et, ?Ei, ?fmap_app; try done.
    + apply NoDup_snoc; [done|]. simpl. rewrite Hid. apply next_id_fresh.
    + by apply NoDup_snoc.
  - split; rewrite ?Er, ?Et, ?Ei, ?updated_ids; try done.
    by apply updated_names.
  - split; simpl; try done; by apply NoDup_fmap_filter.
  - split; simpl; rewrite ?fmap_app; try done.
    + apply NoDup_snoc; [done|]. apply next_id_fresh.
    + by apply NoDup_snoc.
  - split; simpl; rewrite ?fmap_app; try done.
    + apply NoDup_snoc; [done|]. apply next_id_fresh.
    + rewrite omap_app. simpl. destruct slug as [s|]; simpl.
      * apply NoDup_snoc; [done|]. intros Hs. apply Hslug.
        apply list_elem_of_omap in Hs as (t & Ht & Es).
        rewrite <- Es. by apply list_elem_of_fmap_2.
      * by rewrite app_nil_r.
Qed.

(** X11.  No operation breaks a key: if the primary keys of the recipe,
    ingredient and tag tables and the columns declared unique (recipe
    name, ingredient name, tag slug when present) have no repeats before
    an operation, they have none after it.  In particular the hypothesis
    of the validation theorems, unique primary keys, is kept by every
    operation. *)
Theorem operations_keep_keys_unique (platform : Platform) (op : Operation)
    (db : DB) :
  keys_unique db →
  keys_unique (run platform op db) ∧ primary_keys (run platform op db).
Proof.
  intros Hdb. cut (keys_unique (run platform op db)).
  { intros Hk. split; [done|]. destruct Hk. by split. }
  pose proof (run_changes platform op db) as Hsteps.
  induction Hsteps as [|db db1 db2 Hstep _ IH]; [done|].
  apply IH. by apply (change_keys_unique db db1).
Qed.

Lemma operations_keep_keys_unique_witness :
  keys_unique
    (run sample_platform (LoadIngredients [IngredientRecord.mk "Sugar" "g";
                           IngredientRecord.mk "Salt" "kg"]) pantry_db).
Proof.
  apply (operations_keep_keys_unique sample_platform
           (LoadIngredients [IngredientRecord.mk "Sugar" "g";
                             IngredientRecord.mk "Salt" "kg"]) pantry_db).
  split; simpl;
    repeat (apply NoDup_cons; split;
      [rewrite ?elem_of_cons, elem_of_nil; intros H;
       repeat destruct H as [H|H]; discriminate || done|]);
    apply NoDup_nil_2.
Defined.

(** ** A valid payload is written *)

Lemma insert_all_succeeds (objs : list IngredientRecipe.t) (db : DB) :
  NoDup (IngredientRecipe.key <$> objs) →
  (∀ obj, obj ∈ objs →
     IngredientRecipe.key obj
     ∉ IngredientRecipe.key <$> ingredientrecipes db) →
  insert_all objs db
  = (set_ingredientrecipes (λ rows, rows ++ objs) db, Return ()).
Proof.
  revert db. induction objs as [|obj rest IH]; intros db Hnd Hfresh.
  - simpl. run. destruct db. unfold set_ingredientrecipes. simpl.
    by rewrite app_nil_r.
  - rewrite fmap_cons, NoDup_cons in Hnd. destruct Hnd as [Hobj Hnd].
    simpl. unfold IngredientRecipe_insert. run.
    rewrite decide_False by (apply Hfresh; left).
    rewrite IH; [|done|].
    + unfold set_ingredientrecipes. simpl. by rewrite <- app_assoc.
    + intros o Ho. simpl. rewrite fmap_app. intros Hin.
      apply elem_of_app in Hin as [Hin|Hin].
      * apply (Hfresh o); [by right|done].
      * apply list_elem_of_singleton in Hin. apply Hobj. rewrite <- Hin.
        by apply list_elem_of_fmap_2.
Qed.

Lemma ingredient_recipe_rows_keys (ingredients_data : list IngredientData.t)
    (recipe : Recipe.t) :
  IngredientRecipe.key <$> ingredient_recipe_rows ingredients_data recipe
  = (λ d, (Recipe.id recipe, Ingredient.id (IngredientData.ingredient d)))
    <$> ingredients_data.
Proof.
  unfold ingredient_recipe_rows. rewrite <- list_fmap_compose.
  by apply list_fmap_ext.
Qed.

Lemma ingredient_recipe_rows_NoDup (ingredients_data : list IngredientData.t)
    (recipe : Recipe.t) :
  NoDup (Ingredient.id ∘ IngredientData.ingredient <$> ingredients_data) →
  NoDup (IngredientRecipe.key
         <$> ingredient_recipe_rows ingredients_data recipe).
Proof.
  rewrite ingredient_recipe_rows_keys.
  induction ingredients_data as [|d rest IH]; [constructor|].
  rewrite !fmap_cons, !NoDup_cons. intros [Hd Hnd]. split; [|by apply IH].
  intros Hin. apply Hd. apply list_elem_of_fmap in Hin as (d' & E & Hd').
  injection E as E. simpl. rewrite E.
  by apply (list_elem_of_fmap_2 (Ingredient.id ∘ IngredientData.ingredient)).
Qed.

Lemma resolves_ids_NoDup (platform : Platform) (db : DB)
    (instance : option Recipe.t) (data : RecipePayload.t)
    (validated_data : ValidatedData.t) :
  good_payload platform instance db data →
  resolves platform db data validated_data →
  NoDup (Ingredient.id ∘ IngredientData.ingredient
         <$> ValidatedData.ingredientrecipe_set validated_data).
Proof.
  intros (_ & (_ & Hnd & _) & _) (_ & _ & Hf2 & _).
  cut (Ingredient.id ∘ IngredientData.ingredient
       <$> ValidatedData.ingredientrecipe_set validated_data
       = IngredientItem.id <$> RecipePayload.ingredients data);
    [by intros ->|].
  clear Hnd. induction Hf2 as [|item d items ds (_ & Hid & _) _ IH]; [done|].
  rewrite !fmap_cons, IH. simpl. by rewrite Hid.
Qed.

Lemma create_view_succeeds (platform : Platform) (db : DB)
    (request : Request) (user : CustomUser.t) (data : RecipePayload.t)
    (validated_data : ValidatedData.t) :
  references_hold db →
  request_user request = Some user →
  RecipeSerializer_run_validation platform None data db
    = Return validated_data →
  NoDup (Ingredient.id ∘ IngredientData.ingredient
         <$> ValidatedData.ingredientrecipe_set validated_data) →
  (∀ r, r ∈ recipes db → Recipe.name r ≠ ValidatedData.name validated_data) →
  ∃ db',
    RecipeViewSet_create platform request data db = (db', Return 201)
    ∧ created db db'
        (Recipe.mk (next_id (Recipe.id <$> recipes db))
           (ValidatedData.name validated_data)
           (ValidatedData.image validated_data)
           (ValidatedData.text validated_data)
           (ValidatedData.cooking_time validated_data)
           (Some (CustomUser.id user)))
        validated_data.
Proof.
  intros Href Huser Hvd Hnd Hname.
  set (recipe := Recipe.mk _ _ _ _ _ _).
  assert (∃ db', create_body (Some request) validated_data db
                 = (db', Return recipe)) as [db' Hbody].
  { unfold create_body, Recipe_objects_create, tags_set,
      ingredient_recipe_list, IngredientRecipe_objects_bulk_create, atomic.
    run. rewrite Huser. simpl.
    rewrite (proj2 (exists_false _ _)) by (intros r Hr; by apply Hname).
    simpl. fold recipe.
    rewrite insert_all_succeeds; [by eexists| |].
    - by apply ingredient_recipe_rows_NoDup.
    - intros obj Hobj Hin. simpl in Hin.
      apply list_elem_of_fmap in Hin as (row & E & Hrow).
      apply list_elem_of_fmap in Hobj as (d & -> & _).
      injection E as E _.
      apply (next_id_fresh (Recipe.id <$> recipes db)).
      unfold recipe. simpl. rewrite E.
      by apply (join_rows_reference db Href). }
  exists db'. split; [|by apply create_body_Return in Hbody].
  unfold RecipeViewSet_create, RecipeSerializer_create, atomic. run.
  by rewrite Hvd, Hbody.
Qed.



Lemma update_view_succeeds (platform : Platform) (db : DB)
    (request : Request) (pk : Z) (instance : Recipe.t)
    (data : RecipePayload.t) (validated_data : ValidatedData.t) :
  get (λ r, Recipe.id r = pk) recipes db = Return instance →
  RecipeSerializer_run_validation platform (Some instance) data db
    = Return validated_data →
  NoDup (Ingredient.id ∘ IngredientData.ingredient
         <$> ValidatedData.ingredientrecipe_set validated_data) →
  (∀ r, r ∈ recipes db →
        Recipe.name r = ValidatedData.name validated_data →
        Recipe.id r = Recipe.id instance) →
  ∃ db',
    RecipeViewSet_update platform request pk data db = (db', Return 200)
    ∧ updated db db'
        (Recipe.mk (Recipe.id instance)
           (ValidatedData.name validated_data)
           (ValidatedData.image validated_data)
           (ValidatedData.text validated_data)
           (ValidatedData.cooking_time validated_data)
           (Recipe.author instance))
        validated_data.
Proof.
  intros Hget Hvd Hnd Hname.
  set (recipe := Recipe.mk _ _ _ _ _ _).
  assert (∃ db', update_body instance validated_data db
                 = (db', Return recipe)) as [db' Hbody].
  { unfold update_body, Recipe_save, tags_clear, tags_set, ingredients_clear,
      ingredient_recipe_list, IngredientRecipe_objects_bulk_create, atomic.
    run. fold recipe.
    rewrite (proj2 (exists_false _ _)).
    2:{ intros r Hr [E Hne]. apply Hne. by apply Hname. }
    simpl.
    rewrite insert_all_succeeds; [by eexists| |].
    - by apply ingredient_recipe_rows_NoDup.
    - intros obj Hobj Hin. simpl in Hin.
      apply list_elem_of_fmap in Hin as (row & E & Hrow).
      apply list_elem_of_fmap in Hobj as (d & -> & _).
      injection E as E _.
      apply list_elem_of_filter in Hrow as [Hne _]. by apply Hne. }
  exists db'. split; [|by apply update_body_Return in Hbody as [? _]].
  unfold RecipeViewSet_update, RecipeSerializer_update, atomic. run.
  by rewrite Hget, Hvd, Hbody.
Qed.



(** ** What was written is what is read *)

Lemma get_attribute_found {A} (pk : A → Z) (table : DB → list A) (db : DB)
    (obj : A) (k : Z) :
  NoDup (pk <$> table db) → obj ∈ table db → pk obj = k →
  get_attribute (λ row, pk row = k) table db = Return (Some obj).
Proof.
  intros Hnd Hin <-. unfold get_attribute. run.
  by rewrite get_by_key_Return.
Qed.

Lemma filter_all_match {A} (P : A → Prop) `{∀ x, Decision (P x)}
    (rows : list A) :
  (∀ x, x ∈ rows → P x) → filter P rows = rows.
Proof.
  induction rows as [|x rows IH]; intros HP; [done|].
  rewrite filter_cons_True by (apply HP; left).
  f_equal. apply IH. intros y Hy. apply HP. by right.
Qed.

Lemma to_representation_many_Forall2 {A B} (child : A → Q B) (db : DB)
    (data : list A) (representations : list B) :
  Forall2 (λ item representation, child item db = Return representation)
    data representations →
  to_representation_many child data db = Return representations.
Proof.
  induction 1 as [|item representation data representations E _ IH];
    [done|].
  simpl. unfold mbind, Q_bind. by rewrite E, IH.
Qed.

Lemma join_row_shown (db : DB) (recipe : Recipe.t) (d : IngredientData.t) :
  NoDup (Ingredient.id <$> ingredients db) →
  IngredientData.ingredient d ∈ ingredients db →
  IngredientRecipeSerializer_to_representation
    (IngredientRecipe.mk (Recipe.id recipe)
       (Ingredient.id (IngredientData.ingredient d))
       (IngredientData.amount d)) db
  = Return (shown d).
Proof.
  intros Hnd Hin. unfold IngredientRecipeSerializer_to_representation.
  unfold mbind, Q_bind. simpl.
  by rewrite (get_attribute_found Ingredient.id ingredients db
                (IngredientData.ingredient d)).
Qed.

Lemma to_representation_rows (db : DB) (recipe : Recipe.t)
    (ingredients_data : list IngredientData.t) :
  NoDup (Ingredient.id <$> ingredients db) →
  (∀ d, d ∈ ingredients_data → IngredientData.ingredient d ∈ ingredients db) →
  to_representation_many IngredientRecipeSerializer_to_representation
    (ingredient_recipe_rows ingredients_data recipe) db
  = Return (shown <$> ingredients_data).
Proof.
  intros Hnd Hin. apply to_representation_many_Forall2.
  apply Forall2_fmap, Forall_Forall2_diag, Forall_forall.
  intros d Hd. apply join_row_shown; [done|by apply Hin].
Qed.

Lemma tag_ids_shown (l : list Tag.t) :
  TagRepresentation.id <$> (TagSerializer <$> l) = Tag.id <$> l.
Proof. by rewrite <- list_fmap_compose. Qed.

Lemma retrieve_created (db db' : DB) (request : Request)
    (user : CustomUser.t) (recipe : Recipe.t)
    (validated_data : ValidatedData.t) :
  references_hold db →
  NoDup (Ingredient.id <$> ingredients db) →
  NoDup (CustomUser.id <$> users db) →
  user ∈ users db →
  Recipe.author recipe = Some (CustomUser.id user) →
  Recipe.id recipe ∉ Recipe.id <$> recipes db →
  (∀ d, d ∈ ValidatedData.ingredientrecipe_set validated_data →
        IngredientData.ingredient d ∈ ingredients db) →
  created db db' recipe validated_data →
  RecipeViewSet_retrieve request (Recipe.id recipe) db'
  = Return
      (RecipeRepresentation.mk (Recipe.id recipe)
         (TagSerializer <$> tags_all db' recipe)
         (Some (CustomUserSerializer db' request user))
         (shown <$> ValidatedData.ingredientrecipe_set validated_data)
         false false (Recipe.name recipe)
         (FileField_to_representation (Some request) (Recipe.image recipe))
         (Recipe.text recipe) (Recipe.cooking_time recipe)).
Proof.
  intros Href Hing Husers Huser Hauthor Hfresh Hres
    (Hrecipes & _ & _ & Hrows & Hu & _ & Hi & Hf & Hc & _).
  assert (get (λ r, Recipe.id r = Recipe.id recipe) recipes db'
          = Return recipe) as Hget.
  { apply get_Return. rewrite Hrecipes, filter_app.
    rewrite (proj2 (filter_none _ (recipes db))).
    - simpl. by rewrite filter_cons_True, filter_nil.
    - intros r Hr E. apply Hfresh. rewrite <- E.
      by apply list_elem_of_fmap_2. }
  assert (ingredientrecipe_set db' recipe
          = ingredient_recipe_rows
              (ValidatedData.ingredientrecipe_set validated_data) recipe)
    as Hset.
  { unfold ingredientrecipe_set. rewrite Hrows, filter_app.
    rewrite (proj2 (filter_none _ (ingredientrecipes db))).
    - simpl. apply filter_all_match. intros row Hrow.
      by apply list_elem_of_fmap in Hrow as (d & -> & _).
    - intros row Hrow E. apply Hfresh. rewrite <- E.
      by apply (join_rows_reference db Href). }
  assert (∀ table, (∀ row, row ∈ table db →
                           Membership.recipe row ∈ Recipe.id <$> recipes db) →
                   table db' = table db →
                   filter (λ row, Membership.recipe row = Recipe.id recipe)
                     (table db') = []) as Hnone.
  { intros table Hin ->. apply filter_none. intros row Hrow E.
    apply Hfresh. rewrite <- E. by apply Hin. }
  unfold RecipeViewSet_retrieve. run. rewrite Hget. simpl.
  unfold RecipeSerializer_to_representation, Recipe_author. rewrite Hauthor.
  rewrite (get_attribute_found CustomUser.id users db' user);
    [|by rewrite Hu|by rewrite Hu|done].
  rewrite Hset, to_representation_rows;
    [|by rewrite Hi|intros d Hd; rewrite Hi; by apply Hres].
  simpl. do 2 f_equal.
  - unfold get_is_favorited. destruct (request_user request); [|done].
    by rewrite (Hnone favorites (favorites_reference db Href) Hf).
  - unfold get_is_in_shopping_cart. destruct (request_user request); [|done].
    by rewrite (Hnone shopping_carts (shopping_carts_reference db Href) Hc).
Qed.

Lemma shown_items (db : DB) (items : list IngredientItem.t)
    (ingredients_data : list IngredientData.t) :
  Forall2
    (λ item d,
       IngredientData.ingredient d ∈ ingredients db
       ∧ Ingredient.id (IngredientData.ingredient d) = IngredientItem.id item
       ∧ IngredientData.amount d = IngredientItem.amount item)
    items ingredients_data →
  (λ e, IngredientItem.mk (IngredientRecipeRepresentation.id e)
          (IngredientRecipeRepresentation.amount e))
  <$> (shown <$> ingredients_data)
  = items.
Proof.
  induction 1 as [|[id amount] d items l (_ & Hid & Hamount) _ IH]; [done|].
  rewrite !fmap_cons. f_equal; [|exact IH].
  simpl in *. by rewrite Hid, Hamount.
Qed.

Lemma shown_tags (platform : Platform) (db db' : DB)
    (instance : option Recipe.t) (recipe : Recipe.t) (data : RecipePayload.t)
    (validated_data : ValidatedData.t) :
  NoDup (Tag.id <$> tags db) →
  good_payload platform instance db data →
  resolves platform db data validated_data →
  tags db' = tags db →
  tags_replaced db db' recipe (ValidatedData.tags validated_data) →
  Tag.id <$> tags_all db' recipe ≡ₚ RecipePayload.tags data.
Proof.
  intros Hnd ((_ & Hnd' & Hin) & _) (Hids & _) Ht [Hlinks _].
  unfold tags_all. rewrite Ht. apply NoDup_Permutation; [|done|].
  - eapply sublist_NoDup; [exact Hnd|].
    apply fmap_sublist, sublist_filter.
  - intros x. rewrite <- Hids, <- Hlinks. split.
    + intros Hx. apply list_elem_of_fmap in Hx as (tag & -> & Htag).
      by apply list_elem_of_filter in Htag as [? _].
    + intros Hx. assert (x ∈ Tag.id <$> tags db) as Htag.
      { apply Hin. rewrite <- Hids. by apply Hlinks. }
      apply list_elem_of_fmap in Htag as (tag & -> & Htag).
      apply list_elem_of_fmap_2. by apply list_elem_of_filter.
Qed.

(** X14.  What is posted is what is read.  With keys unique and no
    dangling recipe reference, when a user of the users table posts a
    valid payload whose integers fit the columns, the answer is 201, and
    retrieving the new recipe shows the stripped name and text of the
    payload, its cooking time, the absolute URL of the file made of its
    image, the requester as author, the tags of the payload (in some
    order), one ingredient entry per entry of the payload with the same
    id and amount and the name and unit of that ingredient, and both
    flags false. *)
Theorem posted_recipe_reads_back (platform : Platform) (db : DB)
    (request : Request) (user : CustomUser.t) (data : RecipePayload.t) :
  keys_unique db → references_hold db →
  NoDup (CustomUser.id <$> users db) → user ∈ users db →
  request_user request = Some user →
  good_payload platform None db data →
  fits_columns data →
  ∃ db' file representation,
    respond (RecipeViewSet_create platform request data) db = (db', 201)
    ∧ RecipeViewSet_retrieve request
        (RecipeRepresentation.id representation) db'
      = Return representation
    ∧ (RecipeRepresentation.id representation ∉ Recipe.id <$> recipes db)
    ∧ RecipeRepresentation.name representation
      = strip platform (RecipePayload.name data)
    ∧ RecipePayload.image data ≫= base64_image platform = Some file
    ∧ RecipeRepresentation.image representation
      = FileField_to_representation (Some request) file
    ∧ RecipeRepresentation.text representation
      = strip platform (RecipePayload.text data)
    ∧ RecipeRepresentation.cooking_time representation
      = RecipePayload.cooking_time data
    ∧ UserRepresentation.id <$> RecipeRepresentation.author representation
      = Some (CustomUser.id user)
    ∧ (TagRepresentation.id <$> RecipeRepresentation.tags representation)
      ≡ₚ RecipePayload.tags data
    ∧ ((λ e, IngredientItem.mk (IngredientRecipeRepresentation.id e)
               (IngredientRecipeRepresentation.amount e))
       <$> RecipeRepresentation.ingredients representation)
      ≡ₚ RecipePayload.ingredients data
    ∧ (∀ e, e ∈ RecipeRepresentation.ingredients representation →
         ∃ ingredient,
           ingredient ∈ ingredients db
           ∧ Ingredient.id ingredient = IngredientRecipeRepresentation.id e
           ∧ IngredientRecipeRepresentation.name e
             = Some (Ingredient.name ingredient)
           ∧ IngredientRecipeRepresentation.measurement_unit e
             = Some (Ingredient.measurement_unit ingredient))
    ∧ RecipeRepresentation.is_favorited representation = false
    ∧ RecipeRepresentation.is_in_shopping_cart representation = false.
Proof.
  intros Hkeys Href Husers Huser Hrequest Hgood _.
  assert (primary_keys db) as Hpk.
  { split; [apply (tag_ids_unique db Hkeys)
           |apply (ingredient_ids_unique db Hkeys)]. }
  destruct (run_validation_complete platform db None data Hpk Hgood)
    as [vd Hvd].
  destruct (run_validation_sound platform db None data vd Hpk Hvd)
    as [_ Hres].
  assert (∀ d, d ∈ ValidatedData.ingredientrecipe_set vd →
               IngredientData.ingredient d ∈ ingredients db) as Hrows.
  { destruct Hres as (_ & _ & Hf2 & _). intros d Hd.
    apply list_elem_of_lookup in Hd as [i Hi].
    destruct (Forall2_lookup_r _ _ _ _ _ Hf2 Hi) as (item & _ & ? & _).
    done. }
  destruct (create_view_succeeds platform db request user data vd Href
              Hrequest Hvd)
    as (db' & Hview & Hcreated).
  - by eapply resolves_ids_NoDup.
  - destruct Hres as (_ & _ & _ & -> & _).
    destruct Hgood as (_ & _ & (_ & _ & Hname) & _).
    intros r Hr E. by destruct (Hname r Hr E) as (obj & ? & _).
  - pose proof (λ Hauthor Hfresh,
                  retrieve_created db db' request user _ vd Href
                    (ingredient_ids_unique db Hkeys) Husers Huser Hauthor
                    Hfresh Hrows Hcreated) as Hread.
    specialize (Hread eq_refl (next_id_fresh _)).
    simpl in Hread.
    match type of Hread with
    | _ = Return ?r => exists db', (ValidatedData.image vd), r
    end.
    split; [unfold respond; by rewrite Hview|].
    split; [exact Hread|].
    destruct Hres as (Hids & Htags & Hf2 & Hname & Himage & Htext & Htime).
    simpl. split_and!; try done.
    + apply next_id_fresh.
    + rewrite tag_ids_shown.
      destruct Hcreated as (_ & _ & Hlinks & _ & _ & Ht & _).
      eapply shown_tags; [apply (tag_ids_unique db Hkeys)|done| |done|done].
      by split_and!.
    + by rewrite (shown_items db _ _ Hf2).
    + intros e He. apply list_elem_of_fmap in He as (d & -> & Hd).
      exists (IngredientData.ingredient d). split_and!; try done.
      by apply Hrows.
Qed.

Lemma posted_recipe_reads_back_witness :
  ∃ db' representation,
    respond
      (RecipeViewSet_create sample_platform (mkRequest POST (Some alice) ∅)
         (RecipePayload.mk [1]
            [IngredientItem.mk 2 4; IngredientItem.mk 1 1] "Stew"
            (Some "stew.png") "Simmer." 30))
      kitchen_db
    = (db', 201)
    ∧ RecipeViewSet_retrieve (mkRequest POST (Some alice) ∅)
        (RecipeRepresentation.id representation) db'
      = Return representation
    ∧ RecipeRepresentation.name representation = "Stew"
    ∧ RecipeRepresentation.image representation
      = Some (build_absolute_uri "media/stew.png").
Proof.
  destruct (posted_recipe_reads_back sample_platform kitchen_db
              (mkRequest POST (Some alice) ∅) alice
              (RecipePayload.mk [1]
                 [IngredientItem.mk 2 4; IngredientItem.mk 1 1] "Stew"
                 (Some "stew.png") "Simmer." 30))
    as (db' & file & representation & H1 & H2 & _ & H3 & Hfile & H4 & _).
  - split; simpl;
      repeat (apply NoDup_cons; split;
        [rewrite ?elem_of_cons, elem_of_nil; intros H;
         repeat destruct H as [H|H]; discriminate || done|]);
      apply NoDup_nil_2.
  - split; simpl.
    + intros row Hrow. apply list_elem_of_singleton in Hrow as ->. left.
    + intros row Hrow. by apply elem_of_nil in Hrow.
    + intros row Hrow. by apply elem_of_nil in Hrow.
    + intros link Hlink. apply elem_of_singleton in Hlink as ->. left.
  - simpl. apply NoDup_singleton.
  - left.
  - reflexivity.
  - unfold good_payload, good_text. simpl. split_and!; try done.
    + apply NoDup_singleton.
    + repeat (apply NoDup_cons; split;
        [rewrite ?elem_of_cons, elem_of_nil; intros H;
         repeat destruct H as [H|H]; discriminate || done|]).
      apply NoDup_nil_2.
    + intros item Hin. rewrite !elem_of_cons, elem_of_nil in Hin.
      destruct Hin as [->|[->|[]]]; simpl; (split; [|lia]);
        rewrite !elem_of_cons; tauto.
    + intros r Hr E. apply list_elem_of_singleton in Hr as ->. discriminate.
    + by exists "stew.png", "media/stew.png".
  - unfold fits_columns. simpl. split_and!; [| |lia].
    + repeat constructor; lia.
    + repeat constructor; simpl; lia.
  - simpl in Hfile. injection Hfile as <-. by exists db', representation.
Defined.

(** ** A deleted recipe is gone *)

Lemma get_object_or_404_missing {A} (P : A → Prop) `{∀ x, Decision (P x)}
    (table : DB → list A) (db : DB) :
  (∀ x, x ∈ table db → ¬ P x) →
  get_object_or_404 P table db = Raise Http404.
Proof.
  intros Hnone. apply (filter_none P) in Hnone.
  unfold get_object_or_404, try_except, get. by rewrite Hnone.
Qed.

(** X15.  When its author deletes a recipe, the answer is 204 and the
    recipe goes with its join rows, tag links, favorites and cart
    entries, and with nothing of the other recipes.  From then on
    retrieving its key is answered 404, and so are, for a requester who
    is authenticated, update, destroy and the cart and favorite actions
    on its key, which leave the database as it is. *)
Theorem destroyed_recipe_is_gone (platform : Platform) (db : DB)
    (request : Request) (pk : Z) (instance : Recipe.t) :
  get (λ r, Recipe.id r = pk) recipes db = Return instance →
  is_author request instance →
  ∃ db',
    respond (RecipeViewSet_destroy request pk) db = (db', 204)
    ∧ (∀ r, r ∈ recipes db' ↔ r ∈ recipes db ∧ Recipe.id r ≠ pk)
    ∧ (∀ row, row ∈ ingredientrecipes db'
              ↔ row ∈ ingredientrecipes db ∧ IngredientRecipe.recipe row ≠ pk)
    ∧ (∀ link, link ∈ recipe_tags db' ↔ link ∈ recipe_tags db ∧ link.1 ≠ pk)
    ∧ (∀ model row, row ∈ objects model db'
                    ↔ row ∈ objects model db ∧ Membership.recipe row ≠ pk)
    ∧ users db' = users db ∧ tags db' = tags db
    ∧ ingredients db' = ingredients db ∧ subscribes db' = subscribes db
    ∧ (∀ request', RecipeViewSet_retrieve request' pk db' = Raise Http404)
    ∧ (∀ request' data,
         is_Some (request_user request') →
         respond (RecipeViewSet_update platform request' pk data) db'
         = (db', 404))
    ∧ (∀ request',
         is_Some (request_user request') →
         respond (RecipeViewSet_destroy request' pk) db' = (db', 404))
    ∧ (∀ model request',
         is_Some (request_user request') →
         request_method request' = POST ∨ request_method request' = DELETE →
         respond (membership_action model request' pk) db' = (db', 404)).
Proof.
  intros Hget _. apply get_Return_elem in Hget as Hin.
  destruct Hin as [_ Hpk].
  eexists. split.
  { unfold respond, RecipeViewSet_destroy, Recipe_delete. run.
    rewrite Hget. simpl. reflexivity. }
  rewrite Hpk.
  assert (get_object_or_404 (λ r, Recipe.id r = pk) recipes
            (mkDB (users db) (tags db) (ingredients db)
               (filter (λ r, Recipe.id r ≠ pk) (recipes db))
               (filter (λ link, link.1 ≠ pk) (recipe_tags db))
               (filter (λ row, IngredientRecipe.recipe row ≠ pk)
                  (ingredientrecipes db))
               (filter (λ row, Membership.recipe row ≠ pk) (favorites db))
               (filter (λ row, Membership.recipe row ≠ pk)
                  (shopping_carts db))
               (subscribes db))
          = Raise Http404) as Hgone.
  { apply get_object_or_404_missing. simpl. intros r Hr.
    by apply list_elem_of_filter in Hr as [? _]. }
  split_and!; try done.
  - intros r. simpl. rewrite list_elem_of_filter. tauto.
  - intros row. simpl. rewrite list_elem_of_filter. tauto.
  - intros link. simpl. rewrite elem_of_filter. tauto.
  - intros [] row; simpl; rewrite list_elem_of_filter; tauto.
  - intros request'. unfold RecipeViewSet_retrieve, mbind, Q_bind.
    by rewrite Hgone.
  - intros request' data _.
    unfold respond, RecipeViewSet_update, mbind, M_bind, query.
    by rewrite Hgone.
  - intros request' _.
    unfold respond, RecipeViewSet_destroy, mbind, M_bind, query.
    by rewrite Hgone.
  - intros model request' _ Hmethod.
    unfold respond, membership_action, serialize_obj.
    rewrite decide_False by (intros [? ?]; tauto).
    unfold mbind, M_bind, query. by rewrite Hgone.
Qed.

Lemma destroyed_recipe_is_gone_witness :
  ∃ db',
    respond (RecipeViewSet_destroy (mkRequest DELETE (Some alice) ∅) 1)
      kitchen_db
    = (db', 204)
    ∧ RecipeViewSet_retrieve (mkRequest GET None ∅) 1 db' = Raise Http404
    ∧ respond (favorite (mkRequest POST (Some alice) ∅) 1) db' = (db', 404).
Proof.
  destruct (destroyed_recipe_is_gone sample_platform kitchen_db
              (mkRequest DELETE (Some alice) ∅) 1 soup)
    as (db' & H1 & _ & _ & _ & _ & _ & _ & _ & _ & H2 & _ & _ & H3).
  - reflexivity.
  - by exists alice.
  - exists db'. split_and!; [exact H1|apply H2|].
    apply (H3 Favorite); [by eexists|by left].
Defined.

(** ** An update keeps what it is not given *)

Lemma retrieve_updated (db db' : DB) (request : Request)
    (instance recipe : Recipe.t) (validated_data : ValidatedData.t)
    (author : option CustomUser.t) :
  NoDup (Recipe.id <$> recipes db) →
  NoDup (Ingredient.id <$> ingredients db) →
  instance ∈ recipes db →
  Recipe.id recipe = Recipe.id instance →
  Recipe.author recipe = Recipe.author instance →
  Recipe_author instance db = Return author →
  (∀ d, d ∈ ValidatedData.ingredientrecipe_set validated_data →
        IngredientData.ingredient d ∈ ingredients db) →
  updated db db' recipe validated_data →
  RecipeViewSet_retrieve request (Recipe.id instance) db'
  = Return
      (RecipeRepresentation.mk (Recipe.id recipe)
         (TagSerializer <$> tags_all db' recipe)
         (CustomUserSerializer db request <$> author)
         (shown <$> ValidatedData.ingredientrecipe_set validated_data)
         (get_is_favorited db request instance)
         (get_is_in_shopping_cart db request instance)
         (Recipe.name recipe)
         (FileField_to_representation (Some request) (Recipe.image recipe))
         (Recipe.text recipe) (Recipe.cooking_time recipe)).
Proof.
  intros Hnd Hing Hin Hid Hauthor Hattr Hres
    (Hrecipes & _ & _ & Hrows & Hu & _ & Hi & Hf & Hc & Hs).
  assert (get (λ r, Recipe.id r = Recipe.id instance) recipes db'
          = Return recipe) as Hget.
  { rewrite <- Hid. apply get_by_key_Return.
    - by rewrite Hrecipes, updated_ids.
    - rewrite Hrecipes. apply list_elem_of_fmap. exists instance.
      by rewrite decide_True. }
  assert (ingredientrecipe_set db' recipe
          = ingredient_recipe_rows
              (ValidatedData.ingredientrecipe_set validated_data) recipe)
    as Hset.
  { unfold ingredientrecipe_set. rewrite Hrows, filter_app.
    rewrite (proj2 (filter_none _ (filter _ (ingredientrecipes db)))).
    - simpl. apply filter_all_match. intros row Hrow.
      by apply list_elem_of_fmap in Hrow as (d & -> & _).
    - intros row Hrow E. by apply list_elem_of_filter in Hrow as [Hne _]. }
  assert (Recipe_author recipe db' = Return author) as Hattr'.
  { rewrite <- Hattr. unfold Recipe_author. rewrite Hauthor.
    destruct (Recipe.author instance); [|done].
    unfold get_attribute, try_except, mbind, Q_bind, get. by rewrite Hu. }
  unfold RecipeViewSet_retrieve. run. rewrite Hget. simpl.
  unfold RecipeSerializer_to_representation. rewrite Hattr'.
  rewrite Hset, to_representation_rows;
    [|by rewrite Hi|intros d Hd; rewrite Hi; by apply Hres].
  f_equal. f_equal.
  - destruct author as [u|]; [|done]. simpl. f_equal.
    unfold CustomUserSerializer, get_is_subscribed. by rewrite Hs.
  - unfold get_is_favorited. by rewrite Hf, Hid.
  - unfold get_is_in_shopping_cart. by rewrite Hc, Hid.
Qed.

(** X16.  With keys unique, when the author of a recipe puts a valid
    payload on it whose integers fit the columns, the answer is 200, and
    the recipe read afterwards under the same key has the id, the author
    and, for the same reader, the is_favorited and is_in_shopping_cart
    flags it had before.  Its name and text are the stripped name and
    text of the payload, its cooking time that of the payload, its image
    the absolute URL of the file made of the image of the payload, its
    tags those of the payload (in some order), and its ingredient
    entries carry the ids and amounts of the payload. *)
Theorem put_recipe_reads_back (platform : Platform) (db : DB)
    (request request' : Request) (pk : Z) (instance : Recipe.t)
    (data : RecipePayload.t) :
  keys_unique db →
  NoDup (CustomUser.id <$> users db) →
  get (λ r, Recipe.id r = pk) recipes db = Return instance →
  is_author request' instance →
  good_payload platform (Some instance) db data →
  fits_columns data →
  ∃ db' file before after,
    RecipeViewSet_retrieve request pk db = Return before
    ∧ respond (RecipeViewSet_update platform request' pk data) db
      = (db', 200)
    ∧ RecipeViewSet_retrieve request pk db' = Return after
    ∧ RecipeRepresentation.id after = RecipeRepresentation.id before
    ∧ RecipeRepresentation.author after = RecipeRepresentation.author before
    ∧ RecipeRepresentation.is_favorited after
      = RecipeRepresentation.is_favorited before
    ∧ RecipeRepresentation.is_in_shopping_cart after
      = RecipeRepresentation.is_in_shopping_cart before
    ∧ RecipeRepresentation.name after
      = strip platform (RecipePayload.name data)
    ∧ RecipePayload.image data ≫= base64_image platform = Some file
    ∧ RecipeRepresentation.image after
      = FileField_to_representation (Some request) file
    ∧ RecipeRepresentation.text after
      = strip platform (RecipePayload.text data)
    ∧ RecipeRepresentation.cooking_time after
      = RecipePayload.cooking_time data
    ∧ (TagRepresentation.id <$> RecipeRepresentation.tags after)
      ≡ₚ RecipePayload.tags data
    ∧ ((λ e, IngredientItem.mk (IngredientRecipeRepresentation.id e)
               (IngredientRecipeRepresentation.amount e))
       <$> RecipeRepresentation.ingredients after)
      ≡ₚ RecipePayload.ingredients data.
Proof.
  intros Hkeys Husers Hget _ Hgood _.
  assert (primary_keys db) as Hpk.
  { split; [apply (tag_ids_unique db Hkeys)
           |apply (ingredient_ids_unique db Hkeys)]. }
  destruct (run_validation_complete platform db (Some instance) data Hpk
              Hgood) as [vd Hvd].
  destruct (run_validation_sound platform db (Some instance) data vd Hpk Hvd)
    as [_ Hres].
  assert (∀ d, d ∈ ValidatedData.ingredientrecipe_set vd →
               IngredientData.ingredient d ∈ ingredients db) as Hrows.
  { destruct Hres as (_ & _ & Hf2 & _). intros d Hd.
    apply list_elem_of_lookup in Hd as [i Hi].
    destruct (Forall2_lookup_r _ _ _ _ _ Hf2 Hi) as (item & _ & ? & _).
    done. }
  destruct (to_representation_returns db request instance Husers
              (ingredient_ids_unique db Hkeys))
    as (author & entries & Hauthor & Hbefore).
  destruct (update_view_succeeds platform db request' pk instance data vd
              Hget Hvd)
    as (db' & Hview & Hup).
  { by eapply resolves_ids_NoDup. }
  { destruct Hres as (_ & _ & _ & -> & _).
    destruct Hgood as (_ & _ & (_ & _ & Hname) & _).
    intros r Hr E. destruct (Hname r Hr E) as (obj & ? & ?). by simplify_eq. }
  apply get_Return_elem in Hget as Hin. destruct Hin as [Hin Hid].
  pose proof (λ H1 H2,
                retrieve_updated db db' request instance _ vd author
                  (recipe_ids_unique db Hkeys)
                  (ingredient_ids_unique db Hkeys)
                  Hin H1 H2 Hauthor Hrows Hup) as Hafter.
  specialize (Hafter eq_refl eq_refl).
  rewrite Hid in Hafter, Hup. simpl in Hafter.
  match type of Hbefore with _ = Return ?b =>
    match type of Hafter with
    | _ = Return ?a => exists db', (ValidatedData.image vd), b, a
    end
  end.
  destruct Hres as (Hids & Htags & Hf2 & Hname & Himage & Htext & Htime).
  simpl. split_and!; try done.
  - unfold RecipeViewSet_retrieve. run. by rewrite Hget.
  - unfold respond. by rewrite Hview.
  - rewrite tag_ids_shown.
    destruct Hup as (_ & _ & Hlinks & _ & _ & Ht & _).
    eapply shown_tags; [apply (tag_ids_unique db Hkeys)|done| |done|done].
    by split_and!.
  - by rewrite (shown_items db _ _ Hf2).
Qed.

Lemma put_recipe_reads_back_witness :
  ∃ db' before after,
    RecipeViewSet_retrieve (mkRequest GET (Some alice) ∅) 1 kitchen_db
    = Return before
    ∧ respond
        (RecipeViewSet_update sample_platform (mkRequest PUT (Some alice) ∅)
           1
           (RecipePayload.mk [1] [IngredientItem.mk 2 4] "Stew"
              (Some "stew.png") "Simmer." 30))
        kitchen_db
      = (db', 200)
    ∧ RecipeViewSet_retrieve (mkRequest GET (Some alice) ∅) 1 db'
      = Return after
    ∧ RecipeRepresentation.author after = RecipeRepresentation.author before
    ∧ RecipeRepresentation.image after
      = Some (build_absolute_uri "media/stew.png").
Proof.
  destruct (put_recipe_reads_back sample_platform kitchen_db
              (mkRequest GET (Some alice) ∅) (mkRequest PUT (Some alice) ∅)
              1 soup
              (RecipePayload.mk [1] [IngredientItem.mk 2 4] "Stew"
                 (Some "stew.png") "Simmer." 30))
    as (db' & file & before & after & H1 & H2 & H3 & _ & H4 & _ & _ & _
        & Hfile & H5 & _).
  - split; simpl;
      repeat (apply NoDup_cons; split;
        [rewrite ?elem_of_cons, elem_of_nil; intros H;
         repeat destruct H as [H|H]; discriminate || done|]);
      apply NoDup_nil_2.
  - simpl. apply NoDup_singleton.
  - reflexivity.
  - by exists alice.
  - unfold good_payload, good_text. simpl. split_and!; try done.
    + apply NoDup_singleton.
    + apply NoDup_singleton.
    + intros item Hin. apply list_elem_of_singleton in Hin as ->. simpl.
      split; [|lia]. rewrite !elem_of_cons. tauto.
    + intros r Hr E. apply list_elem_of_singleton in Hr as ->. discriminate.
    + by exists "stew.png", "media/stew.png".
  - unfold fits_columns. simpl. split_and!; [| |lia].
    + repeat constructor; lia.
    + repeat constructor; simpl; lia.
  - simpl in Hfile. injection Hfile as <-. by exists db', before, after.
Defined.

(** ** A request that fails writes nothing *)








(** ** The cart and the shopping list *)

Lemma total_for_app (key : string * string) (rows rows' : list CartLine.t) :
  total_for key (rows ++ rows') = total_for key rows + total_for key rows'.
Proof.
  induction rows as [|row rows IH]; [by rewrite total_for_nil|].
  rewrite <- app_comm_cons, !total_for_cons, IH. lia.
Qed.

Lemma cart_lines_add (lines : IngredientRecipe.t → list CartLine.t)
    (carts : list Membership.t) (rows : list IngredientRecipe.t)
    (recipe user : Z) (key : string * string) :
  Membership.mk recipe user ∉ carts →
  total_for key
    (filter (λ row, Membership.mk (IngredientRecipe.recipe row) user
                    ∈ carts ++ [Membership.mk recipe user]) rows
     ≫= lines)
  = total_for key
      (filter (λ row, Membership.mk (IngredientRecipe.recipe row) user
                      ∈ carts) rows
       ≫= lines)
    + total_for key
        (filter (λ row, IngredientRecipe.recipe row = recipe) rows ≫= lines).
Proof.
  intros Hnot. induction rows as [|row rows IH]; [done|].
  rewrite !filter_cons.
  destruct (decide (Membership.mk (IngredientRecipe.recipe row) user ∈ carts))
    as [Hin|Hout];
    destruct (decide (IngredientRecipe.recipe row = recipe)) as [E|Hne].
  - by subst.
  - rewrite decide_True by (apply elem_of_app; by left).
    rewrite !bind_cons, !total_for_app, IH. lia.
  - rewrite decide_True
      by (apply elem_of_app; right; rewrite E; apply list_elem_of_singleton;
          done).
    rewrite !bind_cons, !total_for_app, IH. lia.
  - rewrite decide_False; [exact IH|].
    rewrite elem_of_app, list_elem_of_singleton. intros [?|?]; [done|].
    by simplify_eq.
Qed.

(** X18.  Putting a recipe into the cart adds its amounts to the list.
    Under the cart's unique constraint, when a user posts a recipe that is
    found and not yet in their cart, the answer is 201 and, for every
    pair of name and unit, the total of the user's shopping list grows by
    the sum of the amounts of the join rows of that recipe with that
    name and unit; the lists of the other users stay as they were. *)
Theorem cart_addition_adds_amounts (engine : Engine) (db : DB)
    (recipe : Recipe.t) (user : CustomUser.t)
    (query_params : gmap string string) :
  NoDup (shopping_carts db) →
  get (λ r, Recipe.id r = Recipe.id recipe) recipes db = Return recipe →
  Membership.mk (Recipe.id recipe) (CustomUser.id user) ∉ shopping_carts db →
  ∃ db',
    respond
      (shopping_cart (mkRequest POST (Some user) query_params)
         (Recipe.id recipe)) db
    = (db', 201)
    ∧ (∀ key,
         total_for key (ingredients_queryset engine db' user)
         = total_for key (ingredients_queryset engine db user)
           + total_for key (recipe_lines db recipe))
    ∧ (∀ other, CustomUser.id other ≠ CustomUser.id user →
         ingredients_queryset engine db' other
         = ingredients_queryset engine db other).
Proof.
  intros Hnd Hget Hnot. eexists. split.
  { unfold respond, shopping_cart.
    by rewrite (membership_post_absent ShoppingCart db recipe user
                  query_params Hget Hnot). }
  split.
  - intros key. rewrite !total_for_queryset.
    rewrite !joined_rows_cart_rows; [|done|].
    2:{ simpl. by apply NoDup_snoc. }
    unfold cart_rows, recipe_lines. simpl.
    by apply cart_lines_add.
  - intros other Hother. unfold ingredients_queryset. do 2 f_equal.
    unfold joined_rows. simpl. apply list_bind_ext; [|done].
    intros row. f_equal.
    rewrite filter_app, filter_cons_False, filter_nil, app_nil_r; [done|].
    simpl. intros [_ ?]. by apply Hother.
Qed.

Lemma cart_addition_adds_amounts_witness :
  ∃ db',
    respond (shopping_cart (mkRequest POST (Some bob) ∅) 1) cart_db = (db', 201)
    ∧ total_for ("Salt", "g") (ingredients_queryset last_formed_first db' bob)
      = 5.
Proof.
  destruct (cart_addition_adds_amounts last_formed_first cart_db
              (Recipe.mk 1 "A" "a.png" "Mix." 5 (Some 2)) bob ∅)
    as (db' & H1 & H2 & _).
  - simpl.
    repeat (apply NoDup_cons; split;
      [rewrite ?elem_of_cons, elem_of_nil; intros H;
       repeat destruct H as [H|H]; discriminate || done|]).
    apply NoDup_nil_2.
  - reflexivity.
  - simpl. rewrite !elem_of_cons, elem_of_nil. intros H.
    repeat destruct H as [H|H]; discriminate || done.
  - exists db'. split; [exact H1|]. by rewrite H2.
Defined.
